(** * AR City Explorer: the Walk Mode engine, the day session and the tour sequencer

    A shallow embedding of
      - [WalkModeService]      (walk-mode.service.ts, in this tree the last
                                part of src/app/app.ts),
      - [SessionService]       (src/app/services/session.service.ts),
      - [WalkingTourService]   (src/app/services/walking-tour.service.ts),
      - the handlers of [App] that drive them (src/app/app.ts),
    and of the two collaborators the selection algorithm reads
    ([InterestService.getInterests], [AiMemoryService.hasMemory]).

    Conventions.
      - A TypeScript [number] that holds a distance, a coordinate or a GPS
        accuracy is a rational [Q]; comparisons are the exact ones.  There is
        no NaN in this model, so [x || 0] on such a number is [x].
      - A [number] used as an index or a score is a [nat] or a [Z].
      - A JS [Set<string>] is a [gset string]; each signal of a service is a
        field of the service's state record, and a method is a function from
        state to state (with a result when the method returns one).
      - [calculateDistance] (Haversine, built on [Math.sin], [Math.cos] and
        [Math.atan2]) is a parameter of the development. *)

From Stdlib Require Import QArith Qabs ZArith Lia Lqa Sorted.
From stdpp Require Import base option list strings gmap sets.

Local Open Scope Q_scope.
Local Open Scope string_scope.
Local Open Scope list_scope.

(** ** Data model *)

(** [GeoLocation] of walk-mode.service.ts. *)
Record GeoLocation := mkGeoLocation {
  latitude : Q;
  longitude : Q;
  accuracy : Q;
  timestamp : Z
}.

(** [WalkLandmark] of walk-mode.service.ts: [distance], [tags] and
    [matchedInterest] are optional properties. *)
Record WalkLandmark := mkWalkLandmark {
  lm_id : string;
  lm_name : string;
  lm_latitude : Q;
  lm_longitude : Q;
  lm_distance : option Q;
  lm_tags : option (list string);
  lm_matchedInterest : option string
}.

(** The objects [getNextLandmark] builds in [withScores]: the landmark spread
    with [distance] and [matchedInterest] overwritten, plus [interestScore] and
    [previouslyVisited]. *)
Record ScoredLandmark := mkScored {
  landmark : WalkLandmark;
  interestScore : Z;
  previouslyVisited : bool
}.

Definition distance (c : ScoredLandmark) : option Q := lm_distance (landmark c).

(** [WalkingTour] of walking-tour.model.ts, the fields the engine reads. *)
Record WalkingTour := mkWalkingTour {
  tour_id : string;
  tour_cityId : string;
  landmarkIds : list string;
  isPremium : bool;
  previewLandmarkCount : Z
}.

(** What the services read from the platform and from their collaborators. *)
Record Platform := mkPlatform {
  isBrowser : bool;                (* isPlatformBrowser(platformId) *)
  hasGeolocation : bool;           (* navigator.geolocation is truthy *)
  newWatchId : nat;                (* what watchPosition returns *)
  userInterests : list string;     (* InterestService.getInterests() *)
  storedMemoryIds : list string;   (* landmarkId of each entry under 'ai_memories' *)
  todayKey : string;               (* new Date().toISOString().split('T')[0] *)
  nowISO : string                  (* new Date().toISOString() *)
}.

(** ** Collaborators read by the selection algorithm *)

(** [Array.prototype.includes] on an array of strings. *)
Definition includes (l : list string) (x : string) : bool :=
  bool_decide (x ∈ l).

(** [AiMemoryService.getAllMemories], reduced to the landmark ids: nothing
    outside a browser, otherwise what is stored. *)
Definition getAllMemories (p : Platform) : list string :=
  if isBrowser p then storedMemoryIds p else [].

(** [AiMemoryService.hasMemory]: [memories.some(m => m.landmarkId === landmarkId)]. *)
Definition hasMemory (p : Platform) (landmarkId : string) : bool :=
  existsb (fun m => bool_decide (m = landmarkId)) (getAllMemories p).

(** [WalkModeService.getInterestMatchScore]: the first user interest found in
    the tags decides; 2 when it is the primary interest, 1 otherwise. *)
Definition getInterestMatchScore (p : Platform) (tags : option (list string))
  : Z * option string :=
  match tags with
  | None => (0%Z, None)
  | Some [] => (0%Z, None)
  | Some ts =>
      match List.find (fun interest => includes ts interest) (userInterests p) with
      | Some interest =>
          let isPrimary := bool_decide (head (userInterests p) = Some interest) in
          ((if isPrimary then 2 else 1)%Z, Some interest)
      | None => (0%Z, None)
      end
  end.

(** ** [Array.prototype.sort] with a comparison function

    ECMAScript's sort is stable, and it orders [a] before [b] when
    [cmp a b <= 0] (left to right insertion keeps equal elements in their
    original order). *)
Fixpoint insertBy {A : Type} (cmp : A → A → Q) (x : A) (l : list A) : list A :=
  match l with
  | [] => [x]
  | y :: l' => if Qle_bool (cmp x y) 0 then x :: y :: l' else y :: insertBy cmp x l'
  end.

Definition sort {A : Type} (cmp : A → A → Q) (l : list A) : list A :=
  foldr (insertBy cmp) [] l.

(** ** WalkModeService *)

Record WalkModeService := mkWalkModeService {
  isActive : bool;
  currentLocation : option GeoLocation;
  pendingLandmark : option ScoredLandmark;
  visitedIds : gset string;
  skippedIds : gset string;
  isPaused : bool;
  gpsAccuracyPoor : bool;
  currentCityId : string;
  activeTour : option WalkingTour;
  tourIndex : nat;
  tourPreviewLimit : Z;
  tourPreviewLimitReached : bool;
  watchId : option nat
}.

(** The field initialisers of the class. *)
Definition initialWalkMode : WalkModeService :=
  {| isActive := false; currentLocation := None; pendingLandmark := None;
     visitedIds := ∅; skippedIds := ∅; isPaused := false;
     gpsAccuracyPoor := false; currentCityId := "dallas";
     activeTour := None; tourIndex := 0; tourPreviewLimit := 0;
     tourPreviewLimitReached := false; watchId := None |}.

(** [signal.set] on each field. *)
Definition set_isActive (v : bool) (s : WalkModeService) : WalkModeService :=
  mkWalkModeService v (currentLocation s) (pendingLandmark s) (visitedIds s)
    (skippedIds s) (isPaused s) (gpsAccuracyPoor s) (currentCityId s)
    (activeTour s) (tourIndex s) (tourPreviewLimit s) (tourPreviewLimitReached s)
    (watchId s).

Definition set_currentLocation (v : option GeoLocation) (s : WalkModeService) : WalkModeService :=
  mkWalkModeService (isActive s) v (pendingLandmark s) (visitedIds s)
    (skippedIds s) (isPaused s) (gpsAccuracyPoor s) (currentCityId s)
    (activeTour s) (tourIndex s) (tourPreviewLimit s) (tourPreviewLimitReached s)
    (watchId s).

Definition set_pendingLandmark (v : option ScoredLandmark) (s : WalkModeService) : WalkModeService :=
  mkWalkModeService (isActive s) (currentLocation s) v (visitedIds s)
    (skippedIds s) (isPaused s) (gpsAccuracyPoor s) (currentCityId s)
    (activeTour s) (tourIndex s) (tourPreviewLimit s) (tourPreviewLimitReached s)
    (watchId s).

Definition set_visitedIds (v : gset string) (s : WalkModeService) : WalkModeService :=
  mkWalkModeService (isActive s) (currentLocation s) (pendingLandmark s) v
    (skippedIds s) (isPaused s) (gpsAccuracyPoor s) (currentCityId s)
    (activeTour s) (tourIndex s) (tourPreviewLimit s) (tourPreviewLimitReached s)
    (watchId s).

Definition set_skippedIds (v : gset string) (s : WalkModeService) : WalkModeService :=
  mkWalkModeService (isActive s) (currentLocation s) (pendingLandmark s) (visitedIds s)
    v (isPaused s) (gpsAccuracyPoor s) (currentCityId s)
    (activeTour s) (tourIndex s) (tourPreviewLimit s) (tourPreviewLimitReached s)
    (watchId s).

Definition set_isPaused (v : bool) (s : WalkModeService) : WalkModeService :=
  mkWalkModeService (isActive s) (currentLocation s) (pendingLandmark s) (visitedIds s)
    (skippedIds s) v (gpsAccuracyPoor s) (currentCityId s)
    (activeTour s) (tourIndex s) (tourPreviewLimit s) (tourPreviewLimitReached s)
    (watchId s).

Definition set_gpsAccuracyPoor (v : bool) (s : WalkModeService) : WalkModeService :=
  mkWalkModeService (isActive s) (currentLocation s) (pendingLandmark s) (visitedIds s)
    (skippedIds s) (isPaused s) v (currentCityId s)
    (activeTour s) (tourIndex s) (tourPreviewLimit s) (tourPreviewLimitReached s)
    (watchId s).

Definition set_currentCityId (v : string) (s : WalkModeService) : WalkModeService :=
  mkWalkModeService (isActive s) (currentLocation s) (pendingLandmark s) (visitedIds s)
    (skippedIds s) (isPaused s) (gpsAccuracyPoor s) v
    (activeTour s) (tourIndex s) (tourPreviewLimit s) (tourPreviewLimitReached s)
    (watchId s).

Definition set_activeTour (v : option WalkingTour) (s : WalkModeService) : WalkModeService :=
  mkWalkModeService (isActive s) (currentLocation s) (pendingLandmark s) (visitedIds s)
    (skippedIds s) (isPaused s) (gpsAccuracyPoor s) (currentCityId s)
    v (tourIndex s) (tourPreviewLimit s) (tourPreviewLimitReached s)
    (watchId s).

Definition set_tourIndex (v : nat) (s : WalkModeService) : WalkModeService :=
  mkWalkModeService (isActive s) (currentLocation s) (pendingLandmark s) (visitedIds s)
    (skippedIds s) (isPaused s) (gpsAccuracyPoor s) (currentCityId s)
    (activeTour s) v (tourPreviewLimit s) (tourPreviewLimitReached s)
    (watchId s).

Definition set_tourPreviewLimit (v : Z) (s : WalkModeService) : WalkModeService :=
  mkWalkModeService (isActive s) (currentLocation s) (pendingLandmark s) (visitedIds s)
    (skippedIds s) (isPaused s) (gpsAccuracyPoor s) (currentCityId s)
    (activeTour s) (tourIndex s) v (tourPreviewLimitReached s)
    (watchId s).

Definition set_tourPreviewLimitReached (v : bool) (s : WalkModeService) : WalkModeService :=
  mkWalkModeService (isActive s) (currentLocation s) (pendingLandmark s) (visitedIds s)
    (skippedIds s) (isPaused s) (gpsAccuracyPoor s) (currentCityId s)
    (activeTour s) (tourIndex s) (tourPreviewLimit s) v
    (watchId s).

Definition set_watchId (v : option nat) (s : WalkModeService) : WalkModeService :=
  mkWalkModeService (isActive s) (currentLocation s) (pendingLandmark s) (visitedIds s)
    (skippedIds s) (isPaused s) (gpsAccuracyPoor s) (currentCityId s)
    (activeTour s) (tourIndex s) (tourPreviewLimit s) (tourPreviewLimitReached s)
    v.

(** The three readonly thresholds, in meters. *)
Definition PROXIMITY_THRESHOLD : Q := 30.
Definition POOR_ACCURACY_THRESHOLD : Q := 50.
Definition INTEREST_PRIORITY_RANGE : Q := 200.

Section Engine.

(** [WalkModeService.calculateDistance]: the Haversine distance in meters
    between (lat1, lon1) and (lat2, lon2). *)
Variable calculateDistance : Q → Q → Q → Q → Q.

Variable p : Platform.

(** [startWalk]: refuses without a geolocation capability, otherwise resets
    the walk and registers the position watch. *)
Definition startWalk (s : WalkModeService) : bool * WalkModeService :=
  if negb (isBrowser p) || negb (hasGeolocation p) then (false, s)
  else
    let s := set_isActive true s in
    let s := set_isPaused false s in
    let s := set_visitedIds ∅ s in
    let s := set_skippedIds ∅ s in
    let s := set_pendingLandmark None s in
    let s := set_watchId (Some (newWatchId p)) s in
    (true, s).

Definition stopWalk (s : WalkModeService) : WalkModeService :=
  let s := set_isActive false s in
  let s := set_pendingLandmark None s in
  if bool_decide (watchId s ≠ None) && isBrowser p then set_watchId None s else s.

Definition pauseWalk (s : WalkModeService) : WalkModeService :=
  set_isPaused true s.

Definition resumeWalk (s : WalkModeService) : WalkModeService :=
  set_isPaused false s.

(** [onCityChanged]: stops an active walk, then resets the walk state. *)
Definition onCityChanged (newCityId : string) (s : WalkModeService) : WalkModeService :=
  let s := if isActive s then stopWalk s else s in
  let s := set_visitedIds ∅ s in
  let s := set_skippedIds ∅ s in
  let s := set_pendingLandmark None s in
  let s := set_activeTour None s in
  let s := set_tourIndex 0 s in
  let s := set_tourPreviewLimitReached false s in
  set_currentCityId newCityId s.

(** The effect registered by the constructor, run with the value of
    [cityService.activeCity()] (the id of the active city, if any). *)
Definition cityEffect (activeCity : option string) (s : WalkModeService) : WalkModeService :=
  match activeCity with
  | Some cityId =>
      if bool_decide (cityId ≠ currentCityId s) then onCityChanged cityId s else s
  | None => s
  end.

(** [handlePositionUpdate]: stores the fix, then gates on its accuracy. *)
Definition handlePositionUpdate (position : GeoLocation) (s : WalkModeService) : WalkModeService :=
  let location := position in
  let s := set_currentLocation (Some location) s in
  if negb (Qle_bool (accuracy location) POOR_ACCURACY_THRESHOLD) then
    let s := set_gpsAccuracyPoor true s in
    set_isPaused true s
  else
    let s := set_gpsAccuracyPoor false s in
    if isPaused s then set_isPaused false s else s.

Definition handlePositionError (s : WalkModeService) : WalkModeService :=
  let s := set_gpsAccuracyPoor true s in
  set_isPaused true s.

(** [a.distance || 0]. *)
Definition distanceOr0 (c : ScoredLandmark) : Q :=
  match distance c with
  | Some d => d
  | None => 0
  end.

(** The comparison function given to [withScores.sort]. *)
Definition compareFn (a b : ScoredLandmark) : Q :=
  if previouslyVisited a && negb (previouslyVisited b) then 1
  else if negb (previouslyVisited a) && previouslyVisited b then -1
  else
    let aInRange := Qle_bool (distanceOr0 a) INTEREST_PRIORITY_RANGE in
    let bInRange := Qle_bool (distanceOr0 b) INTEREST_PRIORITY_RANGE in
    if aInRange && bInRange then
      let scoreDiff := (interestScore b - interestScore a)%Z in
      if negb (scoreDiff =? 0)%Z then inject_Z scoreDiff
      else distanceOr0 a - distanceOr0 b
    else distanceOr0 a - distanceOr0 b.

(** The body of [available.map(...)]. *)
Definition withScore (location : GeoLocation) (l : WalkLandmark) : ScoredLandmark :=
  let d := calculateDistance (latitude location) (longitude location)
                             (lm_latitude l) (lm_longitude l) in
  let '(score, matchedInterest) := getInterestMatchScore p (lm_tags l) in
  let hasMem := hasMemory p (lm_id l) in
  {| landmark := {| lm_id := lm_id l; lm_name := lm_name l;
                    lm_latitude := lm_latitude l; lm_longitude := lm_longitude l;
                    lm_distance := Some d; lm_tags := lm_tags l;
                    lm_matchedInterest := matchedInterest |};
     interestScore := score;
     previouslyVisited := hasMem |}.

(** [landmarks.filter(l => !visited.has(l.id) && !skipped.has(l.id))]. *)
Definition available (s : WalkModeService) (landmarks : list WalkLandmark) : list WalkLandmark :=
  List.filter (fun l => negb (bool_decide (lm_id l ∈ visitedIds s))
                        && negb (bool_decide (lm_id l ∈ skippedIds s))) landmarks.

(** [getNextLandmark]: null without a location or without an available
    landmark, otherwise the first element of the sorted scored list. *)
Definition getNextLandmark (s : WalkModeService) (landmarks : list WalkLandmark)
  : option ScoredLandmark :=
  match currentLocation s with
  | None => None
  | Some location =>
      let avail := available s landmarks in
      if (length avail =? 0)%nat then None
      else
        let withScores := List.map (withScore location) avail in
        head (sort compareFn withScores)
  end.

(** [checkProximity].  The test [!nearest.distance] holds for a missing
    distance and for the number 0. *)
Definition checkProximity (landmarks : list WalkLandmark) (s : WalkModeService)
  : option ScoredLandmark * WalkModeService :=
  if isPaused s || bool_decide (pendingLandmark s ≠ None) then (None, s)
  else
    match getNextLandmark s landmarks with
    | None => (None, s)
    | Some nearest =>
        match distance nearest with
        | None => (None, s)
        | Some d =>
            if Qeq_bool d 0 then (None, s)
            else if Qle_bool d PROXIMITY_THRESHOLD
                 then (Some nearest, set_pendingLandmark (Some nearest) s)
                 else (None, s)
        end
    end.

(** [advanceTour]: one step forward when the landmark is the expected stop. *)
Definition advanceTour (landmarkId : string) (s : WalkModeService) : WalkModeService :=
  match activeTour s with
  | None => s
  | Some tour =>
      let currentIndex := tourIndex s in
      let expectedId := landmarkIds tour !! currentIndex in
      if bool_decide (Some landmarkId = expectedId)
      then set_tourIndex (currentIndex + 1) s
      else s
  end.

(** [markVisited] of the walk engine: [new Set([...set, id])], then the
    tour. *)
Definition markVisited (id : string) (s : WalkModeService) : WalkModeService :=
  let s := set_visitedIds (visitedIds s ∪ {[ id ]}) s in
  if bool_decide (activeTour s ≠ None) then advanceTour id s else s.

Definition explorePending (s : WalkModeService) : option ScoredLandmark * WalkModeService :=
  match pendingLandmark s with
  | None => (None, s)
  | Some pending =>
      let s := markVisited (lm_id (landmark pending)) s in
      let s := set_pendingLandmark None s in
      (Some pending, s)
  end.

Definition skipPending (s : WalkModeService) : WalkModeService :=
  match pendingLandmark s with
  | Some pending =>
      let s := set_skippedIds (skippedIds s ∪ {[ lm_id (landmark pending) ]}) s in
      set_pendingLandmark None s
  | None => s
  end.

(** [startTourWalk]: installs the tour, then starts the regular walk. *)
Definition startTourWalk (tour : WalkingTour) (isPreviewMode : bool) (s : WalkModeService)
  : bool * WalkModeService :=
  let s := set_activeTour (Some tour) s in
  let s := set_tourIndex 0 s in
  let s := set_tourPreviewLimitReached false s in
  let s := if isPreviewMode
           then set_tourPreviewLimit (previewLandmarkCount tour) s
           else set_tourPreviewLimit (Z.of_nat (length (landmarkIds tour))) s in
  startWalk s.

(** [getNextTourLandmark]. *)
Definition getNextTourLandmark (landmarks : list WalkLandmark) (s : WalkModeService)
  : option WalkLandmark * WalkModeService :=
  match activeTour s with
  | None => (None, s)
  | Some tour =>
      let currentIndex := tourIndex s in
      if (length (landmarkIds tour) <=? currentIndex)%nat then (None, s)
      else if (tourPreviewLimit s <=? Z.of_nat currentIndex)%Z
      then (None, set_tourPreviewLimitReached true s)
      else
        let targetId := landmarkIds tour !! currentIndex in
        (List.find (fun l => bool_decide (Some (lm_id l) = targetId)) landmarks, s)
  end.

Definition endTourMode (s : WalkModeService) : WalkModeService :=
  let s := set_activeTour None s in
  let s := set_tourIndex 0 s in
  let s := set_tourPreviewLimit 0 s in
  set_tourPreviewLimitReached false s.

Definition upgradeTourAccess (s : WalkModeService) : WalkModeService :=
  match activeTour s with
  | None => s
  | Some tour =>
      let s := set_tourPreviewLimit (Z.of_nat (length (landmarkIds tour))) s in
      set_tourPreviewLimitReached false s
  end.

(** *** The engine as a transition system

    One constructor per entry point of the service: its public methods, the
    two callbacks of the position watch and the city effect. *)
Inductive Op : Type :=
| OpStartWalk
| OpStopWalk
| OpPauseWalk
| OpResumeWalk
| OpPositionUpdate (position : GeoLocation)
| OpPositionError
| OpCheckProximity (landmarks : list WalkLandmark)
| OpExplorePending
| OpSkipPending
| OpMarkVisited (id : string)
| OpCityEffect (activeCity : option string)
| OpStartTourWalk (tour : WalkingTour) (isPreviewMode : bool)
| OpGetNextTourLandmark (landmarks : list WalkLandmark)
| OpEndTourMode
| OpUpgradeTourAccess.

Definition step (op : Op) (s : WalkModeService) : WalkModeService :=
  match op with
  | OpStartWalk => snd (startWalk s)
  | OpStopWalk => stopWalk s
  | OpPauseWalk => pauseWalk s
  | OpResumeWalk => resumeWalk s
  | OpPositionUpdate position => handlePositionUpdate position s
  | OpPositionError => handlePositionError s
  | OpCheckProximity landmarks => snd (checkProximity landmarks s)
  | OpExplorePending => snd (explorePending s)
  | OpSkipPending => skipPending s
  | OpMarkVisited id => markVisited id s
  | OpCityEffect activeCity => cityEffect activeCity s
  | OpStartTourWalk tour isPreviewMode => snd (startTourWalk tour isPreviewMode s)
  | OpGetNextTourLandmark landmarks => snd (getNextTourLandmark landmarks s)
  | OpEndTourMode => endTourMode s
  | OpUpgradeTourAccess => upgradeTourAccess s
  end.

Definition run (ops : list Op) (s : WalkModeService) : WalkModeService :=
  foldl (fun s op => step op s) s ops.

(** The entry points that create or destroy the tour state. *)
Definition tourLifecycle (op : Op) : bool :=
  match op with
  | OpStartTourWalk _ _ | OpEndTourMode | OpCityEffect _ => true
  | _ => false
  end.

(** The landmark an entry point marks as visited, if it marks one. *)
Definition visitedBy (op : Op) (s : WalkModeService) : option string :=
  match op with
  | OpMarkVisited id => Some id
  | OpExplorePending => lm_id ∘ landmark <$> pendingLandmark s
  | _ => None
  end.

(** [tour.landmarkIds[currentIndex]] of the active tour: the stop the tour
    waits for; undefined without a tour or past the last stop. *)
Definition expectedId (s : WalkModeService) : option string :=
  match activeTour s with
  | Some tour => landmarkIds tour !! tourIndex s
  | None => None
  end.

(** The states the service can be in: the initial one and whatever the
    entry points lead to. *)
Inductive reachable : WalkModeService → Prop :=
| reachable_init : reachable initialWalkMode
| reachable_step op s : reachable s → reachable (step op s).

End Engine.

(** ** SessionService *)

Module Session.

(** [SessionData], the value kept under 'ar_session_data'.  The order of the
    two arrays is the iteration order of the sets; only their contents are
    read back. *)
Record SessionData := mkSessionData {
  date : string;
  data_visitedIds : list string;
  data_skippedIds : list string
}.

(** What [localStorage.getItem] gives for the key once [JSON.parse] has run
    on it: a text that does not parse, or session data. *)
Inductive StoredItem : Type :=
| Unparsable
| Parsed (data : SessionData).

Record state := mkState {
  visitedIds : gset string;
  skippedIds : gset string;
  localStorage : option StoredItem
}.

Section Methods.

Variable p : Platform.

Definition saveSession (s : state) : state :=
  if negb (isBrowser p) then s
  else
    let data := {| date := todayKey p;
                   data_visitedIds := elements (visitedIds s);
                   data_skippedIds := elements (skippedIds s) |} in
    {| visitedIds := visitedIds s; skippedIds := skippedIds s;
       localStorage := Some (Parsed data) |}.

Definition resetSession (s : state) : state :=
  saveSession {| visitedIds := ∅; skippedIds := ∅; localStorage := localStorage s |}.

Definition loadSession (s : state) : state :=
  match localStorage s with
  | None => s
  | Some Unparsable => resetSession s
  | Some (Parsed data) =>
      if bool_decide (date data ≠ todayKey p) then resetSession s
      else {| visitedIds := list_to_set (data_visitedIds data);
              skippedIds := list_to_set (data_skippedIds data);
              localStorage := localStorage s |}
  end.

(** The constructor, over what the store holds. *)
Definition create (stored : option StoredItem) : state :=
  let s := {| visitedIds := ∅; skippedIds := ∅; localStorage := stored |} in
  if isBrowser p then loadSession s else s.

Definition markVisited (id : string) (s : state) : state :=
  let s := {| visitedIds := visitedIds s ∪ {[ id ]}; skippedIds := skippedIds s;
              localStorage := localStorage s |} in
  let s := {| visitedIds := visitedIds s; skippedIds := skippedIds s ∖ {[ id ]};
              localStorage := localStorage s |} in
  saveSession s.

Definition markSkipped (id : string) (s : state) : state :=
  let s := {| visitedIds := visitedIds s; skippedIds := skippedIds s ∪ {[ id ]};
              localStorage := localStorage s |} in
  saveSession s.

Definition hasVisited (id : string) (s : state) : bool :=
  bool_decide (id ∈ visitedIds s).

Definition hasSkipped (id : string) (s : state) : bool :=
  bool_decide (id ∈ skippedIds s).

Definition shouldShow (id : string) (s : state) : bool :=
  negb (hasVisited id s) && negb (hasSkipped id s).

(** The mutating entry points of the service. *)
Inductive Op : Type :=
| OpMarkVisited (id : string)
| OpMarkSkipped (id : string)
| OpResetSession.

Definition step (op : Op) (s : state) : state :=
  match op with
  | OpMarkVisited id => markVisited id s
  | OpMarkSkipped id => markSkipped id s
  | OpResetSession => resetSession s
  end.

Definition run (ops : list Op) (s : state) : state :=
  foldl (fun s op => step op s) s ops.

(** A run in which [markSkipped] is only ever called on an id that is not
    in [visitedIds] at that moment. *)
Fixpoint skipsUnvisited (ops : list Op) (s : state) : Prop :=
  match ops with
  | [] => True
  | op :: ops' =>
      match op with
      | OpMarkSkipped id => id ∉ visitedIds s
      | _ => True
      end ∧ skipsUnvisited ops' (step op s)
  end.

End Methods.

End Session.

(** ** WalkingTourService *)

Module TourService.

(** [TourProgress] of walking-tour.model.ts. *)
Record TourProgress := mkTourProgress {
  tourId : string;
  currentLandmarkIndex : nat;
  visitedLandmarkIds : list string;
  startedAt : string;
  completedAt : option string;
  isPreviewMode : bool
}.

Record state := mkState {
  activeTour : option WalkingTour;
  progress : option TourProgress;
  previewLimitReached : bool;
  savedProgress : option TourProgress   (* the value under 'tour_progress' *)
}.

Section Methods.

Variable p : Platform.

Definition saveProgress (s : state) : state :=
  if negb (isBrowser p) then s
  else
    match progress s with
    | Some pr => {| activeTour := activeTour s; progress := progress s;
                    previewLimitReached := previewLimitReached s;
                    savedProgress := Some pr |}
    | None => s
    end.

(** [markLandmarkVisited]: advances only on the expected landmark. *)
Definition markLandmarkVisited (landmarkId : string) (s : state) : state :=
  match activeTour s, progress s with
  | Some tour, Some pr =>
      let expectedId := landmarkIds tour !! currentLandmarkIndex pr in
      if bool_decide (expectedId ≠ Some landmarkId) then s
      else
        let nextIndex := (currentLandmarkIndex pr + 1)%nat in
        let updatedProgress :=
          {| tourId := tourId pr;
             currentLandmarkIndex := nextIndex;
             visitedLandmarkIds := visitedLandmarkIds pr ++ [landmarkId];
             startedAt := startedAt pr;
             completedAt := if (length (landmarkIds tour) <=? nextIndex)%nat
                            then Some (nowISO p) else completedAt pr;
             isPreviewMode := isPreviewMode pr |} in
        saveProgress {| activeTour := activeTour s; progress := Some updatedProgress;
                        previewLimitReached := previewLimitReached s;
                        savedProgress := savedProgress s |}
  | _, _ => s
  end.

(** The index the service is at; 0 when there is no progress. *)
Definition currentIndex (s : state) : nat :=
  match progress s with
  | Some pr => currentLandmarkIndex pr
  | None => 0
  end.

End Methods.

End TourService.

(** ** The application shell around the services

    [App] holds one [WalkModeService] and one [SessionService].  A city change
    is [CityService.setActiveCity] followed by the effect of [WalkModeService];
    [App.onCitySelected] reloads landmarks, the city pack and the landmark of
    the day.  None of them calls a method of [SessionService]. *)
Record App := mkApp {
  walkMode : WalkModeService;
  session : Session.state
}.

(** [Landmark] of landmark.model.ts. *)
Record Landmark := mkLandmark {
  l_id : string;
  l_name : string;
  l_lat : Q;
  l_lng : Q;
  l_tags : list string
}.

Section Shell.

Variable calculateDistance : Q → Q → Q → Q → Q.
Variable p : Platform.

(** The body of the interval started by [App.startProximityChecking]: the
    landmarks the day session still shows go to [checkProximity]. *)
Definition proximityTick (landmarks : list Landmark) (a : App) : App :=
  if negb (isActive (walkMode a)) || isPaused (walkMode a) then a
  else
    let walkLandmarks :=
      List.map (fun l => {| lm_id := l_id l; lm_name := l_name l;
                            lm_latitude := l_lat l; lm_longitude := l_lng l;
                            lm_distance := None; lm_tags := None;
                            lm_matchedInterest := None |})
               (List.filter (fun l => Session.shouldShow (l_id l) (session a)) landmarks) in
    {| walkMode := snd (checkProximity calculateDistance p walkLandmarks (walkMode a));
       session := session a |}.

(** The active city becomes [cityId] and the effect runs. *)
Definition cityChanged (cityId : string) (a : App) : App :=
  {| walkMode := cityEffect p (Some cityId) (walkMode a);
     session := session a |}.

(** [App.onExplorePending], as far as the two services go; opening the
    explanation is left out. *)
Definition onExplorePending (a : App) : App :=
  match explorePending (walkMode a) with
  | (Some pending, w) =>
      {| walkMode := w;
         session := Session.markVisited p (lm_id (landmark pending)) (session a) |}
  | (None, w) => {| walkMode := w; session := session a |}
  end.

(** [App.onSkipPending]. *)
Definition onSkipPending (a : App) : App :=
  let sess := match pendingLandmark (walkMode a) with
              | Some pending => Session.markSkipped p (lm_id (landmark pending)) (session a)
              | None => session a
              end in
  {| walkMode := skipPending (walkMode a); session := sess |}.

(** What happens to the application while it runs: the timer, the two
    buttons of the prompt, and whatever else reaches the walk engine without
    touching the day session (start, stop, pause, resume, fixes, tours, a
    change of city). *)
Inductive AppOp : Type :=
| AppTick (landmarks : list Landmark)
| AppExplorePending
| AppSkipPending
| AppEngine (op : Op).

(** The engine entry points the application itself calls or triggers;
    [checkProximity], [explorePending], [skipPending] and [markVisited] are
    reached only through the timer and the two buttons. *)
Definition calledByApp (op : Op) : bool :=
  match op with
  | OpCheckProximity _ | OpExplorePending | OpSkipPending | OpMarkVisited _ => false
  | _ => true
  end.

Definition appStep (op : AppOp) (a : App) : App :=
  match op with
  | AppTick landmarks => proximityTick landmarks a
  | AppExplorePending => onExplorePending a
  | AppSkipPending => onSkipPending a
  | AppEngine op =>
      if calledByApp op
      then {| walkMode := step calculateDistance p op (walkMode a); session := session a |}
      else a
  end.

Definition appRun (ops : list AppOp) (a : App) : App :=
  foldl (fun a op => appStep op a) a ops.

(** The day session keeps its two sets apart, and a pending landmark is in
    neither of them. *)
Definition appInvariant (a : App) : Prop :=
  Session.visitedIds (session a) ## Session.skippedIds (session a)
  ∧ ∀ c, pendingLandmark (walkMode a) = Some c →
         (lm_id (landmark c) ∉ Session.visitedIds (session a))
         ∧ (lm_id (landmark c) ∉ Session.skippedIds (session a)).

(** The application at launch, nothing stored yet. *)
Definition initialApp : App :=
  {| walkMode := initialWalkMode; session := Session.create p None |}.

End Shell.

(** ** The ordering of the selection, in the words of the specification

    Tier (a): a landmark without cross-session memory goes before one with it.
    Tier (b): when both are within [INTEREST_PRIORITY_RANGE], the higher
    interest score goes first.  Tier (c): otherwise the smaller distance goes
    first.  [threeTierBefore a b] says that [a] may stand before [b]. *)
Definition withinPriorityRange (c : ScoredLandmark) : bool :=
  Qle_bool (distanceOr0 c) INTEREST_PRIORITY_RANGE.

Definition threeTierBefore (a b : ScoredLandmark) : bool :=
  if negb (previouslyVisited a) && previouslyVisited b then true
  else if previouslyVisited a && negb (previouslyVisited b) then false
  else if withinPriorityRange a && withinPriorityRange b
          && negb (interestScore a =? interestScore b)%Z
       then (interestScore b <? interestScore a)%Z
       else Qle_bool (distanceOr0 a) (distanceOr0 b).

(** The distance [getNextLandmark] computes from a fix to a landmark. *)
Definition metersTo (calculateDistance : Q → Q → Q → Q → Q)
  (location : GeoLocation) (l : WalkLandmark) : Q :=
  calculateDistance (latitude location) (longitude location)
                    (lm_latitude l) (lm_longitude l).

(** A distance function for the examples: meters along the axes of a grid. *)
Definition gridDistance (lat1 lon1 lat2 lon2 : Q) : Q :=
  Qabs (lat2 - lat1) + Qabs (lon2 - lon1).

(** ** Concrete data for the examples *)

Definition demoPlatform : Platform :=
  {| isBrowser := true; hasGeolocation := true; newWatchId := 1;
     userInterests := ["history"]; storedMemoryIds := [];
     todayKey := "2025-01-15"; nowISO := "2025-01-15T10:00:00.000Z" |}.

(** A platform without a geolocation capability. *)
Definition noGeoPlatform : Platform :=
  {| isBrowser := true; hasGeolocation := false; newWatchId := 1;
     userInterests := ["history"]; storedMemoryIds := [];
     todayKey := "2025-01-15"; nowISO := "2025-01-15T10:00:00.000Z" |}.

(** A good fix at the origin of the grid, and a poor one. *)
Definition demoFix : GeoLocation :=
  {| latitude := 0; longitude := 0; accuracy := 10; timestamp := 0 |}.

Definition poorFix : GeoLocation :=
  {| latitude := 0; longitude := 0; accuracy := 80; timestamp := 1 |}.

(** A landmark [meters] away from the origin along the first axis. *)
Definition landmarkAt (id : string) (meters : Q) (tags : option (list string)) : WalkLandmark :=
  {| lm_id := id; lm_name := id; lm_latitude := meters; lm_longitude := 0;
     lm_distance := None; lm_tags := tags; lm_matchedInterest := None |}.

(** Walk mode started on [demoPlatform], first fix received. *)
Definition walking : WalkModeService :=
  handlePositionUpdate demoFix (snd (startWalk demoPlatform initialWalkMode)).

Definition demoTour : WalkingTour :=
  {| tour_id := "downtown"; tour_cityId := "dallas";
     landmarkIds := ["a"; "b"; "c"]; isPremium := true;
     previewLandmarkCount := 2 |}.

(** A walk on [demoPlatform] up to the moment a landmark 20 m away is
    pending. *)
Definition untilPending : list Op :=
  [OpStartWalk; OpPositionUpdate demoFix; OpCheckProximity [landmarkAt "L" 20 None]].

(** An application in Dallas: a walk under way, landmark "a" explored today. *)
Definition demoApp : App :=
  {| walkMode := markVisited "a" walking;
     session := Session.markVisited demoPlatform "a" (Session.create demoPlatform None) |}.

(** ** WalkModeService: the queries *)

(** [hasVisited] and [getVisitedCount] of the walk engine. *)
Definition hasVisited (id : string) (s : WalkModeService) : bool :=
  bool_decide (id ∈ visitedIds s).

Definition getVisitedCount (s : WalkModeService) : nat :=
  size (visitedIds s).

(** [getDistanceTo]: null without a location. *)
Definition getDistanceTo (calculateDistance : Q → Q → Q → Q → Q)
  (l : WalkLandmark) (s : WalkModeService) : option Q :=
  match currentLocation s with
  | None => None
  | Some location =>
      Some (calculateDistance (latitude location) (longitude location)
                              (lm_latitude l) (lm_longitude l))
  end.

(** [isTourComplete], [getTourProgress] and [isInTourMode]. *)
Definition isTourComplete (s : WalkModeService) : bool :=
  match activeTour s with
  | None => false
  | Some tour => (length (landmarkIds tour) <=? tourIndex s)%nat
  end.

Definition getTourProgress (s : WalkModeService) : option (nat * nat) :=
  match activeTour s with
  | None => None
  | Some tour => Some (tourIndex s, length (landmarkIds tour))
  end.

Definition isInTourMode (s : WalkModeService) : bool :=
  bool_decide (activeTour s ≠ None).

(** Visiting landmarks one after the other, first to last. *)
Definition visitAll (ids : list string) (s : WalkModeService) : WalkModeService :=
  foldl (fun s id => markVisited id s) s ids.

(** A demo tour under way in preview mode, with a fix. *)
Definition touringPreview : WalkModeService :=
  handlePositionUpdate demoFix (snd (startTourWalk demoPlatform demoTour true initialWalkMode)).

(** The index is at most the number of stops of the active tour, and 0
    without a tour. *)
Definition tourIndexInRange (s : WalkModeService) : Prop :=
  match activeTour s with
  | Some tour => (tourIndex s <= length (landmarkIds tour))%nat
  | None => tourIndex s = 0%nat
  end.

(** The full-access condition: the preview limit is the number of stops and
    the flag is down. *)
Definition fullAccess (s : WalkModeService) : Prop :=
  tourPreviewLimitReached s = false
  ∧ ∀ tour, activeTour s = Some tour →
            tourPreviewLimit s = Z.of_nat (length (landmarkIds tour)).

(** ** WalkingTourService: starting, offering, ending, access *)

Module TourProgression.

(** [Array.prototype.indexOf] on strings: the first position of [x], or -1. *)
Fixpoint indexOf (l : list string) (x : string) : Z :=
  match l with
  | [] => (-1)%Z
  | y :: l' =>
      if bool_decide (y = x) then 0%Z
      else let i := indexOf l' x in if (i <? 0)%Z then (-1)%Z else (i + 1)%Z
  end.

Section Methods.

Variable p : Platform.

(** [subscriptionService.isPremium()]. *)
Variable userIsPremium : bool.

(** The service as constructed with nothing stored. *)
Definition initial : TourService.state :=
  {| TourService.activeTour := None; TourService.progress := None;
     TourService.previewLimitReached := false; TourService.savedProgress := None |}.

(** [startTour]: a premium tour is a preview for a free user. *)
Definition startTour (tour : WalkingTour) (s : TourService.state)
  : bool * TourService.state :=
  let reached := if isPremium tour && negb userIsPremium
                 then false else TourService.previewLimitReached s in
  let progress :=
    {| TourService.tourId := tour_id tour;
       TourService.currentLandmarkIndex := 0;
       TourService.visitedLandmarkIds := [];
       TourService.startedAt := nowISO p;
       TourService.completedAt := None;
       TourService.isPreviewMode := isPremium tour && negb userIsPremium |} in
  (true,
   TourService.saveProgress p
     {| TourService.activeTour := Some tour; TourService.progress := Some progress;
        TourService.previewLimitReached := reached;
        TourService.savedProgress := TourService.savedProgress s |}).

(** [getNextLandmark] of the tour service: the id and the index of the next
    stop.  The lookup is made below the length of the list, where it is
    defined. *)
Definition getNextLandmark (s : TourService.state)
  : option (string * nat) * TourService.state :=
  match TourService.activeTour s, TourService.progress s with
  | Some tour, Some pr =>
      let nextIndex := TourService.currentLandmarkIndex pr in
      if (length (landmarkIds tour) <=? nextIndex)%nat then (None, s)
      else if TourService.isPreviewMode pr
              && (previewLandmarkCount tour <=? Z.of_nat nextIndex)%Z
      then (None,
            {| TourService.activeTour := TourService.activeTour s;
               TourService.progress := TourService.progress s;
               TourService.previewLimitReached := true;
               TourService.savedProgress := TourService.savedProgress s |})
      else
        match landmarkIds tour !! nextIndex with
        | Some landmarkId => (Some (landmarkId, nextIndex), s)
        | None => (None, s)
        end
  | _, _ => (None, s)
  end.

Definition isLandmarkInTour (landmarkId : string) (s : TourService.state) : bool :=
  match TourService.activeTour s with
  | Some tour => includes (landmarkIds tour) landmarkId
  | None => false
  end.

(** [getLandmarkOrder]: the 1-based place of the landmark in the tour, or 0. *)
Definition getLandmarkOrder (landmarkId : string) (s : TourService.state) : Z :=
  match TourService.activeTour s with
  | None => 0%Z
  | Some tour =>
      let index := indexOf (landmarkIds tour) landmarkId in
      if (0 <=? index)%Z then (index + 1)%Z else 0%Z
  end.

Definition isTourComplete (s : TourService.state) : bool :=
  match TourService.activeTour s, TourService.progress s with
  | Some tour, Some pr =>
      (length (landmarkIds tour) <=? TourService.currentLandmarkIndex pr)%nat
  | _, _ => false
  end.

(** [endTour], with [clearProgress]. *)
Definition endTour (s : TourService.state) : TourService.state :=
  {| TourService.activeTour := None; TourService.progress := None;
     TourService.previewLimitReached := false;
     TourService.savedProgress :=
       if negb (isBrowser p) then TourService.savedProgress s else None |}.

Definition canAccessFullTour (tour : WalkingTour) : bool :=
  if negb (isPremium tour) then true else userIsPremium.

Definition getAccessibleLandmarkCount (tour : WalkingTour) : Z :=
  if canAccessFullTour tour then Z.of_nat (length (landmarkIds tour))
  else previewLandmarkCount tour.

(** [upgradeTourAccess] of the tour service. *)
Definition upgradeTourAccess (s : TourService.state) : TourService.state :=
  match TourService.progress s with
  | Some pr =>
      if negb (TourService.isPreviewMode pr) then s
      else
        TourService.saveProgress p
          {| TourService.activeTour := TourService.activeTour s;
             TourService.progress :=
               Some {| TourService.tourId := TourService.tourId pr;
                       TourService.currentLandmarkIndex := TourService.currentLandmarkIndex pr;
                       TourService.visitedLandmarkIds := TourService.visitedLandmarkIds pr;
                       TourService.startedAt := TourService.startedAt pr;
                       TourService.completedAt := TourService.completedAt pr;
                       TourService.isPreviewMode := false |};
             TourService.previewLimitReached := false;
             TourService.savedProgress := TourService.savedProgress s |}
  | None => s
  end.

(** What a screen does with a tour under way. *)
Inductive Op : Type :=
| OpGetNextLandmark
| OpMarkLandmarkVisited (landmarkId : string)
| OpUpgradeTourAccess.

Definition step (op : Op) (s : TourService.state) : TourService.state :=
  match op with
  | OpGetNextLandmark => snd (getNextLandmark s)
  | OpMarkLandmarkVisited landmarkId => TourService.markLandmarkVisited p landmarkId s
  | OpUpgradeTourAccess => upgradeTourAccess s
  end.

Definition run (ops : list Op) (s : TourService.state) : TourService.state :=
  foldl (fun s op => step op s) s ops.

(** The progress is that of [tour]: the visited list is the first
    [currentLandmarkIndex] stops, the index is within the tour, and the tour is
    stamped complete exactly when its last stop has been visited. *)
Definition progressOf (tour : WalkingTour) (s : TourService.state) : Prop :=
  TourService.activeTour s = Some tour
  ∧ ∃ pr, TourService.progress s = Some pr
      ∧ TourService.tourId pr = tour_id tour
      ∧ (TourService.currentLandmarkIndex pr <= length (landmarkIds tour))%nat
      ∧ TourService.visitedLandmarkIds pr
        = take (TourService.currentLandmarkIndex pr) (landmarkIds tour)
      ∧ (is_Some (TourService.completedAt pr)
         ↔ TourService.currentLandmarkIndex pr = length (landmarkIds tour)
           ∧ (0 < length (landmarkIds tour))%nat).

(** A tour under way outside preview, with the preview-limit flag at
    [flag]. *)
Definition outsidePreview (flag : bool) (s : TourService.state) : Prop :=
  TourService.previewLimitReached s = flag
  ∧ ∃ tour pr, TourService.activeTour s = Some tour ∧ TourService.progress s = Some pr
      ∧ TourService.isPreviewMode pr = false.

End Methods.

End TourProgression.

(** The demo tour started by a free user (a preview) and by a premium user. *)
Definition previewTourState : TourService.state :=
  snd (TourProgression.startTour demoPlatform false demoTour TourProgression.initial).

Definition premiumTourState : TourService.state :=
  snd (TourProgression.startTour demoPlatform true demoTour TourProgression.initial).

(** ** InterestService *)

Module Interest.

(** What is found under 'user_interests': nothing readable as a non-empty
    text, a text that does not parse, a JSON value that is not an array, or an
    array of strings. *)
Inductive Stored : Type :=
| EmptyText
| Unparsable
| NotArray
| Array (l : list string).

Record state := mkState {
  interests : list string;
  localStorage : option Stored
}.

Definition DEMO_INTERESTS : list string := ["history"; "architecture"; "food"; "hidden"].
Definition DEFAULT_INTERESTS : list string := ["history"].

(** The literal array in [setInterests]. *)
Definition VALID_INTERESTS : list string := ["history"; "architecture"; "food"; "hidden"].

Section Methods.

Variable p : Platform.

(** [environment.demoMode]. *)
Variable demoMode : bool.

Definition loadInterests (s : state) : state :=
  match localStorage s with
  | Some (Array (x :: l)) => {| interests := x :: l; localStorage := localStorage s |}
  | _ => s
  end.

(** The field initialiser and the constructor. *)
Definition create (stored : option Stored) : state :=
  let s := {| interests := if demoMode then DEMO_INTERESTS else DEFAULT_INTERESTS;
              localStorage := stored |} in
  if demoMode then s
  else if isBrowser p then loadInterests s else s.

Definition getInterests (s : state) : list string := interests s.

Definition setInterests (input : list string) (s : state) : state :=
  let valid := List.filter (fun i => includes VALID_INTERESTS i) input in
  let toSave := if (0 <? length valid)%nat then valid else DEFAULT_INTERESTS in
  {| interests := toSave;
     localStorage := if isBrowser p then Some (Array toSave) else localStorage s |}.

Definition hasInterest (interest : string) (s : state) : bool :=
  includes (interests s) interest.

Definition addInterest (interest : string) (s : state) : state :=
  let current := interests s in
  if negb (includes current interest) then setInterests (current ++ [interest]) s
  else s.

Definition removeInterest (interest : string) (s : state) : state :=
  let current := interests s in
  let filtered := List.filter (fun i => bool_decide (i ≠ interest)) current in
  setInterests filtered s.

Definition toggleInterest (interest : string) (s : state) : state :=
  if hasInterest interest s then removeInterest interest s
  else addInterest interest s.

Definition hasCompletedOnboarding (s : state) : bool :=
  if demoMode then true
  else if negb (isBrowser p) then false
  else bool_decide (localStorage s ≠ None).

(** [this._interests()[0] || 'history']: the empty string counts as missing. *)
Definition getPrimaryInterest (s : state) : string :=
  match head (interests s) with
  | Some i => if bool_decide (i = "") then "history" else i
  | None => "history"
  end.

Inductive Op : Type :=
| OpSetInterests (input : list string)
| OpAddInterest (interest : string)
| OpRemoveInterest (interest : string)
| OpToggleInterest (interest : string).

Definition step (op : Op) (s : state) : state :=
  match op with
  | OpSetInterests input => setInterests input s
  | OpAddInterest interest => addInterest interest s
  | OpRemoveInterest interest => removeInterest interest s
  | OpToggleInterest interest => toggleInterest interest s
  end.

Definition run (ops : list Op) (s : state) : state :=
  foldl (fun s op => step op s) s ops.

End Methods.

(** At least one interest, and only interests the application knows. *)
Definition wellFormed (s : state) : Prop :=
  interests s ≠ [] ∧ ∀ i, i ∈ interests s → i ∈ VALID_INTERESTS.

End Interest.

(** ** AiMemoryService *)

Module Memory.

(** [AIMemory] of ai-memory.model.ts. *)
Record AIMemory := mkAIMemory {
  landmarkId : string;
  landmarkName : string;
  lastViewedAt : string;
  viewCount : Z;
  summary : string;
  interestContext : list string;
  isFollowUp : option bool
}.

(** What is found under 'ai_memories': an empty text, a text that does not
    parse, or the array of memories. *)
Inductive Stored : Type :=
| EmptyText
| Unparsable
| Parsed (memories : list AIMemory).

(** The service keeps no state of its own; this is the store entry. *)
Definition store := option Stored.

Definition MAX_MEMORIES : nat := 100.

(** [Array.prototype.findIndex], with [None] for -1. *)
Fixpoint findIndex {A : Type} (f : A → bool) (l : list A) : option nat :=
  match l with
  | [] => None
  | x :: l' => if f x then Some 0%nat else S <$> findIndex f l'
  end.

Section Methods.

Variable p : Platform.

(** [new Date(text).getTime()], for the timestamps the service writes. *)
Variable getTime : string → Z.

Definition getAllMemories (st : store) : list AIMemory :=
  if negb (isBrowser p) then []
  else
    match st with
    | Some (Parsed memories) => memories
    | _ => []
    end.

Definition hasMemory (id : string) (st : store) : bool :=
  existsb (fun m => bool_decide (landmarkId m = id)) (getAllMemories st).

Definition getMemory (id : string) (st : store) : option AIMemory :=
  List.find (fun m => bool_decide (landmarkId m = id)) (getAllMemories st).

Definition getVisitedLandmarkIds (st : store) : list string :=
  List.map landmarkId (getAllMemories st).

Definition getMemoryCount (st : store) : nat := length (getAllMemories st).

(** [x.viewCount || 1]. *)
Definition viewCountOr1 (m : AIMemory) : Z :=
  if (viewCount m =? 0)%Z then 1%Z else viewCount m.

(** The spread [{...memory, viewCount, isFollowUp}]. *)
Definition withCount (memory : AIMemory) (count : Z) (followUp : bool) : AIMemory :=
  {| landmarkId := landmarkId memory; landmarkName := landmarkName memory;
     lastViewedAt := lastViewedAt memory; viewCount := count;
     summary := summary memory; interestContext := interestContext memory;
     isFollowUp := Some followUp |}.

(** The first half of [saveMemory]: the array with the entry of the landmark
    replaced in place, or pushed. *)
Definition merged (memory : AIMemory) (memories : list AIMemory) : list AIMemory :=
  match findIndex (fun m => bool_decide (landmarkId m = landmarkId memory)) memories with
  | Some existingIndex =>
      match memories !! existingIndex with
      | Some existing =>
          <[existingIndex := withCount memory (viewCountOr1 existing + 1) true]> memories
      | None => memories
      end
  | None => memories ++ [withCount memory 1 false]
  end.

(** The array [saveMemory] writes: the entry of the landmark is replaced in
    place or a new one is pushed, then the most recent [MAX_MEMORIES] are
    kept when there are more. *)
Definition savedMemories (memory : AIMemory) (memories : list AIMemory) : list AIMemory :=
  let memories :=
    match findIndex (fun m => bool_decide (landmarkId m = landmarkId memory)) memories with
    | Some existingIndex =>
        match memories !! existingIndex with
        | Some existing =>
            <[existingIndex := withCount memory (viewCountOr1 existing + 1) true]> memories
        | None => memories
        end
    | None => memories ++ [withCount memory 1 false]
    end in
  if (MAX_MEMORIES <? length memories)%nat
  then take MAX_MEMORIES
         (sort (fun a b => inject_Z (getTime (lastViewedAt b) - getTime (lastViewedAt a)))
               memories)
  else memories.

Definition saveMemory (memory : AIMemory) (st : store) : store :=
  if negb (isBrowser p) then st
  else Some (Parsed (savedMemories memory (getAllMemories st))).

Definition clearAllMemories (st : store) : store :=
  if negb (isBrowser p) then st else None.

Definition clearMemory (id : string) (st : store) : store :=
  if negb (isBrowser p) then st
  else Some (Parsed (List.filter (fun m => bool_decide (landmarkId m ≠ id))
                                 (getAllMemories st))).

End Methods.

End Memory.

(** A memory of a first explanation, and a stand-in clock for the examples:
    the length of the timestamp text. *)
Definition demoMemory : Memory.AIMemory :=
  {| Memory.landmarkId := "reunion-tower"; Memory.landmarkName := "Reunion Tower";
     Memory.lastViewedAt := "2025-01-15T10:00:00.000Z"; Memory.viewCount := 1;
     Memory.summary := "A 561-foot observation tower";
     Memory.interestContext := ["history"]; Memory.isFollowUp := None |}.

Definition demoGetTime (text : string) : Z := Z.of_nat (String.length text).

(** ** CityService *)

Module Cities.

(** [City] of city.model.ts, without its optional display fields. *)
Record City := mkCity {
  id : string;
  name : string;
  country : string;
  centerLat : Q;
  centerLng : Q;
  isAvailable : bool;
  isPremium : bool
}.

Record state := mkState {
  cities : list City;
  activeCityId : string;
  isLoaded : bool;
  persistedCity : option string      (* the text under 'ar_city_explorer_active_city' *)
}.

Definition DEFAULT_CITY_ID : string := "dallas".

(** The single city [loadCities] falls back to. *)
Definition fallbackDallas : City :=
  {| id := "dallas"; name := "Dallas"; country := "USA";
     centerLat := 327767 # 10000; centerLng := - (967970 # 10000);
     isAvailable := true; isPremium := false |}.

Section Methods.

(** [localStorage] is reachable exactly in a browser; elsewhere the calls
    throw and the service swallows the error. *)
Variable p : Platform.

(** [environment.demoMode]. *)
Variable demoMode : bool.

Definition getCityById (cityId : string) (s : state) : option City :=
  List.find (fun c => bool_decide (id c = cityId)) (cities s).

(** The computed signal [activeCity]. *)
Definition activeCity (s : state) : option City :=
  List.find (fun c => bool_decide (id c = activeCityId s)) (cities s).

Definition availableCities (s : state) : list City :=
  List.filter (fun c => isAvailable c) (cities s).

Definition comingSoonCities (s : state) : list City :=
  List.filter (fun c => negb (isAvailable c)) (cities s).

Definition loadPersistedCity (s : state) : state :=
  if negb (isBrowser p) then s
  else
    match persistedCity s with
    | Some stored =>
        if bool_decide (stored ≠ "")
        then {| cities := cities s; activeCityId := stored; isLoaded := isLoaded s;
                persistedCity := persistedCity s |}
        else s
    | None => s
    end.

Definition create (stored : option string) : state :=
  let s := {| cities := []; activeCityId := DEFAULT_CITY_ID; isLoaded := false;
              persistedCity := stored |} in
  if negb demoMode then loadPersistedCity s else s.

Definition persistActiveCity (cityId : string) (s : state) : state :=
  if negb (isBrowser p) then s
  else {| cities := cities s; activeCityId := activeCityId s; isLoaded := isLoaded s;
          persistedCity := Some cityId |}.

(** [setActiveCity]: refused in demo mode for any city but Dallas, for an
    unknown city and for a city that is not available. *)
Definition setActiveCity (cityId : string) (s : state) : bool * state :=
  if demoMode && bool_decide (cityId ≠ "dallas") then (false, s)
  else
    match getCityById cityId s with
    | None => (false, s)
    | Some city =>
        if negb (isAvailable city) then (false, s)
        else
          let s := {| cities := cities s; activeCityId := cityId; isLoaded := isLoaded s;
                      persistedCity := persistedCity s |} in
          (true, if negb demoMode then persistActiveCity cityId s else s)
    end.

(** [canSelectCity]: the verdict and its reason. *)
Definition canSelectCity (cityId : string) (isPremiumUser : bool) (s : state)
  : bool * option string :=
  match getCityById cityId s with
  | None => (false, Some "City not found")
  | Some city =>
      if negb (isAvailable city) then (false, Some "Coming soon")
      else if isPremium city && negb isPremiumUser then (false, Some "Premium required")
      else (true, None)
  end.

(** [loadCities], over the outcome of the request: the list of the response,
    or a failure.  On success the active city is checked and, when unknown or
    unavailable, replaced by the first available city. *)
Definition loadCities (response : option (list City)) (s : state) : state :=
  if isLoaded s then s
  else
    match response with
    | Some loaded =>
        let s := {| cities := loaded; activeCityId := activeCityId s; isLoaded := true;
                    persistedCity := persistedCity s |} in
        let activeOk := match List.find (fun c => bool_decide (id c = activeCityId s)) loaded with
                        | Some c => isAvailable c
                        | None => false
                        end in
        if negb activeOk then
          match List.find (fun c => isAvailable c) loaded with
          | Some defaultCity => snd (setActiveCity (id defaultCity) s)
          | None => s
          end
        else s
    | None =>
        {| cities := [fallbackDallas]; activeCityId := activeCityId s; isLoaded := true;
           persistedCity := persistedCity s |}
    end.

(** What a tap on a city card leads to. *)
Record Selection := mkSelection {
  citySelected : bool;       (* the [citySelected] event was emitted *)
  showPaywall : bool         (* the [showPaywall] event was emitted *)
}.

(** [CitySelectionComponent.selectCity], together with the walk engine: when
    the city service has accepted the city, the effect of the walk engine
    runs on the new active city. *)
Definition selectCity (city : City) (isPremiumUser : bool) (sw : state * WalkModeService)
  : Selection * (state * WalkModeService) :=
  let '(s, walk) := sw in
  let '(allowed, reason) := canSelectCity (id city) isPremiumUser s in
  if negb allowed then
    ({| citySelected := false;
        showPaywall := bool_decide (reason = Some "Premium required") |}, (s, walk))
  else
    let '(success, s') := setActiveCity (id city) s in
    if success
    then ({| citySelected := true; showPaywall := false |},
          (s', cityEffect p (id <$> activeCity s') walk))
    else ({| citySelected := false; showPaywall := false |}, (s', walk)).

End Methods.

End Cities.

(** Two cities: Dallas available, Austin announced. *)
Definition demoCities : list Cities.City :=
  [Cities.fallbackDallas;
   {| Cities.id := "austin"; Cities.name := "Austin"; Cities.country := "USA";
      Cities.centerLat := 302672 # 10000; Cities.centerLng := - (977431 # 10000);
      Cities.isAvailable := false; Cities.isPremium := true |}].

(** ** PaywallTriggerService (app.ts) *)

Module Paywall.

Inductive PaywallTriggerReason : Type :=
| daily_limit
| tour_preview_complete
| high_engagement
| ar_session_extended
| manual.

Record EngagementState := mkEngagementState {
  explanationsViewed : Z;
  tourPreviewsCompleted : Z;
  arSessionMinutes : Q;
  lastPaywallShown : option string
}.

(** What is found under 'paywall_engagement_state': an empty text, a text that
    does not parse, or an engagement state. *)
Inductive Stored : Type :=
| EmptyText
| Unparsable
| Parsed (e : EngagementState).

Record state := mkState {
  engagement : EngagementState;
  lastTriggerReason : option PaywallTriggerReason;
  localStorage : option Stored
}.

Definition PAYWALL_COOLDOWN_MS : Z := 5 * 60 * 1000.

Section Methods.

Variable p : Platform.

(** [new Date(text).getTime()]; [None] stands for NaN. *)
Variable getTime : string → option Z.

(** [new Date(ms).toISOString()]. *)
Variable toISOString : Z → string.

Definition saveEngagement (s : state) : state :=
  if negb (isBrowser p) then s
  else {| engagement := engagement s; lastTriggerReason := lastTriggerReason s;
          localStorage := Some (Parsed (engagement s)) |}.

Definition loadEngagement (s : state) : state :=
  if negb (isBrowser p) then s
  else
    match localStorage s with
    | Some (Parsed e) =>
        {| engagement := e; lastTriggerReason := lastTriggerReason s;
           localStorage := localStorage s |}
    | Some EmptyText | Some Unparsable | None => s
    end.

(** The field initialisers followed by the constructor. *)
Definition create (stored : option Stored) : state :=
  loadEngagement
    {| engagement := {| explanationsViewed := 0; tourPreviewsCompleted := 0;
                        arSessionMinutes := 0; lastPaywallShown := None |};
       lastTriggerReason := None;
       localStorage := stored |}.

Definition set_engagement (e : EngagementState) (s : state) : state :=
  {| engagement := e; lastTriggerReason := lastTriggerReason s;
     localStorage := localStorage s |}.

Definition trackExplanationView (s : state) : state :=
  let current := engagement s in
  saveEngagement
    (set_engagement
       {| explanationsViewed := explanationsViewed current + 1;
          tourPreviewsCompleted := tourPreviewsCompleted current;
          arSessionMinutes := arSessionMinutes current;
          lastPaywallShown := lastPaywallShown current |} s).

Definition trackTourPreviewComplete (s : state) : state :=
  let current := engagement s in
  saveEngagement
    (set_engagement
       {| explanationsViewed := explanationsViewed current;
          tourPreviewsCompleted := tourPreviewsCompleted current + 1;
          arSessionMinutes := arSessionMinutes current;
          lastPaywallShown := lastPaywallShown current |} s).

Definition trackARSessionTime (minutes : Q) (s : state) : state :=
  let current := engagement s in
  saveEngagement
    (set_engagement
       {| explanationsViewed := explanationsViewed current;
          tourPreviewsCompleted := tourPreviewsCompleted current;
          arSessionMinutes := arSessionMinutes current + minutes;
          lastPaywallShown := lastPaywallShown current |} s).

(** [isOnCooldown], at the time [now] of [Date.now()].  A stored text that is
    no date gives NaN, and a comparison with NaN is false. *)
Definition isOnCooldown (now : Z) (s : state) : bool :=
  match lastPaywallShown (engagement s) with
  | None => false
  | Some lastShown =>
      if bool_decide (lastShown = "") then false
      else
        match getTime lastShown with
        | Some lastShownTime => bool_decide (now - lastShownTime < PAYWALL_COOLDOWN_MS)%Z
        | None => false
        end
  end.

Definition shouldShowPaywall (hitDailyLimit : bool) (now : Z) (s : state)
  : option PaywallTriggerReason :=
  if isOnCooldown now s then None
  else
    let state := engagement s in
    if bool_decide (tourPreviewsCompleted state >= 1)%Z then Some tour_preview_complete
    else if bool_decide (explanationsViewed state >= 2)%Z then Some high_engagement
    else if Qle_bool 3 (arSessionMinutes state) then Some ar_session_extended
    else if hitDailyLimit && bool_decide (explanationsViewed state >= 1)%Z
    then Some daily_limit
    else None.

Definition isOptimalTrigger (reason : PaywallTriggerReason) : bool :=
  match reason with
  | tour_preview_complete | high_engagement => true
  | _ => false
  end.

(** [recordPaywallShown], at the time [now] of [new Date()]. *)
Definition recordPaywallShown (reason : PaywallTriggerReason) (now : Z) (s : state) : state :=
  let s := {| engagement := engagement s; lastTriggerReason := Some reason;
              localStorage := localStorage s |} in
  let current := engagement s in
  saveEngagement
    (set_engagement
       {| explanationsViewed := explanationsViewed current;
          tourPreviewsCompleted := tourPreviewsCompleted current;
          arSessionMinutes := arSessionMinutes current;
          lastPaywallShown := Some (toISOString now) |} s).

Definition resetSessionEngagement (s : state) : state :=
  saveEngagement
    (set_engagement
       {| explanationsViewed := 0;
          tourPreviewsCompleted := 0;
          arSessionMinutes := 0;
          lastPaywallShown := lastPaywallShown (engagement s) |} s).

(** The calls that record engagement or start a new session. *)
Inductive Op : Type :=
| TrackExplanationView
| TrackTourPreviewComplete
| TrackARSessionTime (minutes : Q)
| ResetSessionEngagement.

Definition step (s : state) (o : Op) : state :=
  match o with
  | TrackExplanationView => trackExplanationView s
  | TrackTourPreviewComplete => trackTourPreviewComplete s
  | TrackARSessionTime minutes => trackARSessionTime minutes s
  | ResetSessionEngagement => resetSessionEngagement s
  end.

Definition run (ops : list Op) (s : state) : state := foldl step s ops.

End Methods.

End Paywall.

(** A clock for the examples: one instant and its ISO text. *)
Definition demoInstant : Z := 1767225600000.
Definition demoToISOString (ms : Z) : string := "2026-01-01T00:00:00.000Z".
Definition demoParseTime (text : string) : option Z :=
  if bool_decide (text = "2026-01-01T00:00:00.000Z") then Some demoInstant else None.

(** ** LandmarkService.getNearbyLandmarks and the landmark list *)

Module LandmarkList.

(** [LandmarkWithDistance] of landmark.model.ts: a landmark with two optional
    fields. *)
Record LandmarkWithDistance := mkLandmarkWithDistance {
  landmark : Landmark;
  distance : option Q;
  formattedDistance : option string
}.

Section Methods.

(** [LandmarkService.calculateDistance], the Haversine formula. *)
Variable calculateDistance : Q → Q → Q → Q → Q.

(** [LandmarkService.formatDistance]; the text plays no part in the order. *)
Variable formatDistance : Q → string.

Variable p : Platform.

(** [x.distance || 0]. *)
Definition distanceOr0 (x : LandmarkWithDistance) : Q :=
  match distance x with
  | Some d => if Qeq_bool d 0 then 0 else d
  | None => 0
  end.

(** The entry [getNearbyLandmarks] makes of a landmark. *)
Definition measured (userLat userLng : Q) (landmark : Landmark) : LandmarkWithDistance :=
  let distance := calculateDistance userLat userLng (l_lat landmark) (l_lng landmark) in
  {| landmark := landmark;
     distance := Some distance;
     formattedDistance := Some (formatDistance distance) |}.

(** [LandmarkService.getNearbyLandmarks]; [maxDistanceMeters] is optional, and
    the test [if (maxDistanceMeters)] also fails for 0. *)
Definition getNearbyLandmarks (userLat userLng : Q) (maxDistanceMeters : option Q)
    (landmarks : list Landmark) : list LandmarkWithDistance :=
  let landmarksWithDistance := List.map (measured userLat userLng) landmarks in
  let sorted := sort (fun a b => distanceOr0 a - distanceOr0 b) landmarksWithDistance in
  match maxDistanceMeters with
  | Some maxDistance =>
      if negb (Qeq_bool maxDistance 0) then
        List.filter (fun l => match distance l with
                              | Some d => Qle_bool d maxDistance
                              | None => false
                              end) sorted
      else sorted
  | None => sorted
  end.

(** The number of tags of a landmark that are user interests. *)
Definition interestScore (x : LandmarkWithDistance) : Z :=
  Z.of_nat (length (List.filter (fun t => includes (userInterests p) t)
                                (l_tags (landmark x)))).

(** The comparison function of [LandmarkListComponent.prioritizeByInterests]. *)
Definition compareByInterest (a b : LandmarkWithDistance) : Q :=
  let aScore := interestScore a in
  let bScore := interestScore b in
  if bool_decide (bScore ≠ aScore) then inject_Z (bScore - aScore)
  else
    match distance a, distance b with
    | Some da, Some db => da - db
    | _, _ => 0
    end.

Definition prioritizeByInterests (landmarks : list LandmarkWithDistance)
  : list LandmarkWithDistance :=
  sort compareByInterest landmarks.

(** [LandmarkListComponent.loadLandmarks] when the position arrives: the list
    the component shows. *)
Definition loadWithLocation (latitude longitude : Q) (all : list Landmark)
  : list LandmarkWithDistance :=
  let sorted := getNearbyLandmarks latitude longitude None all in
  prioritizeByInterests sorted.

(** The entry [loadWithoutLocation] makes of a landmark. *)
Definition unmeasured (l : Landmark) : LandmarkWithDistance :=
  {| landmark := l; distance := None; formattedDistance := None |}.

(** [LandmarkListComponent.loadWithoutLocation]. *)
Definition loadWithoutLocation (all : list Landmark) : list LandmarkWithDistance :=
  let withDistance := List.map unmeasured all in
  prioritizeByInterests withDistance.

(** [a] may stand before [b] in the list with distances. *)
Definition nearerFirst (a b : LandmarkWithDistance) : Prop :=
  ∃ da db, distance a = Some da ∧ distance b = Some db ∧ da <= db.

(** [a] may stand before [b] in the prioritised list. *)
Definition higherPriority (a b : LandmarkWithDistance) : Prop :=
  (interestScore b < interestScore a)%Z
  ∨ (interestScore a = interestScore b
     ∧ ∀ da db, distance a = Some da → distance b = Some db → da <= db).

End Methods.

End LandmarkList.

(** * Properties *)

(** ** Sorting with a comparison function that is a total preorder *)

Lemma Qle_bool_inject_Z (z : Z) : Qle_bool (inject_Z z) 0 = (z <=? 0)%Z.
Proof.
  unfold Qle_bool, inject_Z; simpl. now rewrite Z.mul_1_r.
Qed.

Lemma Qle_bool_minus (a b : Q) : Qle_bool (a - b) 0 = Qle_bool a b.
Proof.
  destruct (Qle_bool a b) eqn:E.
  - apply Qle_bool_iff in E. apply Qle_bool_iff. lra.
  - destruct (Qle_bool (a - b) 0) eqn:E'; [|reflexivity].
    apply Qle_bool_iff in E'.
    assert (H : a <= b) by lra.
    apply Qle_bool_iff in H. congruence.
Qed.

Section SortFacts.

Context {A : Type} (cmp : A → A → Q).

Let before (a b : A) : Prop := Qle_bool (cmp a b) 0 = true.

Hypothesis before_total : ∀ a b, before a b ∨ before b a.
Hypothesis before_trans : ∀ a b c, before a b → before b c → before a c.

Lemma head_insertBy (x : A) (l : list A) :
  head (insertBy cmp x l) =
    match head l with
    | Some y => if Qle_bool (cmp x y) 0 then Some x else Some y
    | None => Some x
    end.
Proof.
  destruct l as [|y l']; simpl; [reflexivity|].
  destruct (Qle_bool (cmp x y) 0); reflexivity.
Qed.

Lemma head_sort_nil (l : list A) : head (sort cmp l) = None → l = [].
Proof.
  destruct l as [|x l]; [reflexivity|].
  unfold sort; simpl. rewrite head_insertBy.
  destruct (head _); [destruct (Qle_bool _ _)|]; discriminate.
Qed.

Lemma head_sort_minimum (l : list A) (m : A) :
  head (sort cmp l) = Some m → m ∈ l ∧ ∀ c, c ∈ l → before m c.
Proof.
  revert m. induction l as [|x l IH]; intros m; [discriminate|].
  change (sort cmp (x :: l)) with (insertBy cmp x (sort cmp l)).
  rewrite head_insertBy.
  destruct (head (sort cmp l)) as [y|] eqn:Hy.
  - destruct (IH y eq_refl) as [Hin Hmin].
    destruct (Qle_bool (cmp x y) 0) eqn:Hxy; intros [= <-].
    + split; [left|]. intros c [->|Hc]%elem_of_cons.
      * destruct (before_total x x); assumption.
      * apply before_trans with y; [exact Hxy | auto].
    + split; [now right|]. intros c [->|Hc]%elem_of_cons; [|auto].
      destruct (before_total y x) as [H|H]; [exact H|].
      unfold before in H. congruence.
  - intros [= <-]. apply head_sort_nil in Hy as ->.
    split; [left|]. intros c ->%list_elem_of_singleton.
    destruct (before_total x x); assumption.
Qed.

End SortFacts.

(** ** The comparison function of [getNextLandmark] *)

Lemma compareFn_threeTier (a b : ScoredLandmark) :
  Qle_bool (compareFn a b) 0 = threeTierBefore a b.
Proof.
  unfold compareFn, threeTierBefore, withinPriorityRange.
  destruct (previouslyVisited a), (previouslyVisited b); simpl; try reflexivity.
  all: destruct (Qle_bool (distanceOr0 a) _), (Qle_bool (distanceOr0 b) _); simpl;
    try apply Qle_bool_minus.
  all: destruct (Z.eqb_spec (interestScore b - interestScore a) 0) as [E|E];
    destruct (Z.eqb_spec (interestScore a) (interestScore b)) as [E'|E']; simpl;
    try lia; try apply Qle_bool_minus.
  all: rewrite Qle_bool_inject_Z;
    destruct (Z.leb_spec (interestScore b - interestScore a) 0),
             (Z.ltb_spec (interestScore b) (interestScore a)); try reflexivity; lia.
Qed.

Lemma threeTierBefore_total (a b : ScoredLandmark) :
  threeTierBefore a b = true ∨ threeTierBefore b a = true.
Proof.
  unfold threeTierBefore, withinPriorityRange.
  destruct (previouslyVisited a), (previouslyVisited b); simpl; auto.
  all: destruct (Qle_bool (distanceOr0 a) _), (Qle_bool (distanceOr0 b) _); simpl.
  all: destruct (Z.eqb_spec (interestScore a) (interestScore b)) as [E|E];
    destruct (Z.eqb_spec (interestScore b) (interestScore a)) as [E'|E']; simpl;
    try lia.
  all: try (destruct (Z.ltb_spec (interestScore b) (interestScore a));
            destruct (Z.ltb_spec (interestScore a) (interestScore b)); auto; lia).
  all: destruct (Qle_bool (distanceOr0 a) (distanceOr0 b)) eqn:Hab; auto;
    right; apply Qle_bool_iff;
    destruct (Qlt_le_dec (distanceOr0 b) (distanceOr0 a)) as [H|H];
    [lra | apply Qle_bool_iff in H; congruence].
Qed.

Lemma Qle_bool_false (a b : Q) : Qle_bool a b = false → b < a.
Proof.
  intros E. destruct (Qlt_le_dec b a) as [H|H]; [exact H|].
  apply Qle_bool_iff in H. congruence.
Qed.

Ltac order_facts :=
  repeat match goal with
  | H : Qle_bool _ _ = true |- _ => apply Qle_bool_iff in H
  | H : Qle_bool _ _ = false |- _ => apply Qle_bool_false in H
  | H : (_ <? _)%Z = true |- _ => apply Z.ltb_lt in H
  | H : (_ <? _)%Z = false |- _ => apply Z.ltb_ge in H
  | H : true = false |- _ => discriminate H
  | H : false = true |- _ => discriminate H
  end.

Ltac order_close :=
  first [ reflexivity | lia | lra
        | apply Z.ltb_lt; lia
        | apply Qle_bool_iff; lra ].

Lemma threeTierBefore_trans (a b c : ScoredLandmark) :
  threeTierBefore a b = true → threeTierBefore b c = true →
  threeTierBefore a c = true.
Proof.
  unfold threeTierBefore, withinPriorityRange, INTEREST_PRIORITY_RANGE.
  destruct (previouslyVisited a), (previouslyVisited b), (previouslyVisited c);
    simpl; try congruence.
  all: destruct (Qle_bool (distanceOr0 a) 200) eqn:Ra,
                (Qle_bool (distanceOr0 b) 200) eqn:Rb,
                (Qle_bool (distanceOr0 c) 200) eqn:Rc; simpl.
  all: destruct (Z.eqb_spec (interestScore a) (interestScore b));
       destruct (Z.eqb_spec (interestScore b) (interestScore c));
       destruct (Z.eqb_spec (interestScore a) (interestScore c)); simpl.
  all: intros H1 H2; order_facts; order_close.
Qed.

(** What the three tiers say about a landmark that may stand before another. *)
Lemma threeTierBefore_tiers (r c : ScoredLandmark) :
  threeTierBefore r c = true →
  (previouslyVisited r = true → previouslyVisited c = true)
  ∧ (previouslyVisited r = previouslyVisited c →
     withinPriorityRange r = true → withinPriorityRange c = true →
     (interestScore c <= interestScore r)%Z)
  ∧ (previouslyVisited r = previouslyVisited c →
     withinPriorityRange r && withinPriorityRange c = false
       ∨ interestScore r = interestScore c →
     distanceOr0 r <= distanceOr0 c).
Proof.
  unfold threeTierBefore.
  destruct (previouslyVisited r), (previouslyVisited c); simpl; try discriminate.
  all: intros H; split; [auto|]; split; try discriminate.
  all: destruct (withinPriorityRange r), (withinPriorityRange c); simpl in *.
  all: destruct (Z.eqb_spec (interestScore r) (interestScore c)); simpl in *.
  all: order_facts; intros; try lia; try assumption.
  all: match goal with H : _ ∨ _ |- _ => destruct H; [discriminate | lia] end.
Qed.

Section Selection.

Variable calculateDistance : Q → Q → Q → Q → Q.
Variable p : Platform.

Local Abbreviation scored := (withScore calculateDistance p).
Local Abbreviation nextLandmark := (getNextLandmark calculateDistance p).

Local Abbreviation metersTo := (metersTo calculateDistance).

Lemma withScore_id location l : lm_id (landmark (scored location l)) = lm_id l.
Proof. unfold withScore. destruct (getInterestMatchScore _ _); reflexivity. Qed.

Lemma withScore_distance location l :
  distance (scored location l) = Some (metersTo location l).
Proof. unfold withScore. destruct (getInterestMatchScore _ _); reflexivity. Qed.



Lemma withScore_previouslyVisited location l :
  previouslyVisited (scored location l) = hasMemory p (lm_id l).
Proof. unfold withScore. destruct (getInterestMatchScore _ _); reflexivity. Qed.

Lemma elem_of_available s landmarks l :
  l ∈ available s landmarks ↔
  l ∈ landmarks ∧ (lm_id l ∉ visitedIds s) ∧ (lm_id l ∉ skippedIds s).
Proof.
  unfold available. rewrite !list_elem_of_In, filter_In, andb_true_iff, !negb_true_iff,
    !bool_decide_eq_false. tauto.
Qed.

Lemma getNextLandmark_located s landmarks location :
  currentLocation s = Some location →
  nextLandmark s landmarks =
    head (sort compareFn (List.map (scored location) (available s landmarks))).
Proof.
  intros Hloc. unfold getNextLandmark. rewrite Hloc.
  destruct (available s landmarks); reflexivity.
Qed.


(** The filtering invariant: what [getNextLandmark] returns is the scored
    form of a landmark of the list that is neither visited nor skipped. *)
Lemma getNextLandmark_available s landmarks r :
  nextLandmark s landmarks = Some r →
  ∃ location l, currentLocation s = Some location ∧ r = scored location l
    ∧ l ∈ landmarks ∧ (lm_id l ∉ visitedIds s) ∧ (lm_id l ∉ skippedIds s).
Proof.
  intros Hr. destruct (currentLocation s) as [location|] eqn:Hloc.
  - rewrite (getNextLandmark_located _ _ _ Hloc) in Hr.
    apply head_sort_minimum in Hr as [Hin _].
    + apply list_elem_of_In, in_map_iff in Hin as (l & <- & Hl).
      apply list_elem_of_In, elem_of_available in Hl as (Hl & Hv & Hs).
      exists location, l. repeat split; assumption.
    + intros a b. rewrite !compareFn_threeTier. apply threeTierBefore_total.
    + intros a b c. rewrite !compareFn_threeTier. apply threeTierBefore_trans.
  - unfold getNextLandmark in Hr. now rewrite Hloc in Hr.
Qed.




End Selection.


(** The end-to-end scenarios of the specification: L1 at 10 m without tags,
    L2 at 25 m and L3 at 100 m tagged "history", for a user interested in
    history.  L2 comes first; once L2 is visited, L3 does, since its score
    outranks L1 within the priority range. *)
Example scenario_L2_first :
  lm_id ∘ landmark <$>
    getNextLandmark gridDistance demoPlatform walking
      [landmarkAt "L1" 10 (Some []); landmarkAt "L2" 25 (Some ["history"]);
       landmarkAt "L3" 100 (Some ["history"])]
  = Some "L2".
Proof. vm_compute. reflexivity. Qed.

Example scenario_L3_after_L2 :
  lm_id ∘ landmark <$>
    getNextLandmark gridDistance demoPlatform (markVisited "L2" walking)
      [landmarkAt "L1" 10 (Some []); landmarkAt "L2" 25 (Some ["history"]);
       landmarkAt "L3" 100 (Some ["history"])]
  = Some "L3".
Proof. vm_compute. reflexivity. Qed.

(** ** The walk engine: lifecycle, accuracy gate, proximity check *)

(** Reduce the field updates in the goal. *)
Ltac setters :=
  unfold set_isActive, set_currentLocation, set_pendingLandmark, set_visitedIds,
    set_skippedIds, set_isPaused, set_gpsAccuracyPoor, set_currentCityId,
    set_activeTour, set_tourIndex, set_tourPreviewLimit,
    set_tourPreviewLimitReached, set_watchId in *;
  simpl in *.

(** C10. Without a location (no fix received yet) [getNextLandmark] returns
    nothing for every list of candidates, whatever the distance function, the
    interests and the memory are: none of them is consulted. *)
Theorem getNextLandmark_without_location
  (calculateDistance : Q → Q → Q → Q → Q) (p : Platform)
  (s : WalkModeService) (landmarks : list WalkLandmark) :
  currentLocation s = None →
  getNextLandmark calculateDistance p s landmarks = None.
Proof.
  intros Hloc. unfold getNextLandmark. now rewrite Hloc.
Qed.

Lemma getNextLandmark_without_location_witness :
  getNextLandmark gridDistance demoPlatform initialWalkMode
    [landmarkAt "A" 5 None; landmarkAt "B" 10 (Some ["history"])] = None.
Proof.
  apply (getNextLandmark_without_location gridDistance demoPlatform initialWalkMode).
  reflexivity.
Defined.

(** C8. Without the geolocation capability [startWalk] returns false and the
    state it leaves is the state it found, field for field; with the
    capability it returns true. *)
Theorem startWalk_capability (p : Platform) (s : WalkModeService) :
  (isBrowser p && hasGeolocation p = false → startWalk p s = (false, s))
  ∧ (isBrowser p && hasGeolocation p = true → fst (startWalk p s) = true).
Proof.
  unfold startWalk. destruct (isBrowser p), (hasGeolocation p); simpl; split;
    intros H; try discriminate H; reflexivity.
Qed.

Lemma startWalk_capability_witness :
  startWalk noGeoPlatform walking = (false, walking)
  ∧ fst (startWalk demoPlatform initialWalkMode) = true.
Proof.
  split.
  - apply (proj1 (startWalk_capability noGeoPlatform walking)). reflexivity.
  - apply (proj2 (startWalk_capability demoPlatform initialWalkMode)). reflexivity.
Defined.

Section EngineFacts.

Variable calculateDistance : Q → Q → Q → Q → Q.
Variable p : Platform.

Local Abbreviation scored := (withScore calculateDistance p).
Local Abbreviation nextLandmark := (getNextLandmark calculateDistance p).
Local Abbreviation proximity := (checkProximity calculateDistance p).
Local Abbreviation engineStep := (step calculateDistance p).

Lemma startWalk_true s s' :
  startWalk p s = (true, s') →
  isActive s' = true ∧ isPaused s' = false ∧ visitedIds s' = ∅ ∧ skippedIds s' = ∅
  ∧ pendingLandmark s' = None ∧ currentLocation s' = currentLocation s
  ∧ activeTour s' = activeTour s ∧ tourIndex s' = tourIndex s.
Proof.
  unfold startWalk. destruct (negb (isBrowser p) || negb (hasGeolocation p));
    intros [= <-]. repeat split.
Qed.

Lemma available_all s landmarks :
  visitedIds s = ∅ → skippedIds s = ∅ → available s landmarks = landmarks.
Proof.
  intros Hv Hs. unfold available. rewrite Hv, Hs.
  induction landmarks as [|l ls IH]; simpl; [reflexivity|].
  rewrite !bool_decide_eq_false_2 by apply not_elem_of_empty. simpl. now rewrite IH.
Qed.

(** C9. A successful [startWalk], also the one inside [startTourWalk], leaves
    both sets empty and no pending landmark; so no landmark is filtered out
    any more, and a landmark visited or skipped before the restart is returned
    by [getNextLandmark] again (here: when it is the only candidate and a
    location is known). *)
Theorem startWalk_offers_everything_again (s s' : WalkModeService) :
  (startWalk p s = (true, s')
   ∨ ∃ tour isPreviewMode, startTourWalk p tour isPreviewMode s = (true, s')) →
  visitedIds s' = ∅ ∧ skippedIds s' = ∅ ∧ pendingLandmark s' = None
  ∧ (∀ landmarks, available s' landmarks = landmarks)
  ∧ (∀ location l, currentLocation s' = Some location →
       nextLandmark s' [l] = Some (scored location l)).
Proof.
  intros H.
  assert (H' : ∃ s0, startWalk p s0 = (true, s')).
  { destruct H as [H|(tour & pv & H)]; [eauto|]. unfold startTourWalk in H. eauto. }
  destruct H' as (s0 & H0). apply startWalk_true in H0 as (_ & _ & Hv & Hs & Hp & _).
  repeat split; try assumption.
  - intros landmarks. now apply available_all.
  - intros location l Hloc. unfold getNextLandmark. rewrite Hloc.
    now rewrite available_all.
Qed.

(** What [handlePositionUpdate] does to each field. *)
Lemma handlePositionUpdate_fields position s :
  let s' := handlePositionUpdate position s in
  currentLocation s' = Some position
  ∧ pendingLandmark s' = pendingLandmark s
  ∧ isActive s' = isActive s
  ∧ visitedIds s' = visitedIds s ∧ skippedIds s' = skippedIds s
  ∧ activeTour s' = activeTour s ∧ tourIndex s' = tourIndex s.
Proof.
  unfold handlePositionUpdate.
  destruct (Qle_bool _ _); simpl; [destruct (isPaused s)|]; repeat split.
Qed.

(** C3, as the code has it.  A fix with accuracy above 50 m sets
    [gpsAccuracyPoor] and [isPaused]; a fix with accuracy at or below 50 m
    clears [gpsAccuracyPoor] and leaves [isPaused] false in every case, also
    when the pause came from [pauseWalk]: there is one pause flag. *)
Theorem handlePositionUpdate_accuracy_gate (position : GeoLocation) (s : WalkModeService) :
  (POOR_ACCURACY_THRESHOLD < accuracy position →
     gpsAccuracyPoor (handlePositionUpdate position s) = true
     ∧ isPaused (handlePositionUpdate position s) = true)
  ∧ (accuracy position <= POOR_ACCURACY_THRESHOLD →
     gpsAccuracyPoor (handlePositionUpdate position s) = false
     ∧ isPaused (handlePositionUpdate position s) = false
     ∧ isPaused (handlePositionUpdate position (pauseWalk s)) = false).
Proof.
  unfold handlePositionUpdate, pauseWalk. split; intros H.
  - destruct (Qle_bool _ _) eqn:E; [apply Qle_bool_iff in E; lra|]. split; reflexivity.
  - apply Qle_bool_iff in H. rewrite H. setters.
    destruct (isPaused s); repeat split.
Qed.

End EngineFacts.

Lemma handlePositionUpdate_accuracy_gate_witness :
  (gpsAccuracyPoor (handlePositionUpdate poorFix walking) = true
   ∧ isPaused (handlePositionUpdate poorFix walking) = true)
  ∧ (gpsAccuracyPoor (handlePositionUpdate demoFix walking) = false
     ∧ isPaused (handlePositionUpdate demoFix walking) = false
     ∧ isPaused (handlePositionUpdate demoFix (pauseWalk walking)) = false).
Proof.
  split.
  - apply (proj1 (handlePositionUpdate_accuracy_gate poorFix walking)). reflexivity.
  - apply (proj2 (handlePositionUpdate_accuracy_gate demoFix walking)). discriminate.
Defined.

(** The claim of C3 fails where it says an explicit pause is kept: after
    [pauseWalk], one good fix unpauses the engine. *)
Lemma explicit_pause_lost_on_good_fix :
  accuracy demoFix <= POOR_ACCURACY_THRESHOLD
  ∧ isPaused (pauseWalk walking) = true
  ∧ isPaused (handlePositionUpdate demoFix (pauseWalk walking)) ≠ true.
Proof.
  split; [discriminate|]. split; [reflexivity|]. discriminate.
Qed.

Lemma startWalk_offers_everything_again_witness :
  let visitedBefore := markVisited "A" walking in
  let restarted := snd (startWalk demoPlatform (stopWalk demoPlatform visitedBefore)) in
  getNextLandmark gridDistance demoPlatform visitedBefore [landmarkAt "A" 5 None] = None
  ∧ visitedIds restarted = ∅ ∧ skippedIds restarted = ∅ ∧ pendingLandmark restarted = None
  ∧ getNextLandmark gridDistance demoPlatform restarted [landmarkAt "A" 5 None]
    = Some (withScore gridDistance demoPlatform demoFix (landmarkAt "A" 5 None)).
Proof.
  intros visitedBefore restarted.
  split; [reflexivity|].
  destruct (startWalk_offers_everything_again gridDistance demoPlatform
              (stopWalk demoPlatform visitedBefore) restarted)
    as (Hv & Hs & Hp & _ & Hnext).
  { left. reflexivity. }
  split; [exact Hv|]. split; [exact Hs|]. split; [exact Hp|].
  apply Hnext. reflexivity.
Defined.

Section ProximityFacts.

Variable calculateDistance : Q → Q → Q → Q → Q.
Variable p : Platform.

Local Abbreviation nextLandmark := (getNextLandmark calculateDistance p).
Local Abbreviation proximity := (checkProximity calculateDistance p).
Local Abbreviation engineStep := (step calculateDistance p).
Local Abbreviation engineRun := (run calculateDistance p).

Lemma checkProximity_blocked landmarks s :
  isPaused s = true ∨ pendingLandmark s ≠ None → proximity landmarks s = (None, s).
Proof.
  unfold checkProximity. intros [->|H]; [reflexivity|].
  rewrite bool_decide_eq_true_2 by assumption. now rewrite orb_true_r.
Qed.

Lemma checkProximity_open landmarks s :
  isPaused s = false → pendingLandmark s = None →
  proximity landmarks s =
    match nextLandmark s landmarks with
    | None => (None, s)
    | Some nearest =>
        match distance nearest with
        | None => (None, s)
        | Some d =>
            if Qeq_bool d 0 then (None, s)
            else if Qle_bool d PROXIMITY_THRESHOLD
                 then (Some nearest, set_pendingLandmark (Some nearest) s)
                 else (None, s)
        end
    end.
Proof.
  intros Hp Hn. unfold checkProximity. rewrite Hp, Hn. reflexivity.
Qed.

(** The proximity trigger, by the distance [d] of the top candidate: it fires
    for a non-zero [d] up to 30 m; it does not fire beyond 30 m, nor at 0. *)
Lemma checkProximity_threshold landmarks s nearest d :
  isPaused s = false → pendingLandmark s = None →
  nextLandmark s landmarks = Some nearest → distance nearest = Some d →
  (¬ d == 0 → d <= 30 →
     proximity landmarks s = (Some nearest, set_pendingLandmark (Some nearest) s))
  ∧ (30 < d → proximity landmarks s = (None, s))
  ∧ (d == 0 → proximity landmarks s = (None, s)).
Proof.
  intros Hp Hn Hnext Hd. rewrite (checkProximity_open _ _ Hp Hn), Hnext, Hd.
  unfold PROXIMITY_THRESHOLD. repeat split.
  - intros Hz Hle. destruct (Qeq_bool d 0) eqn:E.
    + apply Qeq_bool_iff in E. contradiction.
    + apply Qle_bool_iff in Hle. now rewrite Hle.
  - intros Hlt. destruct (Qeq_bool d 0) eqn:E; [reflexivity|].
    destruct (Qle_bool d 30) eqn:E'; [|reflexivity].
    apply Qle_bool_iff in E'. lra.
  - intros Hz. apply Qeq_bool_iff in Hz. now rewrite Hz.
Qed.

Lemma checkProximity_pending landmarks s :
  pendingLandmark (snd (proximity landmarks s)) = pendingLandmark s
  ∨ (isPaused s = false ∧ pendingLandmark s = None).
Proof.
  unfold checkProximity.
  destruct (isPaused s); [now left|].
  destruct (pendingLandmark s) eqn:Hpend; [now left|]. now right.
Qed.

Lemma stopWalk_pending s : pendingLandmark (stopWalk p s) = None.
Proof. unfold stopWalk. now destruct (_ && _). Qed.

Lemma onCityChanged_pending cityId s : pendingLandmark (onCityChanged p cityId s) = None.
Proof. reflexivity. Qed.

Lemma startWalk_pending s :
  pendingLandmark (snd (startWalk p s)) = pendingLandmark s
  ∨ pendingLandmark (snd (startWalk p s)) = None.
Proof. unfold startWalk. destruct (_ || _); [now left | now right]. Qed.

Lemma markVisited_pending id s : pendingLandmark (markVisited id s) = pendingLandmark s.
Proof.
  unfold markVisited, advanceTour. setters.
  destruct (bool_decide _); [|reflexivity].
  destruct (activeTour s); [|reflexivity]. now destruct (bool_decide _).
Qed.

Lemma explorePending_pending s : pendingLandmark (snd (explorePending s)) = None.
Proof. unfold explorePending. now destruct (pendingLandmark s) eqn:E. Qed.

Lemma skipPending_pending s : pendingLandmark (skipPending s) = None.
Proof. unfold skipPending. now destruct (pendingLandmark s) eqn:E. Qed.

(** What one entry point can do to the pending landmark. *)
Lemma step_pending (op : Op) (s : WalkModeService) :
  pendingLandmark (engineStep op s) = None
  ∨ pendingLandmark (engineStep op s) = pendingLandmark s
  ∨ ((∃ landmarks, op = OpCheckProximity landmarks)
     ∧ isPaused s = false ∧ pendingLandmark s = None).
Proof.
  destruct op; simpl.
  - destruct (startWalk_pending s) as [E|E]; auto.
  - left. apply stopWalk_pending.
  - now right; left.
  - now right; left.
  - right; left. apply handlePositionUpdate_fields.
  - now right; left.
  - destruct (checkProximity_pending landmarks s) as [E|E]; [now right; left|].
    right; right. eauto.
  - left. apply explorePending_pending.
  - left. apply skipPending_pending.
  - right; left. apply markVisited_pending.
  - unfold cityEffect. destruct activeCity; [|now right; left].
    destruct (bool_decide _); [|now right; left]. now left.
  - unfold startTourWalk.
    match goal with |- context[startWalk p ?s0] =>
      destruct (startWalk_pending s0) as [E|E] end; [|now left].
    right; left. rewrite E. now destruct isPreviewMode.
  - right; left. unfold getNextTourLandmark. destruct (activeTour s); [|reflexivity].
    destruct (_ <=? _)%nat; [reflexivity|]. now destruct (_ <=? _)%Z.
  - now right; left.
  - right; left. unfold upgradeTourAccess. now destruct (activeTour s).
Qed.

(** C2, as the code has it.  A pending landmark appears only through
    [checkProximity], run while the engine is not paused and nothing is
    pending; explore, skip, [stopWalk] and a city change leave none pending;
    the pausing entry points ([pauseWalk], a fix of any accuracy, a position
    error) leave the pending landmark as it was. *)
Theorem pendingLandmark_transitions (op : Op) (s : WalkModeService) :
  (pendingLandmark (engineStep op s) ≠ None →
     pendingLandmark (engineStep op s) = pendingLandmark s
     ∨ ((∃ landmarks, op = OpCheckProximity landmarks)
        ∧ isPaused s = false ∧ pendingLandmark s = None))
  ∧ pendingLandmark (snd (explorePending s)) = None
  ∧ pendingLandmark (skipPending s) = None
  ∧ pendingLandmark (stopWalk p s) = None
  ∧ (∀ cityId, cityId ≠ currentCityId s →
       pendingLandmark (cityEffect p (Some cityId) s) = None)
  ∧ pendingLandmark (pauseWalk s) = pendingLandmark s
  ∧ (∀ position, pendingLandmark (handlePositionUpdate position s) = pendingLandmark s)
  ∧ pendingLandmark (handlePositionError s) = pendingLandmark s.
Proof.
  split; [|repeat split].
  - intros H. destruct (step_pending op s) as [E|[E|E]]; [congruence | now left | now right].
  - apply explorePending_pending.
  - apply skipPending_pending.
  - apply stopWalk_pending.
  - intros cityId H. unfold cityEffect. now rewrite bool_decide_eq_true_2.
  - intros position. apply handlePositionUpdate_fields.
Qed.

Lemma reachable_run ops s :
  reachable calculateDistance p s → reachable calculateDistance p (engineRun ops s).
Proof.
  revert s. induction ops as [|op ops IH]; intros s H; [exact H|].
  simpl. apply IH. now constructor.
Qed.

End ProximityFacts.

Lemma pendingLandmark_transitions_witness :
  let s := run gridDistance demoPlatform untilPending initialWalkMode in
  pendingLandmark s ≠ None
  ∧ pendingLandmark (cityEffect demoPlatform (Some "austin") s) = None
  ∧ pendingLandmark (pauseWalk s) = pendingLandmark s.
Proof.
  intros s.
  destruct (pendingLandmark_transitions gridDistance demoPlatform OpPauseWalk s)
    as (Hset & _ & _ & _ & Hcity & Hpause & _).
  split; [discriminate|]. split; [|exact Hpause].
  apply Hcity. discriminate.
Defined.

(** The claim of C2 fails on pausing: a landmark that is pending when the
    engine is paused, by [pauseWalk] or by a poor fix, stays pending. *)
Lemma pending_survives_pause :
  let paused := run gridDistance demoPlatform (untilPending ++ [OpPauseWalk]) initialWalkMode in
  let forced :=
    run gridDistance demoPlatform (untilPending ++ [OpPositionUpdate poorFix]) initialWalkMode in
  (reachable gridDistance demoPlatform paused
   ∧ pendingLandmark paused ≠ None ∧ isPaused paused = true)
  ∧ (reachable gridDistance demoPlatform forced
     ∧ pendingLandmark forced ≠ None ∧ isPaused forced = true).
Proof.
  intros paused forced. split; (split; [apply reachable_run; constructor|]).
  all: split; [discriminate | reflexivity].
Qed.

(** [checkProximity] does not look at [isActive]: called on a stopped engine
    that still holds its last fix, it sets a pending landmark. *)
Example pending_set_while_stopped :
  let stopped := run gridDistance demoPlatform [OpStartWalk; OpPositionUpdate demoFix; OpStopWalk]
                   initialWalkMode in
  let s := snd (checkProximity gridDistance demoPlatform [landmarkAt "L" 20 None] stopped) in
  isActive s = false ∧ pendingLandmark s ≠ None.
Proof. split; [reflexivity | discriminate]. Qed.

(** C7 at distance 0.  The engine is unpaused, nothing is pending and the top
    candidate is 0 m away, within the threshold; [checkProximity] returns
    nothing and sets no pending landmark, because [!nearest.distance] holds for
    the number 0. *)
Theorem checkProximity_zero_distance_no_trigger :
  let L := landmarkAt "L" 0 None in
  isPaused walking = false ∧ pendingLandmark walking = None
  ∧ distance <$> getNextLandmark gridDistance demoPlatform walking [L] = Some (Some 0)
  ∧ checkProximity gridDistance demoPlatform [L] walking = (None, walking).
Proof.
  intros L. repeat split.
Qed.

(** The boundary of the trigger: 30 m and 29.99 m fire, 30.01 m does not. *)
Example checkProximity_boundary :
  let fired meters :=
    lm_id ∘ landmark <$>
      fst (checkProximity gridDistance demoPlatform [landmarkAt "L" meters None] walking) in
  fired 30 = Some "L" ∧ fired (2999 # 100) = Some "L" ∧ fired (3001 # 100) = None
  ∧ fired 0 = None.
Proof. vm_compute. repeat split. Qed.

(** ** The tour sequencer *)

Section TourFacts.

Variable calculateDistance : Q → Q → Q → Q → Q.
Variable p : Platform.

Local Abbreviation engineStep := (step calculateDistance p).

Lemma advanceTour_index id s :
  activeTour (advanceTour id s) = activeTour s
  ∧ ((expectedId s = Some id ∧ tourIndex (advanceTour id s) = (tourIndex s + 1)%nat)
     ∨ (expectedId s ≠ Some id ∧ advanceTour id s = s)).
Proof.
  unfold advanceTour, expectedId. destruct (activeTour s) as [tour|] eqn:Ht.
  - case_bool_decide as E.
    + split; [exact Ht|]. left. now split.
    + split; [exact Ht|]. right. split; [congruence | reflexivity].
  - split; [exact Ht|]. right. split; [discriminate | reflexivity].
Qed.

Lemma markVisited_index id s :
  activeTour (markVisited id s) = activeTour s
  ∧ ((expectedId s = Some id ∧ tourIndex (markVisited id s) = (tourIndex s + 1)%nat)
     ∨ (expectedId s ≠ Some id ∧ tourIndex (markVisited id s) = tourIndex s)).
Proof.
  unfold markVisited.
  set (s1 := set_visitedIds _ s).
  assert (He : expectedId s1 = expectedId s) by reflexivity.
  case_bool_decide as Ht.
  - destruct (advanceTour_index id s1) as [Ha [[H1 H2]|[H1 H2]]].
    + split; [exact Ha|]. left. split; [congruence | exact H2].
    + split; [exact Ha|]. right. split; [congruence | now rewrite H2].
  - split; [reflexivity|]. right. split; [|reflexivity].
    unfold expectedId. destruct (activeTour s) eqn:E; [|discriminate].
    exfalso. subst s1. setters. congruence.
Qed.

Lemma startWalk_tour s :
  activeTour (snd (startWalk p s)) = activeTour s
  ∧ tourIndex (snd (startWalk p s)) = tourIndex s.
Proof. unfold startWalk. now destruct (_ || _). Qed.

Lemma stopWalk_tour s :
  activeTour (stopWalk p s) = activeTour s ∧ tourIndex (stopWalk p s) = tourIndex s.
Proof. unfold stopWalk. now destruct (_ && _). Qed.

Lemma checkProximity_tour landmarks s :
  activeTour (snd (checkProximity calculateDistance p landmarks s)) = activeTour s
  ∧ tourIndex (snd (checkProximity calculateDistance p landmarks s)) = tourIndex s.
Proof.
  unfold checkProximity. destruct (_ || _); [now split|].
  destruct (getNextLandmark _ _ _ _) as [nearest|]; [|now split].
  destruct (distance nearest) as [d|]; [|now split].
  destruct (Qeq_bool d 0); [now split|]. now destruct (Qle_bool d _).
Qed.

Lemma markVisited_off_sequence (ids : list string) (s : WalkModeService) :
  (∀ id, id ∈ ids → expectedId s ≠ Some id) →
  tourIndex (foldr markVisited s ids) = tourIndex s
  ∧ activeTour (foldr markVisited s ids) = activeTour s.
Proof.
  induction ids as [|id ids IH]; intros H; [now split|].
  destruct IH as [IHi IHt]; [intros; apply H; now right|].
  simpl. destruct (markVisited_index id (foldr markVisited s ids)) as [Ha [[H1 _]|[_ H2]]].
  - exfalso. apply (H id); [now left|]. rewrite <- H1. unfold expectedId.
    now rewrite IHi, IHt.
  - split; congruence.
Qed.

(** C6. While a tour lives (no [startTourWalk], [endTourMode] or city change
    in between) no entry point of the engine changes the tour, and each leaves
    [tourIndex] as it was or one higher; it is one higher exactly when the
    entry point marks as visited the landmark [landmarkIds[tourIndex]].
    Marking any other landmarks, any number of times, leaves the index
    unchanged.  [WalkingTourService.markLandmarkVisited] does the same on its
    own index. *)
Theorem tourIndex_advances_only_on_expected_stop :
  (∀ op s, tourLifecycle op = false →
     activeTour (engineStep op s) = activeTour s
     ∧ ((tourIndex (engineStep op s) = (tourIndex s + 1)%nat
         ∧ ∃ id, visitedBy op s = Some id ∧ expectedId s = Some id)
        ∨ (tourIndex (engineStep op s) = tourIndex s
           ∧ ∀ id, visitedBy op s = Some id → expectedId s ≠ Some id)))
  ∧ (∀ ids s, (∀ id, id ∈ ids → expectedId s ≠ Some id) →
       tourIndex (foldr markVisited s ids) = tourIndex s)
  ∧ (∀ id s,
       (∃ tour pr, TourService.activeTour s = Some tour ∧ TourService.progress s = Some pr
          ∧ landmarkIds tour !! TourService.currentLandmarkIndex pr = Some id
          ∧ TourService.currentIndex (TourService.markLandmarkVisited p id s)
            = (TourService.currentIndex s + 1)%nat)
       ∨ TourService.markLandmarkVisited p id s = s).
Proof.
  split; [|split].
  - intros op s Hop. destruct op; try discriminate Hop; simpl.
    all: try (split; [reflexivity|]; right; split; [reflexivity | discriminate]).
    + destruct (startWalk_tour s) as [-> ->].
      split; [reflexivity|]. right. split; [reflexivity | discriminate].
    + destruct (stopWalk_tour s) as [-> ->].
      split; [reflexivity|]. right. split; [reflexivity | discriminate].
    + destruct (handlePositionUpdate_fields position s) as (_ & _ & _ & _ & _ & -> & ->).
      split; [reflexivity|]. right. split; [reflexivity | discriminate].
    + destruct (checkProximity_tour landmarks s) as [-> ->].
      split; [reflexivity|]. right. split; [reflexivity | discriminate].
    + unfold explorePending. destruct (pendingLandmark s) as [pending|] eqn:Hpend; simpl.
      * destruct (markVisited_index (lm_id (landmark pending)) s) as [Ha [[H1 H2]|[H1 H2]]].
        -- split; [exact Ha|]. left. split; [exact H2 | eauto].
        -- split; [exact Ha|]. right. split; [exact H2 | congruence].
      * split; [reflexivity|]. right. split; [reflexivity | discriminate].
    + unfold skipPending. destruct (pendingLandmark s);
        (split; [reflexivity|]; right; split; [reflexivity | discriminate]).
    + destruct (markVisited_index id s) as [Ha [[H1 H2]|[H1 H2]]].
      * split; [exact Ha|]. left. split; [exact H2 | eauto].
      * split; [exact Ha|]. right. split; [exact H2 | congruence].
    + unfold getNextTourLandmark. destruct (activeTour s) eqn:Ht; simpl.
      * destruct (_ <=? _)%nat; [|destruct (_ <=? _)%Z]; simpl;
          (split; [assumption|]; right; split; [reflexivity | discriminate]).
      * split; [assumption|]. right. split; [reflexivity | discriminate].
    + unfold upgradeTourAccess. destruct (activeTour s) eqn:Ht; simpl;
        (split; [assumption|]; right; split; [reflexivity | discriminate]).
  - intros ids s H. now apply markVisited_off_sequence.
  - intros id s. unfold TourService.markLandmarkVisited.
    destruct (TourService.activeTour s) as [tour|] eqn:Ht; [|now right].
    destruct (TourService.progress s) as [pr|] eqn:Hpr; [|now right].
    case_bool_decide as E; [now right|]. left.
    exists tour, pr. repeat split.
    + exact E.
    + unfold TourService.saveProgress, TourService.currentIndex.
      destruct (negb (isBrowser p)); simpl; now rewrite Hpr.
Qed.

End TourFacts.

(** On [demoTour] ("a", "b", "c"): visiting "b" and "c" at index 0 changes
    nothing, then "a" moves the index to 1. *)
Lemma tourIndex_advances_only_on_expected_stop_witness :
  let touring := snd (startTourWalk demoPlatform demoTour true initialWalkMode) in
  tourIndex (foldr markVisited touring ["b"; "c"; "b"]) = tourIndex touring
  ∧ tourIndex (step gridDistance demoPlatform (OpMarkVisited "a") touring) = 1%nat.
Proof.
  intros touring.
  destruct (tourIndex_advances_only_on_expected_stop gridDistance demoPlatform)
    as (Hstep & Hoff & _).
  split.
  - apply Hoff. intros id Hid.
    repeat (apply elem_of_cons in Hid as [->|Hid]; [discriminate|]).
    now apply elem_of_nil in Hid.
  - destruct (Hstep (OpMarkVisited "a") touring eq_refl) as [_ [[H _]|[_ H]]].
    + exact H.
    + exfalso. now apply (H "a").
Defined.

(** ** The day session *)

Lemma visit_keeps_apart (V S : gset string) (id : string) :
  V ## S → (V ∪ {[ id ]}) ## (S ∖ {[ id ]}).
Proof.
  intros Hd x [Hx|Hx]%elem_of_union [Hs Hn]%elem_of_difference.
  - exact (Hd x Hx Hs).
  - contradiction.
Qed.

Lemma skip_keeps_apart (V S : gset string) (id : string) :
  V ## S → id ∉ V → V ## (S ∪ {[ id ]}).
Proof.
  intros Hd Hid x Hx [Hs|Hs]%elem_of_union.
  - exact (Hd x Hx Hs).
  - apply elem_of_singleton in Hs as ->. contradiction.
Qed.

Section SessionFacts.

Variable p : Platform.

Lemma saveSession_sets (s : Session.state) :
  Session.visitedIds (Session.saveSession p s) = Session.visitedIds s
  ∧ Session.skippedIds (Session.saveSession p s) = Session.skippedIds s.
Proof. unfold Session.saveSession. now destruct (negb (isBrowser p)). Qed.

Lemma saveSession_persists (s : Session.state) :
  isBrowser p = true →
  Session.localStorage (Session.saveSession p s)
  = Some (Session.Parsed
            {| Session.date := todayKey p;
               Session.data_visitedIds := elements (Session.visitedIds s);
               Session.data_skippedIds := elements (Session.skippedIds s) |}).
Proof. intros H. unfold Session.saveSession. now rewrite H. Qed.

Lemma session_markVisited_sets id (s : Session.state) :
  Session.visitedIds (Session.markVisited p id s) = Session.visitedIds s ∪ {[ id ]}
  ∧ Session.skippedIds (Session.markVisited p id s) = Session.skippedIds s ∖ {[ id ]}.
Proof. unfold Session.markVisited, Session.saveSession. now destruct (negb (isBrowser p)). Qed.

Lemma session_markSkipped_sets id (s : Session.state) :
  Session.visitedIds (Session.markSkipped p id s) = Session.visitedIds s
  ∧ Session.skippedIds (Session.markSkipped p id s) = Session.skippedIds s ∪ {[ id ]}.
Proof. unfold Session.markSkipped, Session.saveSession. now destruct (negb (isBrowser p)). Qed.

Lemma session_resetSession_sets (s : Session.state) :
  Session.visitedIds (Session.resetSession p s) = ∅
  ∧ Session.skippedIds (Session.resetSession p s) = ∅.
Proof. unfold Session.resetSession, Session.saveSession. now destruct (negb (isBrowser p)). Qed.

Lemma session_step_disjoint op (s : Session.state) :
  Session.visitedIds s ## Session.skippedIds s →
  match op with
  | Session.OpMarkSkipped id => id ∉ Session.visitedIds s
  | _ => True
  end →
  Session.visitedIds (Session.step p op s) ## Session.skippedIds (Session.step p op s).
Proof.
  intros Hd Hop. destruct op as [id|id|]; simpl.
  - destruct (session_markVisited_sets id s) as [-> ->]. now apply visit_keeps_apart.
  - destruct (session_markSkipped_sets id s) as [-> ->]. now apply skip_keeps_apart.
  - destruct (session_resetSession_sets s) as [-> ->]. apply disjoint_empty_l.
Qed.

(** C4, as the code has it.  After [markVisited id] the id is visited and not
    skipped, in the service and, in a browser, in the stored copy.  Starting
    from disjoint sets, every run of [markVisited], [markSkipped] and
    [resetSession] in which [markSkipped] is only applied to an id that is not
    visited at that moment keeps the two sets disjoint. *)
Theorem session_markVisited_and_disjointness :
  (∀ id s,
     id ∈ Session.visitedIds (Session.markVisited p id s)
     ∧ (id ∉ Session.skippedIds (Session.markVisited p id s))
     ∧ (isBrowser p = true →
        Session.localStorage (Session.markVisited p id s)
        = Some (Session.Parsed
                  {| Session.date := todayKey p;
                     Session.data_visitedIds := elements (Session.visitedIds s ∪ {[ id ]});
                     Session.data_skippedIds := elements (Session.skippedIds s ∖ {[ id ]}) |})))
  ∧ (∀ ops s,
       Session.visitedIds s ## Session.skippedIds s →
       Session.skipsUnvisited p ops s →
       Session.visitedIds (Session.run p ops s) ## Session.skippedIds (Session.run p ops s)).
Proof.
  split.
  - intros id s. destruct (session_markVisited_sets id s) as [Hv Hs].
    rewrite Hv, Hs. split; [apply elem_of_union_r, elem_of_singleton; reflexivity|].
    split; [rewrite elem_of_difference, elem_of_singleton; tauto|].
    intros Hb. unfold Session.markVisited. now rewrite saveSession_persists.
  - intros ops. induction ops as [|op ops IH]; intros s Hd Hops; [exact Hd|].
    destruct Hops as [Hop Hrest]. simpl. apply IH; [|exact Hrest].
    now apply session_step_disjoint.
Qed.

End SessionFacts.

Lemma session_markVisited_and_disjointness_witness :
  let ops := [Session.OpMarkVisited "a"; Session.OpMarkSkipped "b"] in
  let s := Session.run demoPlatform ops (Session.create demoPlatform None) in
  Session.visitedIds s ## Session.skippedIds s.
Proof.
  intros ops s.
  apply (proj2 (session_markVisited_and_disjointness demoPlatform) ops).
  - apply disjoint_empty_l.
  - split; [exact I|]. split; [|exact I].
    change ("b" ∉ (∅ : gset string) ∪ {[ "a" ]}).
    intros [H|H]%elem_of_union.
    + now apply not_elem_of_empty in H.
    + apply elem_of_singleton in H. discriminate H.
Defined.

(** The claim of C4 fails on a skip after a visit: [markSkipped] adds the id to
    [skippedIds] whether or not it is visited, so the id is in both sets. *)
Lemma visited_then_skipped_in_both :
  let s := Session.markSkipped demoPlatform "a"
             (Session.markVisited demoPlatform "a" (Session.create demoPlatform None)) in
  "a" ∈ Session.visitedIds s ∧ "a" ∈ Session.skippedIds s.
Proof.
  intros s. subst s.
  destruct (session_markSkipped_sets demoPlatform "a"
              (Session.markVisited demoPlatform "a" (Session.create demoPlatform None)))
    as [-> ->].
  destruct (session_markVisited_sets demoPlatform "a" (Session.create demoPlatform None))
    as [-> ->].
  split; apply elem_of_union_r, elem_of_singleton; reflexivity.
Qed.

(** ** City change *)

Section CityFacts.

Variable p : Platform.

(** C5, as the code has it.  A change to another city leaves the walk engine
    stopped, with empty [visitedIds] and [skippedIds], no pending landmark, no
    active tour, tour index 0 and the preview-limit flag cleared.  The day
    session of [SessionService], with its stored copy, is left as it was. *)
Theorem cityChanged_resets_walk_keeps_session (cityId : string) (a : App) :
  cityId ≠ currentCityId (walkMode a) →
  visitedIds (walkMode (cityChanged p cityId a)) = ∅
  ∧ skippedIds (walkMode (cityChanged p cityId a)) = ∅
  ∧ pendingLandmark (walkMode (cityChanged p cityId a)) = None
  ∧ activeTour (walkMode (cityChanged p cityId a)) = None
  ∧ tourIndex (walkMode (cityChanged p cityId a)) = 0%nat
  ∧ tourPreviewLimitReached (walkMode (cityChanged p cityId a)) = false
  ∧ isActive (walkMode (cityChanged p cityId a)) = false
  ∧ currentCityId (walkMode (cityChanged p cityId a)) = cityId
  ∧ session (cityChanged p cityId a) = session a.
Proof.
  intros H. unfold cityChanged, cityEffect. simpl.
  rewrite bool_decide_eq_true_2 by assumption.
  repeat split. unfold onCityChanged.
  destruct (isActive (walkMode a)) eqn:E; [|exact E].
  unfold stopWalk. now destruct (_ && _).
Qed.

End CityFacts.

Lemma cityChanged_resets_walk_keeps_session_witness :
  visitedIds (walkMode (cityChanged demoPlatform "austin" demoApp)) = ∅
  ∧ isActive (walkMode (cityChanged demoPlatform "austin" demoApp)) = false
  ∧ session (cityChanged demoPlatform "austin" demoApp) = session demoApp.
Proof.
  destruct (cityChanged_resets_walk_keeps_session demoPlatform "austin" demoApp)
    as (Hv & _ & _ & _ & _ & _ & Ha & _ & Hs).
  - discriminate.
  - split; [exact Hv|]. split; [exact Ha | exact Hs].
Defined.

(** The claim of C5 fails on the day session: after the change of city, "a" is
    still visited in [SessionService] and still in the stored copy. *)
Lemma session_survives_city_change :
  let after := cityChanged demoPlatform "austin" demoApp in
  currentCityId (walkMode after) = "austin"
  ∧ "a" ∈ Session.visitedIds (session after)
  ∧ (∃ data, Session.localStorage (session after) = Some (Session.Parsed data)
             ∧ "a" ∈ Session.data_visitedIds data).
Proof.
  intros after. split; [reflexivity|]. split.
  - change (session after)
      with (Session.markVisited demoPlatform "a" (Session.create demoPlatform None)).
    rewrite (proj1 (session_markVisited_sets demoPlatform "a" _)).
    apply elem_of_union_r, elem_of_singleton. reflexivity.
  - eexists. split; [reflexivity|].
    change ("a" ∈ elements ((∅ : gset string) ∪ {[ "a" ]})).
    apply elem_of_elements, elem_of_union_r, elem_of_singleton. reflexivity.
Qed.

(** ** The day session under the application's own handlers *)

Section AppFacts.

Variable calculateDistance : Q → Q → Q → Q → Q.
Variable p : Platform.

Local Abbreviation tick := (proximityTick calculateDistance p).
Local Abbreviation invariant := appInvariant.

Lemma checkProximity_result landmarks s :
  pendingLandmark (snd (checkProximity calculateDistance p landmarks s)) = pendingLandmark s
  ∨ ∃ nearest, getNextLandmark calculateDistance p s landmarks = Some nearest
      ∧ pendingLandmark (snd (checkProximity calculateDistance p landmarks s)) = Some nearest.
Proof.
  unfold checkProximity. destruct (_ || _); [now left|].
  destruct (getNextLandmark _ _ _ _) as [nearest|]; [|now left].
  destruct (distance nearest) as [d|]; [|now left].
  destruct (Qeq_bool d 0); [now left|].
  destruct (Qle_bool d _); [|now left]. right. eauto.
Qed.

Lemma shouldShow_true id (s : Session.state) :
  Session.shouldShow id s = true →
  (id ∉ Session.visitedIds s) ∧ (id ∉ Session.skippedIds s).
Proof.
  unfold Session.shouldShow, Session.hasVisited, Session.hasSkipped.
  rewrite andb_true_iff, !negb_true_iff, !bool_decide_eq_false. tauto.
Qed.

Lemma proximityTick_invariant landmarks a : invariant a → invariant (tick landmarks a).
Proof.
  intros [Hd Hp]. unfold proximityTick. destruct (_ || _); [now split|].
  split; [exact Hd|]. simpl. intros c Hc.
  match type of Hc with context[checkProximity _ _ ?lms _] =>
    destruct (checkProximity_result lms (walkMode a)) as [E|(nearest & Hn & E)] end.
  - apply Hp. congruence.
  - rewrite E in Hc. injection Hc as <-.
    apply getNextLandmark_available in Hn as (location & l & _ & -> & Hl & _).
    rewrite withScore_id.
    apply list_elem_of_In, in_map_iff in Hl as (l0 & <- & Hl0).
    apply filter_In in Hl0 as [_ Hshow]. simpl. now apply shouldShow_true.
Qed.

Lemma onExplorePending_invariant a : invariant a → invariant (onExplorePending p a).
Proof.
  intros [Hd Hp]. unfold onExplorePending, explorePending, appInvariant.
  destruct (pendingLandmark (walkMode a)) as [pending|] eqn:E;
    cbn -[Session.markVisited markVisited].
  - split; [|discriminate].
    destruct (session_markVisited_sets p (lm_id (landmark pending)) (session a)) as [-> ->].
    now apply visit_keeps_apart.
  - split; [exact Hd|]. intros c Hc. congruence.
Qed.

Lemma onSkipPending_invariant a : invariant a → invariant (onSkipPending p a).
Proof.
  intros [Hd Hp]. unfold onSkipPending, skipPending, appInvariant.
  destruct (pendingLandmark (walkMode a)) as [pending|] eqn:E;
    cbn -[Session.markSkipped].
  - split; [|discriminate].
    destruct (session_markSkipped_sets p (lm_id (landmark pending)) (session a)) as [-> ->].
    destruct (Hp pending eq_refl) as [Hv _]. now apply skip_keeps_apart.
  - split; [exact Hd|]. intros c Hc. congruence.
Qed.

(** Under the application's timer and handlers the two sets of the day
    session never share an id: the skip button only ever skips a landmark that
    passed [shouldShow]. *)
Lemma appStep_invariant op a :
  invariant a → invariant (appStep calculateDistance p op a).
Proof.
  intros Ha. destruct op as [landmarks| | |op]; simpl.
  - now apply proximityTick_invariant.
  - now apply onExplorePending_invariant.
  - now apply onSkipPending_invariant.
  - destruct (calledByApp op) eqn:Hop; [|exact Ha].
    destruct Ha as [Hd Hp]. split; [exact Hd|]. simpl. intros c Hc.
    destruct (step_pending calculateDistance p op (walkMode a)) as [E|[E|E]].
    + congruence.
    + apply Hp. congruence.
    + destruct E as [[landmarks ->] _]. discriminate Hop.
Qed.

Lemma appRun_disjoint ops :
  let a := appRun calculateDistance p ops (initialApp p) in
  Session.visitedIds (session a) ## Session.skippedIds (session a).
Proof.
  assert (H : ∀ a, invariant a → invariant (appRun calculateDistance p ops a)).
  { induction ops as [|op ops IH]; intros a Ha; [exact Ha|].
    simpl. apply IH. now apply appStep_invariant. }
  apply H. split.
  - unfold initialApp, Session.create. simpl.
    destruct (isBrowser p); apply disjoint_empty_l.
  - discriminate.
Qed.

End AppFacts.

(** * Further properties of the code *)

(** ** Interest score and selection *)

(** X1. The interest score has three levels: 2 exactly when the primary (first)
    interest of the user is among the tags, 0 exactly when no interest of the
    user is, 1 otherwise; a reported matched interest is an interest of the
    user found in the tags.  Missing and empty tags score 0. *)
Theorem getInterestMatchScore_levels (p : Platform) (tags : option (list string)) :
  let score := fst (getInterestMatchScore p tags) in
  let tagList := default [] tags in
  (score = 2%Z ↔ ∃ primary, head (userInterests p) = Some primary ∧ primary ∈ tagList)
  ∧ (score = 0%Z ↔ ∀ interest, interest ∈ userInterests p → interest ∉ tagList)
  ∧ (score = 0 ∨ score = 1 ∨ score = 2)%Z
  ∧ (∀ m, snd (getInterestMatchScore p tags) = Some m →
          m ∈ userInterests p ∧ m ∈ tagList).
Proof.
  unfold getInterestMatchScore.
  destruct tags as [[|t ts]|]; simpl.
  1,3: repeat split; try discriminate; try (now left);
       [intros (x & _ & Hx); now apply elem_of_nil in Hx
       | intros _ i _ Hi; now apply elem_of_nil in Hi].
  destruct (List.find _ _) as [i|] eqn:Hfind; simpl.
  - assert (Hfirst : ∀ h, head (userInterests p) = Some h → h ∈ t :: ts → h = i).
    { intros h Hh Hht. revert Hfind.
      destruct (userInterests p) as [|h' rest]; [discriminate|].
      injection Hh as ->. simpl. unfold includes at 1.
      rewrite bool_decide_eq_true_2 by assumption. now intros [= ->]. }
    apply find_some in Hfind as [Hin Hinc].
    apply list_elem_of_In in Hin. unfold includes in Hinc.
    apply bool_decide_eq_true in Hinc.
    assert (Hm : ∀ m, Some i = Some m → m ∈ userInterests p ∧ m ∈ t :: ts).
    { intros m [= <-]. now split. }
    destruct (bool_decide (head (userInterests p) = Some i)) eqn:E;
      [apply bool_decide_eq_true in E | apply bool_decide_eq_false in E].
    + split; [split; eauto|]. split; [split; [discriminate|]|].
      * intros H. exfalso. exact (H i Hin Hinc).
      * split; [auto | exact Hm].
    + split; [split; [discriminate|]|].
      * intros (h & Hh & Hht). rewrite (Hfirst h Hh Hht) in Hh. contradiction.
      * split; [split; [discriminate|]|].
        -- intros H. exfalso. exact (H i Hin Hinc).
        -- split; [auto | exact Hm].
  - repeat split; try discriminate; try (now left).
    + intros (h & Hh & Hht).
      assert (Hin : h ∈ userInterests p).
      { destruct (userInterests p); [discriminate|]. injection Hh as ->. left. }
      apply list_elem_of_In in Hin.
      pose proof (find_none _ _ Hfind h Hin) as Hn. unfold includes in Hn.
      apply bool_decide_eq_false in Hn. contradiction.
    + intros _ i Hi Hit. apply list_elem_of_In in Hi.
      pose proof (find_none _ _ Hfind i Hi) as Hn. unfold includes in Hn.
      apply bool_decide_eq_false in Hn. contradiction.
Qed.

Section SelectionMore.

Variable calculateDistance : Q → Q → Q → Q → Q.
Variable p : Platform.

Local Abbreviation scored := (withScore calculateDistance p).
Local Abbreviation nextLandmark := (getNextLandmark calculateDistance p).
Local Abbreviation proximity := (checkProximity calculateDistance p).

Lemma getNextLandmark_minimal s landmarks r :
  nextLandmark s landmarks = Some r →
  ∃ location, currentLocation s = Some location
    ∧ r ∈ List.map (scored location) (available s landmarks)
    ∧ ∀ c, c ∈ List.map (scored location) (available s landmarks) →
           threeTierBefore r c = true.
Proof.
  intros Hr. destruct (currentLocation s) as [location|] eqn:Hloc.
  - rewrite (getNextLandmark_located _ _ _ _ _ Hloc) in Hr.
    apply head_sort_minimum in Hr as [Hin Hmin].
    + exists location. split; [reflexivity|]. split; [exact Hin|].
      intros c Hc. rewrite <- compareFn_threeTier. auto.
    + intros a b. rewrite !compareFn_threeTier. apply threeTierBefore_total.
    + intros a b c. rewrite !compareFn_threeTier. apply threeTierBefore_trans.
  - unfold getNextLandmark in Hr. now rewrite Hloc in Hr.
Qed.

(** X2. What [getNextLandmark] returns is a landmark of the list given to it,
    neither visited nor skipped in this walk, with its distance from the
    current location filled in. *)
Theorem getNextLandmark_respects_filter s landmarks r :
  nextLandmark s landmarks = Some r →
  (lm_id (landmark r) ∉ visitedIds s) ∧ (lm_id (landmark r) ∉ skippedIds s)
  ∧ ∃ location l, currentLocation s = Some location ∧ l ∈ landmarks
      ∧ lm_id (landmark r) = lm_id l
      ∧ distance r = Some (metersTo calculateDistance location l).
Proof.
  intros Hr.
  apply getNextLandmark_available in Hr as (location & l & Hloc & -> & Hl & Hv & Hs).
  rewrite withScore_id. split; [exact Hv|]. split; [exact Hs|].
  exists location, l. rewrite withScore_distance. auto.
Qed.

(** X3. Cross-session memory only demotes: a landmark with memory is returned
    only when every remaining candidate has memory too. *)
Theorem getNextLandmark_memory_last s landmarks r :
  nextLandmark s landmarks = Some r →
  previouslyVisited r = true →
  ∀ l, l ∈ landmarks → lm_id l ∉ visitedIds s → lm_id l ∉ skippedIds s →
       hasMemory p (lm_id l) = true.
Proof.
  intros Hr Hpv l Hl Hv Hs.
  apply getNextLandmark_minimal in Hr as (location & Hloc & _ & Hmin).
  specialize (Hmin (scored location l)).
  rewrite <- (withScore_previouslyVisited calculateDistance p location l).
  apply threeTierBefore_tiers in Hmin as [H _]; [auto|].
  apply list_elem_of_In, in_map, list_elem_of_In, elem_of_available. auto.
Qed.

(** X4. When [checkProximity] returns a landmark, the engine was not paused and
    had nothing pending, the landmark is the one [getNextLandmark] selects,
    its distance is not 0 and at most 30 m, and the only change to the state
    is that it is now pending.  When it returns nothing, the state is
    unchanged. *)
Theorem checkProximity_result_within_threshold landmarks s :
  match proximity landmarks s with
  | (Some c, s') =>
      isPaused s = false ∧ pendingLandmark s = None
      ∧ nextLandmark s landmarks = Some c
      ∧ s' = set_pendingLandmark (Some c) s
      ∧ ∃ d, distance c = Some d ∧ ¬ d == 0 ∧ d <= PROXIMITY_THRESHOLD
  | (None, s') => s' = s
  end.
Proof.
  unfold checkProximity.
  destruct (isPaused s); [reflexivity|].
  destruct (pendingLandmark s) as [c0|] eqn:Hp; [reflexivity|]. simpl.
  destruct (nextLandmark s landmarks) as [nearest|]; [|reflexivity].
  destruct (distance nearest) as [d|] eqn:Hd; [|reflexivity].
  destruct (Qeq_bool d 0) eqn:Hz; [reflexivity|].
  destruct (Qle_bool d PROXIMITY_THRESHOLD) eqn:Hle; [|reflexivity].
  repeat split. exists d. split; [exact Hd|]. split.
  - intros E. apply Qeq_bool_iff in E. congruence.
  - now apply Qle_bool_iff.
Qed.

End SelectionMore.

Lemma getNextLandmark_respects_filter_witness :
  let s := markVisited "L2" walking in
  let landmarks := [landmarkAt "L1" 10 None; landmarkAt "L2" 25 (Some ["history"])] in
  ∃ r, getNextLandmark gridDistance demoPlatform s landmarks = Some r
       ∧ lm_id (landmark r) ∉ visitedIds s.
Proof.
  intros s landmarks. eexists. split; [reflexivity|].
  apply (getNextLandmark_respects_filter gridDistance demoPlatform s landmarks).
  reflexivity.
Defined.

Lemma getNextLandmark_memory_last_witness :
  let remembering :=
    {| isBrowser := true; hasGeolocation := true; newWatchId := 1;
       userInterests := ["history"]; storedMemoryIds := ["L1"; "L2"];
       todayKey := "2025-01-15"; nowISO := "2025-01-15T10:00:00.000Z" |} in
  hasMemory remembering "L2" = true.
Proof.
  intros remembering.
  apply (getNextLandmark_memory_last gridDistance remembering walking
           [landmarkAt "L1" 10 None; landmarkAt "L2" 25 None]
           (withScore gridDistance remembering demoFix (landmarkAt "L1" 10 None))
           eq_refl eq_refl (landmarkAt "L2" 25 None)).
  - right. left.
  - apply not_elem_of_empty.
  - apply not_elem_of_empty.
Defined.

(** ** Lifecycle of a walk *)

Section LifecycleMore.

Variable calculateDistance : Q → Q → Q → Q → Q.
Variable p : Platform.

Local Abbreviation nextLandmark := (getNextLandmark calculateDistance p).
Local Abbreviation engineStep := (step calculateDistance p).
Local Abbreviation engineRun := (run calculateDistance p).

(** [stopWalk] can be called again at no cost: a second call changes nothing.
    After it the walk is inactive, nothing is pending and, in a browser, no
    position watch is left; the sets, the last fix, the pause flag and the tour
    are kept. *)
Theorem stopWalk_idempotent (s : WalkModeService) :
  stopWalk p (stopWalk p s) = stopWalk p s
  ∧ isActive (stopWalk p s) = false
  ∧ pendingLandmark (stopWalk p s) = None
  ∧ (isBrowser p = true → watchId (stopWalk p s) = None)
  ∧ visitedIds (stopWalk p s) = visitedIds s
  ∧ skippedIds (stopWalk p s) = skippedIds s
  ∧ currentLocation (stopWalk p s) = currentLocation s
  ∧ isPaused (stopWalk p s) = isPaused s
  ∧ activeTour (stopWalk p s) = activeTour s
  ∧ tourIndex (stopWalk p s) = tourIndex s.
Proof.
  destruct s as [a l pd v sk pa g c t i lim r [w|]]; unfold stopWalk; cbn;
    destruct (isBrowser p); cbn; repeat split; discriminate.
Qed.

(** X5. Skipping a pending landmark records its id as skipped and nothing else:
    the visited set and the tour are untouched.  Exploring it records it as
    visited and hands the landmark back.  Either way, for the rest of the walk
    [getNextLandmark] does not return a landmark with this id. *)
Theorem resolved_pending_not_offered_again (s : WalkModeService) (c : ScoredLandmark) :
  pendingLandmark s = Some c →
  (visitedIds (skipPending s) = visitedIds s
   ∧ skippedIds (skipPending s) = skippedIds s ∪ {[ lm_id (landmark c) ]}
   ∧ activeTour (skipPending s) = activeTour s
   ∧ tourIndex (skipPending s) = tourIndex s
   ∧ ∀ landmarks r, nextLandmark (skipPending s) landmarks = Some r →
       lm_id (landmark r) ≠ lm_id (landmark c))
  ∧ (fst (explorePending s) = Some c
     ∧ visitedIds (snd (explorePending s)) = visitedIds s ∪ {[ lm_id (landmark c) ]}
     ∧ skippedIds (snd (explorePending s)) = skippedIds s
     ∧ ∀ landmarks r, nextLandmark (snd (explorePending s)) landmarks = Some r →
         lm_id (landmark r) ≠ lm_id (landmark c)).
Proof.
  intros Hp. split.
  - unfold skipPending. rewrite Hp. repeat split.
    intros landmarks r Hr E.
    apply getNextLandmark_available in Hr as (loc & l & _ & -> & _ & _ & Hs).
    rewrite withScore_id in E. apply Hs. cbn. rewrite E.
    apply elem_of_union_r, elem_of_singleton. reflexivity.
  - unfold explorePending. rewrite Hp. cbn.
    assert (Hv : visitedIds (markVisited (lm_id (landmark c)) s)
                 = visitedIds s ∪ {[ lm_id (landmark c) ]}).
    { unfold markVisited, advanceTour. cbn.
      destruct (bool_decide _); [|reflexivity].
      destruct (activeTour s); [|reflexivity]. now destruct (bool_decide _). }
    assert (Hs : skippedIds (markVisited (lm_id (landmark c)) s) = skippedIds s).
    { unfold markVisited, advanceTour. cbn.
      destruct (bool_decide _); [|reflexivity].
      destruct (activeTour s); [|reflexivity]. now destruct (bool_decide _). }
    split; [reflexivity|]. split; [exact Hv|]. split; [exact Hs|].
    intros landmarks r Hr E.
    apply getNextLandmark_available in Hr as (loc & l & _ & -> & _ & Hvl & _).
    rewrite withScore_id in E. apply Hvl. cbn. rewrite Hv, E.
    apply elem_of_union_r, elem_of_singleton. reflexivity.
Qed.

End LifecycleMore.

Lemma stopWalk_idempotent_witness :
  watchId walking = Some 1%nat ∧ watchId (stopWalk demoPlatform walking) = None.
Proof.
  split; [reflexivity|].
  apply (stopWalk_idempotent demoPlatform walking). reflexivity.
Defined.

Lemma resolved_pending_not_offered_again_witness :
  let s := run gridDistance demoPlatform untilPending initialWalkMode in
  let M := withScore gridDistance demoPlatform demoFix (landmarkAt "M" 40 None) in
  getNextLandmark gridDistance demoPlatform (skipPending s)
    [landmarkAt "L" 20 None; landmarkAt "M" 40 None] = Some M
  ∧ lm_id (landmark M) ≠ "L".
Proof.
  intros s M. split; [reflexivity|].
  destruct (resolved_pending_not_offered_again gridDistance demoPlatform s
              (withScore gridDistance demoPlatform demoFix (landmarkAt "L" 20 None)) eq_refl)
    as [(_ & _ & _ & _ & H) _].
  apply (H [landmarkAt "L" 20 None; landmarkAt "M" 40 None] M). reflexivity.
Defined.

(** ** The tour inside the walk engine *)

Section TourMore.

Variable calculateDistance : Q → Q → Q → Q → Q.
Variable p : Platform.

Local Abbreviation engineStep := (step calculateDistance p).
Local Abbreviation engineRun := (run calculateDistance p).

Lemma markVisited_inRange id s : tourIndexInRange s → tourIndexInRange (markVisited id s).
Proof.
  unfold tourIndexInRange. intros H.
  destruct (markVisited_index id s) as [Ha [[He Hi]|[_ Hi]]]; rewrite Ha, Hi.
  - unfold expectedId in He. destruct (activeTour s) as [tour|]; [|discriminate].
    apply lookup_lt_Some in He. lia.
  - exact H.
Qed.

Lemma startWalk_inRange s : tourIndexInRange s → tourIndexInRange (snd (startWalk p s)).
Proof.
  unfold tourIndexInRange. now destruct (startWalk_tour p s) as [-> ->].
Qed.

Lemma step_inRange op s : tourIndexInRange s → tourIndexInRange (engineStep op s).
Proof.
  intros H. destruct op; simpl.
  - now apply startWalk_inRange.
  - unfold tourIndexInRange. now destruct (stopWalk_tour p s) as [-> ->].
  - exact H.
  - exact H.
  - unfold tourIndexInRange.
    now destruct (handlePositionUpdate_fields position s) as (_ & _ & _ & _ & _ & -> & ->).
  - exact H.
  - unfold tourIndexInRange.
    now destruct (checkProximity_tour calculateDistance p landmarks s) as [-> ->].
  - unfold explorePending. destruct (pendingLandmark s) as [c|]; [|exact H].
    now apply (markVisited_inRange (lm_id (landmark c))) in H.
  - unfold skipPending. now destruct (pendingLandmark s).
  - now apply markVisited_inRange.
  - unfold cityEffect. destruct activeCity; [|exact H].
    destruct (bool_decide _); [reflexivity | exact H].
  - unfold startTourWalk. apply startWalk_inRange.
    unfold tourIndexInRange. destruct isPreviewMode; cbn; lia.
  - unfold getNextTourLandmark, tourIndexInRange in *.
    destruct (activeTour s) eqn:E; cbn; [|now rewrite E].
    destruct (_ <=? _)%nat; cbn; [now rewrite E|].
    destruct (_ <=? _)%Z; cbn; now rewrite E.
  - reflexivity.
  - unfold upgradeTourAccess, tourIndexInRange in *.
    destruct (activeTour s) eqn:E; cbn; now rewrite E.
Qed.

(** X6. In every state the service can reach, the tour index is at most the
    number of stops of the active tour, and it is 0 when no tour is active:
    the index never runs past the end of the tour. *)
Theorem tourIndex_never_past_end (s : WalkModeService) :
  reachable calculateDistance p s →
  match activeTour s with
  | Some tour => (tourIndex s <= length (landmarkIds tour))%nat
  | None => tourIndex s = 0%nat
  end.
Proof.
  intros H. change (tourIndexInRange s).
  induction H as [|op s _ IH]; [reflexivity|]. now apply step_inRange.
Qed.

Lemma visitAll_remaining (tour : WalkingTour) (n : nat) :
  ∀ s, activeTour s = Some tour →
       (tourIndex s + n)%nat = length (landmarkIds tour) →
       let s' := visitAll (drop (tourIndex s) (landmarkIds tour)) s in
       activeTour s' = Some tour ∧ tourIndex s' = length (landmarkIds tour).
Proof.
  induction n as [|n IH]; intros s Ht Hn.
  - rewrite drop_ge by lia. cbn. split; [exact Ht | lia].
  - destruct (landmarkIds tour !! tourIndex s) as [x|] eqn:Hx;
      [|apply lookup_ge_None in Hx; lia].
    rewrite (drop_S _ _ _ Hx). cbn.
    destruct (markVisited_index x s) as [Ha [[_ Hi]|[He _]]].
    + specialize (IH (markVisited x s)). rewrite Hi in IH.
      replace (tourIndex s + 1)%nat with (S (tourIndex s)) in IH by lia.
      apply IH; [congruence | lia].
    + exfalso. apply He. unfold expectedId. now rewrite Ht.
Qed.

(** X7. Visiting the remaining stops of the active tour in their order brings the
    index to the number of stops; the tour is then complete and
    [getNextTourLandmark] returns nothing for every list of landmarks. *)
Theorem visiting_stops_in_order_completes (s : WalkModeService) (tour : WalkingTour) :
  activeTour s = Some tour →
  (tourIndex s <= length (landmarkIds tour))%nat →
  let s' := visitAll (drop (tourIndex s) (landmarkIds tour)) s in
  tourIndex s' = length (landmarkIds tour)
  ∧ isTourComplete s' = true
  ∧ getTourProgress s' = Some (length (landmarkIds tour), length (landmarkIds tour))
  ∧ ∀ landmarks, getNextTourLandmark landmarks s' = (None, s').
Proof.
  intros Ht Hle s'.
  destruct (visitAll_remaining tour (length (landmarkIds tour) - tourIndex s) s Ht)
    as [Ht' Hi']; [lia|]. fold s' in Ht', Hi'.
  unfold isTourComplete, getTourProgress, getNextTourLandmark. rewrite Ht', Hi'.
  rewrite Nat.leb_refl. auto.
Qed.

Lemma startWalk_fullAccess s : fullAccess s → fullAccess (snd (startWalk p s)).
Proof. unfold fullAccess, startWalk. now destruct (_ || _). Qed.

Lemma markVisited_fullAccess id s : fullAccess s → fullAccess (markVisited id s).
Proof.
  unfold fullAccess, markVisited, advanceTour. cbn.
  destruct (bool_decide _); [|auto].
  destruct (activeTour s) eqn:E; cbn; [|now rewrite E].
  destruct (bool_decide _); cbn; now rewrite E.
Qed.

Lemma step_fullAccess op s :
  tourLifecycle op = false → fullAccess s → fullAccess (engineStep op s).
Proof.
  intros Hop H. destruct op; try discriminate Hop; simpl.
  - now apply startWalk_fullAccess.
  - unfold fullAccess, stopWalk in *. now destruct (_ && _).
  - exact H.
  - exact H.
  - unfold fullAccess, handlePositionUpdate in *.
    destruct (negb _); cbn; [exact H|]. now destruct (isPaused s).
  - exact H.
  - unfold fullAccess, checkProximity in *. destruct (_ || _); [exact H|].
    destruct (getNextLandmark _ _ _ _) as [nearest|]; [|exact H].
    destruct (distance nearest) as [d|]; [|exact H].
    destruct (Qeq_bool d 0); [exact H|]. now destruct (Qle_bool d _).
  - unfold explorePending. destruct (pendingLandmark s) as [c|]; [|exact H].
    now apply (markVisited_fullAccess (lm_id (landmark c))) in H.
  - unfold skipPending. now destruct (pendingLandmark s).
  - now apply markVisited_fullAccess.
  - unfold getNextTourLandmark. destruct (activeTour s) as [tour|] eqn:E; [|exact H].
    destruct (Nat.leb_spec (length (landmarkIds tour)) (tourIndex s)); [exact H|].
    destruct (Z.leb_spec (tourPreviewLimit s) (Z.of_nat (tourIndex s))); [|exact H].
    exfalso. destruct H as [_ H]. rewrite (H tour E) in *. lia.
  - unfold upgradeTourAccess.
    destruct (activeTour s) as [tour|] eqn:E; [|exact H].
    split; [reflexivity|]. cbn. rewrite E. now intros tour' [= <-].
Qed.

Lemma run_fullAccess ops s :
  forallb (fun op => negb (tourLifecycle op)) ops = true →
  fullAccess s → fullAccess (engineRun ops s).
Proof.
  revert s. induction ops as [|op ops IH]; intros s Hops H; [exact H|].
  cbn in Hops. apply andb_true_iff in Hops as [Hop Hops].
  cbn. apply IH; [exact Hops|]. apply step_fullAccess; [|exact H].
  now apply negb_true_iff.
Qed.

(** X8. A tour started without preview, or upgraded by [upgradeTourAccess], never
    reaches the preview limit: whatever the engine does next, short of
    starting or ending a tour or changing city, [tourPreviewLimitReached]
    stays false. *)
Theorem full_access_never_hits_preview_limit
  (ops : list Op) (tour : WalkingTour) (s : WalkModeService) :
  forallb (fun op => negb (tourLifecycle op)) ops = true →
  tourPreviewLimitReached (engineRun ops (snd (startTourWalk p tour false s))) = false
  ∧ (activeTour s = Some tour →
     tourPreviewLimitReached (engineRun ops (upgradeTourAccess s)) = false).
Proof.
  intros Hops. split.
  - apply run_fullAccess; [exact Hops|]. unfold startTourWalk.
    apply startWalk_fullAccess. split; [reflexivity|]. cbn. now intros tour' [= <-].
  - intros Ht. apply run_fullAccess; [exact Hops|].
    unfold upgradeTourAccess. rewrite Ht. split; [reflexivity|]. cbn.
    rewrite Ht. now intros tour' [= <-].
Qed.


End TourMore.

Lemma tourIndex_never_past_end_witness :
  let s := run gridDistance demoPlatform
             [OpStartTourWalk demoTour true; OpMarkVisited "a"; OpMarkVisited "b";
              OpMarkVisited "c"; OpMarkVisited "c"] initialWalkMode in
  (tourIndex s <= 3)%nat.
Proof.
  intros s.
  apply (tourIndex_never_past_end gridDistance demoPlatform s).
  apply reachable_run. constructor.
Defined.

Lemma visiting_stops_in_order_completes_witness :
  isTourComplete (visitAll ["a"; "b"; "c"] touringPreview) = true.
Proof.
  apply (visiting_stops_in_order_completes touringPreview demoTour eq_refl).
  change (0 <= 3)%nat. lia.
Defined.

Lemma full_access_never_hits_preview_limit_witness :
  let ops := [OpMarkVisited "a"; OpMarkVisited "b"; OpGetNextTourLandmark []] in
  tourPreviewLimitReached (run gridDistance demoPlatform ops touringPreview) = true
  ∧ tourPreviewLimitReached
      (run gridDistance demoPlatform ops (upgradeTourAccess touringPreview)) = false.
Proof.
  intros ops. split; [reflexivity|].
  apply (full_access_never_hits_preview_limit gridDistance demoPlatform ops demoTour
           touringPreview eq_refl).
  reflexivity.
Defined.


(** ** The day session: persistence and queries *)

Section SessionMore.

Variable p : Platform.

Lemma loadSession_same_day (V S : gset string) (stored : option Session.StoredItem) :
  isBrowser p = true →
  stored = Some (Session.Parsed
                   {| Session.date := todayKey p;
                      Session.data_visitedIds := elements V;
                      Session.data_skippedIds := elements S |}) →
  Session.visitedIds (Session.create p stored) = V
  ∧ Session.skippedIds (Session.create p stored) = S
  ∧ Session.localStorage (Session.create p stored) = stored.
Proof.
  intros Hb ->. unfold Session.create, Session.loadSession. rewrite Hb. cbn.
  rewrite bool_decide_eq_false_2 by (intros H; now apply H). cbn.
  now rewrite !list_to_set_elements_L.
Qed.

(** X10. In a browser every change of the day session is written through, and a
    restart on the same day reads back exactly the two sets: the session made
    from the store after [markVisited], [markSkipped] or [resetSession] has the
    visited and skipped ids of the session before the restart. *)
Theorem session_survives_restart (op : Session.Op) (s : Session.state) :
  isBrowser p = true →
  let s' := Session.step p op s in
  let restarted := Session.create p (Session.localStorage s') in
  Session.visitedIds restarted = Session.visitedIds s'
  ∧ Session.skippedIds restarted = Session.skippedIds s'
  ∧ Session.localStorage restarted = Session.localStorage s'.
Proof.
  intros Hb s' restarted. subst restarted.
  assert (H : ∃ s0, s' = Session.saveSession p s0).
  { subst s'. destruct op; cbn; unfold Session.markVisited, Session.markSkipped,
      Session.resetSession; eauto. }
  destruct H as [s0 ->].
  apply loadSession_same_day; [exact Hb|].
  rewrite (saveSession_persists p s0 Hb).
  now destruct (saveSession_sets p s0) as [-> ->].
Qed.

(** X11. Loading fails open.  When the stored text does not parse, or holds the
    session of another day, the new session starts empty and the store is
    rewritten with today's date and two empty arrays; when nothing is stored
    the session starts empty and the store stays empty. *)
Theorem session_load_fails_open (stored : option Session.StoredItem) :
  isBrowser p = true →
  (stored = Some Session.Unparsable
   ∨ (∃ data, stored = Some (Session.Parsed data) ∧ Session.date data ≠ todayKey p) →
   Session.create p stored
   = {| Session.visitedIds := ∅; Session.skippedIds := ∅;
        Session.localStorage :=
          Some (Session.Parsed {| Session.date := todayKey p;
                                  Session.data_visitedIds := [];
                                  Session.data_skippedIds := [] |}) |})
  ∧ Session.create p None
    = {| Session.visitedIds := ∅; Session.skippedIds := ∅; Session.localStorage := None |}.
Proof.
  intros Hb. unfold Session.create, Session.loadSession, Session.resetSession,
    Session.saveSession. rewrite Hb. cbn. split; [|reflexivity].
  intros [->|(data & -> & Hd)]; cbn.
  - now rewrite elements_empty.
  - rewrite bool_decide_eq_true_2 by assumption. now rewrite elements_empty.
Qed.

(** X12. [shouldShow] after the marks: a landmark marked visited or skipped is no
    longer shown, marking one id does not change what is shown for another,
    [markSkipped] never removes a visit, and after [resetSession] every
    landmark is shown again. *)
Theorem shouldShow_after_marks (id other : string) (s : Session.state) :
  Session.shouldShow id (Session.markVisited p id s) = false
  ∧ Session.shouldShow id (Session.markSkipped p id s) = false
  ∧ (other ≠ id →
     Session.shouldShow other (Session.markVisited p id s) = Session.shouldShow other s
     ∧ Session.shouldShow other (Session.markSkipped p id s) = Session.shouldShow other s)
  ∧ Session.hasVisited other (Session.markSkipped p id s) = Session.hasVisited other s
  ∧ Session.shouldShow other (Session.resetSession p s) = true.
Proof.
  unfold Session.shouldShow, Session.hasVisited, Session.hasSkipped.
  destruct (session_markVisited_sets p id s) as [-> ->].
  destruct (session_markSkipped_sets p id s) as [-> ->].
  destruct (session_resetSession_sets p s) as [-> ->].
  split; [|split; [|split; [|split]]].
  - rewrite (bool_decide_eq_true_2 (id ∈ _ ∪ _)); [reflexivity|].
    apply elem_of_union_r, elem_of_singleton. reflexivity.
  - rewrite (bool_decide_eq_true_2 (id ∈ Session.skippedIds s ∪ _)).
    + now rewrite andb_false_r.
    + apply elem_of_union_r, elem_of_singleton. reflexivity.
  - intros Hne. split; f_equal; f_equal; apply bool_decide_ext.
    + rewrite elem_of_union, elem_of_singleton. tauto.
    + rewrite elem_of_difference, elem_of_singleton. tauto.
    + rewrite elem_of_union, elem_of_singleton. tauto.
  - reflexivity.
  - rewrite !bool_decide_eq_false_2 by apply not_elem_of_empty. reflexivity.
Qed.

End SessionMore.

Lemma session_survives_restart_witness :
  let s := Session.markVisited demoPlatform "a" (Session.create demoPlatform None) in
  "a" ∈ Session.visitedIds (Session.create demoPlatform (Session.localStorage s)).
Proof.
  intros s.
  destruct (session_survives_restart demoPlatform (Session.OpMarkVisited "a")
              (Session.create demoPlatform None) eq_refl) as [Hv _].
  cbn zeta in Hv. unfold s. cbn [Session.step] in Hv. rewrite Hv.
  rewrite (proj1 (session_markVisited_sets demoPlatform "a" _)).
  apply elem_of_union_r, elem_of_singleton. reflexivity.
Defined.

Lemma session_load_fails_open_witness :
  let yesterday :=
    Some (Session.Parsed {| Session.date := "2025-01-14";
                            Session.data_visitedIds := ["a"; "b"];
                            Session.data_skippedIds := ["c"] |}) in
  Session.shouldShow "a" (Session.create demoPlatform yesterday) = true.
Proof.
  intros yesterday.
  rewrite (proj1 (session_load_fails_open demoPlatform yesterday eq_refl)).
  - unfold Session.shouldShow, Session.hasVisited, Session.hasSkipped. cbn.
    rewrite !bool_decide_eq_false_2 by apply not_elem_of_empty. reflexivity.
  - right. eexists. split; [reflexivity|]. discriminate.
Defined.

Lemma shouldShow_after_marks_witness :
  Session.shouldShow "b" (Session.markVisited demoPlatform "a" (Session.create demoPlatform None))
  = Session.shouldShow "b" (Session.create demoPlatform None).
Proof.
  destruct (shouldShow_after_marks demoPlatform "a" "b" (Session.create demoPlatform None))
    as (_ & _ & H & _).
  apply H. discriminate.
Defined.

(** ** What the application never prompts twice *)

Section AppMore.

Variable calculateDistance : Q → Q → Q → Q → Q.
Variable p : Platform.

Local Abbreviation appStepOf := (appStep calculateDistance p).
Local Abbreviation appRunOf := (appRun calculateDistance p).



End AppMore.


(** ** The tour service *)

Section TourServiceMore.

Variable p : Platform.
Variable userIsPremium : bool.

Local Abbreviation start := (TourProgression.startTour p userIsPremium).
Local Abbreviation offer := TourProgression.getNextLandmark.
Local Abbreviation tourStep := (TourProgression.step p).
Local Abbreviation tourRun := (TourProgression.run p).
Local Abbreviation progressOf := TourProgression.progressOf.

Lemma saveProgress_fields (s : TourService.state) :
  TourService.activeTour (TourService.saveProgress p s) = TourService.activeTour s
  ∧ TourService.progress (TourService.saveProgress p s) = TourService.progress s
  ∧ TourService.previewLimitReached (TourService.saveProgress p s)
    = TourService.previewLimitReached s.
Proof.
  unfold TourService.saveProgress. destruct (negb (isBrowser p)); [auto|].
  destruct (TourService.progress s) eqn:E; cbn; auto.
Qed.

Lemma startTour_progressOf tour s : progressOf tour (snd (start tour s)).
Proof.
  unfold TourProgression.progressOf, TourProgression.startTour. cbn.
  destruct (saveProgress_fields
              {| TourService.activeTour := Some tour;
                 TourService.progress :=
                   Some {| TourService.tourId := tour_id tour;
                           TourService.currentLandmarkIndex := 0;
                           TourService.visitedLandmarkIds := [];
                           TourService.startedAt := nowISO p;
                           TourService.completedAt := None;
                           TourService.isPreviewMode := isPremium tour && negb userIsPremium |};
                 TourService.previewLimitReached :=
                   if isPremium tour && negb userIsPremium
                   then false else TourService.previewLimitReached s;
                 TourService.savedProgress := TourService.savedProgress s |})
    as (-> & -> & _).
  split; [reflexivity|]. eexists. split; [reflexivity|]. cbn.
  split; [reflexivity|]. split; [lia|]. split; [reflexivity|].
  split; [intros [x Hx]; discriminate | intros [H1 H2]; lia].
Qed.

Lemma markLandmarkVisited_progressOf tour id s :
  progressOf tour s → progressOf tour (TourService.markLandmarkVisited p id s).
Proof.
  intros (Ht & pr & Hpr & Hid & Hle & Hvis & Hdone).
  unfold TourService.markLandmarkVisited. rewrite Ht, Hpr.
  case_bool_decide as E; [split; eauto 10|].
  match goal with |- progressOf _ (TourService.saveProgress p ?s0) =>
    destruct (saveProgress_fields s0) as (Ha & Hp & _) end.
  split; [now rewrite Ha|]. rewrite Hp. eexists. split; [reflexivity|]. cbn.
  pose proof (lookup_lt_Some _ _ _ E) as Hlt.
  split; [exact Hid|]. split; [lia|]. split.
  - rewrite Hvis. replace (TourService.currentLandmarkIndex pr + 1)%nat
      with (S (TourService.currentLandmarkIndex pr)) by lia.
    symmetry. now apply take_S_r.
  - destruct (Nat.leb_spec (length (landmarkIds tour))
                (TourService.currentLandmarkIndex pr + 1)).
    + split; [intros _; lia | intros _; eauto].
    + split; [intros H'; apply Hdone in H'; lia | intros [H' _]; lia].
Qed.

Lemma step_progressOf tour op s : progressOf tour s → progressOf tour (tourStep op s).
Proof.
  intros H. destruct op as [|id|]; cbn.
  - destruct H as (Ht & pr & Hpr & H). unfold TourProgression.getNextLandmark.
    rewrite Ht, Hpr. destruct (_ <=? _)%nat; [split; eauto|].
    destruct (_ && _); [split; eauto|].
    destruct (_ !! _); split; eauto.
  - now apply markLandmarkVisited_progressOf.
  - destruct H as (Ht & pr & Hpr & Hid & Hle & Hvis & Hdone).
    unfold TourProgression.upgradeTourAccess. rewrite Hpr.
    destruct (negb _); [split; eauto 10|].
    match goal with |- progressOf _ (TourService.saveProgress p ?s0) =>
      destruct (saveProgress_fields s0) as (Ha & Hp & _) end.
    split; [now rewrite Ha|]. rewrite Hp. eexists. split; [reflexivity|]. cbn. auto.
Qed.

(** X14. From [startTour] on, whatever is asked of the service (next stop, a
    visit, an upgrade), the progress stays that of the started tour: the list
    of visited stops is exactly the first [currentLandmarkIndex] stops of the
    tour, the index stays within the tour, and [completedAt] is set exactly
    when the last stop of a non-empty tour has been visited. *)
Theorem tour_progress_is_prefix
  (tour : WalkingTour) (s : TourService.state) (ops : list TourProgression.Op) :
  let s' := tourRun ops (snd (start tour s)) in
  TourService.activeTour s' = Some tour
  ∧ ∃ pr, TourService.progress s' = Some pr
      ∧ TourService.tourId pr = tour_id tour
      ∧ (TourService.currentLandmarkIndex pr <= length (landmarkIds tour))%nat
      ∧ TourService.visitedLandmarkIds pr
        = take (TourService.currentLandmarkIndex pr) (landmarkIds tour)
      ∧ (is_Some (TourService.completedAt pr)
         ↔ TourService.currentLandmarkIndex pr = length (landmarkIds tour)
           ∧ (0 < length (landmarkIds tour))%nat).
Proof.
  intros s'. change (progressOf tour s'). subst s'.
  generalize (startTour_progressOf tour s). generalize (snd (start tour s)).
  induction ops as [|op ops IH]; intros s0 H; [exact H|].
  cbn. apply IH. now apply step_progressOf.
Qed.

(** X15. What the tour service offers is the stop at the current index, and
    asking changes nothing; in a preview the offered index is below the
    preview count; and marking the offered landmark visited moves the index
    one further. *)
Theorem tour_offer_is_current_stop (s s' : TourService.state) (id : string) (i : nat) :
  offer s = (Some (id, i), s') →
  s' = s
  ∧ ∃ tour pr, TourService.activeTour s = Some tour ∧ TourService.progress s = Some pr
      ∧ i = TourService.currentLandmarkIndex pr
      ∧ landmarkIds tour !! i = Some id
      ∧ (TourService.isPreviewMode pr = true → (Z.of_nat i < previewLandmarkCount tour)%Z)
      ∧ TourService.currentIndex (TourService.markLandmarkVisited p id s) = (i + 1)%nat.
Proof.
  unfold TourProgression.getNextLandmark.
  destruct (TourService.activeTour s) as [tour|] eqn:Ht; [|discriminate].
  destruct (TourService.progress s) as [pr|] eqn:Hpr; [|discriminate].
  destruct (_ <=? _)%nat; [discriminate|].
  destruct (TourService.isPreviewMode pr) eqn:Hprev; cbn.
  - destruct (Z.leb_spec (previewLandmarkCount tour)
                (Z.of_nat (TourService.currentLandmarkIndex pr))); [discriminate|].
    destruct (landmarkIds tour !! _) as [x|] eqn:Hx; [|discriminate].
    intros [= ? ? ?]; subst. split; [reflexivity|]. exists tour, pr.
    repeat split; try assumption; try (intros _; assumption).
    unfold TourService.markLandmarkVisited, TourService.currentIndex.
    rewrite Ht, Hpr. rewrite bool_decide_eq_false_2 by (intros H'; now apply H').
    match goal with |- context[TourService.saveProgress p ?s0] =>
      destruct (saveProgress_fields s0) as (_ & -> & _) end. reflexivity.
  - destruct (landmarkIds tour !! _) as [x|] eqn:Hx; [|discriminate].
    intros [= ? ? ?]; subst. split; [reflexivity|]. exists tour, pr.
    repeat split; try assumption; try congruence.
    unfold TourService.markLandmarkVisited, TourService.currentIndex.
    rewrite Ht, Hpr. rewrite bool_decide_eq_false_2 by (intros H'; now apply H').
    match goal with |- context[TourService.saveProgress p ?s0] =>
      destruct (saveProgress_fields s0) as (_ & -> & _) end. reflexivity.
Qed.

Local Abbreviation unlocked := TourProgression.outsidePreview.

Lemma step_unlocked flag op s : unlocked flag s → unlocked flag (tourStep op s).
Proof.
  intros (Hf & tour & pr & Ht & Hpr & Hm). destruct op as [|id|]; cbn.
  - unfold TourProgression.getNextLandmark. rewrite Ht, Hpr, Hm. cbn.
    destruct (_ <=? _)%nat; [split; eauto 10|].
    destruct (_ !! _); split; eauto 10.
  - unfold TourService.markLandmarkVisited. rewrite Ht, Hpr.
    case_bool_decide; [split; eauto 10|].
    match goal with |- unlocked _ (TourService.saveProgress p ?s0) =>
      destruct (saveProgress_fields s0) as (Ha & Hp & Hr) end.
    split; [now rewrite Hr|]. rewrite Ha, Hp. eauto 10.
  - unfold TourProgression.upgradeTourAccess. rewrite Hpr, Hm. split; eauto 10.
Qed.

(** X16. A user who may access the whole tour (a premium user, or any user on a
    free tour) is never put in preview: after [startTour] and anything that
    follows, the progress is not in preview mode, the preview-limit flag is as
    it was before the tour started, and as long as the tour is not complete
    the next stop is offered. *)
Theorem full_tour_access_is_never_gated
  (tour : WalkingTour) (s : TourService.state) (ops : list TourProgression.Op) :
  TourProgression.canAccessFullTour userIsPremium tour = true →
  let s' := tourRun ops (snd (start tour s)) in
  TourService.previewLimitReached s' = TourService.previewLimitReached s
  ∧ (∃ pr, TourService.progress s' = Some pr ∧ TourService.isPreviewMode pr = false)
  ∧ (TourProgression.isTourComplete s' = false → is_Some (fst (offer s')))
  ∧ TourProgression.getAccessibleLandmarkCount userIsPremium tour
    = Z.of_nat (length (landmarkIds tour)).
Proof.
  intros Hacc s'.
  assert (Hmode : isPremium tour && negb userIsPremium = false).
  { unfold TourProgression.canAccessFullTour in Hacc.
    destruct (isPremium tour), userIsPremium; cbn in *; congruence. }
  assert (H : unlocked (TourService.previewLimitReached s) s').
  { subst s'.
    assert (H0 : unlocked (TourService.previewLimitReached s) (snd (start tour s))).
    { unfold TourProgression.startTour. cbn. rewrite Hmode.
      match goal with |- unlocked _ (TourService.saveProgress p ?s0) =>
        destruct (saveProgress_fields s0) as (Ha & Hp & Hr) end.
      split; [now rewrite Hr|]. rewrite Ha, Hp. eauto 10. }
    revert H0. generalize (snd (start tour s)).
    induction ops as [|op ops IH]; intros s0 H0; [exact H0|].
    cbn. apply IH. now apply step_unlocked. }
  destruct H as (Hf & tour' & pr & Ht & Hpr & Hm).
  split; [exact Hf|]. split; [eauto|]. split.
  - unfold TourProgression.isTourComplete, TourProgression.getNextLandmark.
    rewrite Ht, Hpr, Hm. cbn.
    destruct (Nat.leb_spec (length (landmarkIds tour'))
                (TourService.currentLandmarkIndex pr)); [discriminate|].
    intros _. destruct (landmarkIds tour' !! _) eqn:E; [cbn; eauto|].
    apply lookup_ge_None in E. lia.
  - unfold TourProgression.getAccessibleLandmarkCount. now rewrite Hacc.
Qed.

End TourServiceMore.

Lemma indexOf_spec (l : list string) (x : string) :
  (TourProgression.indexOf l x = (-1)%Z ∧ x ∉ l)
  ∨ (∃ i : nat, TourProgression.indexOf l x = Z.of_nat i ∧ l !! i = Some x
                ∧ ∀ j, (j < i)%nat → l !! j ≠ Some x).
Proof.
  induction l as [|y l IH]; cbn.
  - left. split; [reflexivity | apply not_elem_of_nil].
  - case_bool_decide as E.
    + subst y. right. exists 0%nat. repeat split. intros j Hj. lia.
    + destruct IH as [[-> Hn]|(i & -> & Hi & Hfirst)].
      * left. split; [reflexivity|]. rewrite elem_of_cons. intros [->|H]; auto.
      * right. exists (S i).
        destruct (Z.ltb_spec (Z.of_nat i) 0); [lia|].
        split; [lia|]. split; [exact Hi|].
        intros [|j] Hj; cbn; [congruence | apply Hfirst; lia].
Qed.

(** [getLandmarkOrder] is 0 exactly for a landmark that is not in the active
    tour (or without a tour); otherwise it is the 1-based place of the first
    occurrence of the landmark in the tour, at most the number of stops. *)
Theorem getLandmarkOrder_is_first_place (id : string) (s : TourService.state) :
  (TourProgression.getLandmarkOrder id s = 0%Z
   ↔ TourProgression.isLandmarkInTour id s = false)
  ∧ ∀ tour, TourService.activeTour s = Some tour →
      TourProgression.isLandmarkInTour id s = true →
      ∃ i : nat, TourProgression.getLandmarkOrder id s = Z.of_nat (i + 1)
                 ∧ landmarkIds tour !! i = Some id
                 ∧ ∀ j, (j < i)%nat → landmarkIds tour !! j ≠ Some id.
Proof.
  unfold TourProgression.getLandmarkOrder, TourProgression.isLandmarkInTour, includes.
  destruct (TourService.activeTour s) as [tour|]; [|split; [tauto | discriminate]].
  destruct (indexOf_spec (landmarkIds tour) id) as [[-> Hn]|(i & -> & Hi & Hfirst)].
  - cbn. rewrite bool_decide_eq_false_2 by assumption.
    split; [tauto | discriminate].
  - destruct (Z.leb_spec 0 (Z.of_nat i)); [|lia].
    rewrite bool_decide_eq_true_2 by (eapply list_elem_of_lookup_2; eauto).
    split; [split; [lia | discriminate]|].
    intros tour' [= <-] _. exists i. split; [lia | auto].
Qed.

Lemma tour_offer_is_current_stop_witness :
  TourProgression.getNextLandmark previewTourState = (Some ("a", 0%nat), previewTourState)
  ∧ TourService.currentIndex
      (TourService.markLandmarkVisited demoPlatform "a" previewTourState) = 1%nat.
Proof.
  split; [reflexivity|].
  destruct (tour_offer_is_current_stop demoPlatform previewTourState previewTourState
              "a" 0 eq_refl) as (_ & tour & pr & _ & _ & _ & _ & _ & H).
  exact H.
Defined.

Lemma full_tour_access_is_never_gated_witness :
  let ops := [TourProgression.OpMarkLandmarkVisited "a";
              TourProgression.OpMarkLandmarkVisited "b";
              TourProgression.OpGetNextLandmark] in
  TourService.previewLimitReached (TourProgression.run demoPlatform ops previewTourState)
  = true
  ∧ TourService.previewLimitReached (TourProgression.run demoPlatform ops premiumTourState)
    = false.
Proof.
  intros ops. split; [reflexivity|].
  apply (full_tour_access_is_never_gated demoPlatform true demoTour TourProgression.initial
           ops).
  reflexivity.
Defined.

Lemma getLandmarkOrder_is_first_place_witness :
  TourProgression.getLandmarkOrder "b" previewTourState = 2%Z
  ∧ TourProgression.getLandmarkOrder "z" previewTourState = 0%Z.
Proof.
  split; [reflexivity|].
  apply (proj1 (getLandmarkOrder_is_first_place "z" previewTourState)). reflexivity.
Defined.

(** ** The interests of the user *)

Section InterestMore.

Variable p : Platform.
Variable demoMode : bool.

Local Abbreviation setI := (Interest.setInterests p).
Local Abbreviation addI := (Interest.addInterest p).
Local Abbreviation removeI := (Interest.removeInterest p).
Local Abbreviation toggleI := (Interest.toggleInterest p).

Lemma filter_valid_id (l : list string) :
  (∀ i, i ∈ l → i ∈ Interest.VALID_INTERESTS) →
  List.filter (fun i => includes Interest.VALID_INTERESTS i) l = l.
Proof.
  induction l as [|x l IH]; intros H; [reflexivity|]. cbn -[Interest.VALID_INTERESTS].
  unfold includes at 1. rewrite bool_decide_eq_true_2 by (apply H; left).
  f_equal. apply IH. intros i Hi. apply H. now right.
Qed.

Lemma setInterests_interests (input : list string) (s : Interest.state) :
  let valid := List.filter (fun i => includes Interest.VALID_INTERESTS i) input in
  (valid ≠ [] → Interest.interests (setI input s) = valid)
  ∧ (valid = [] → Interest.interests (setI input s) = ["history"]).
Proof.
  cbn zeta. unfold Interest.setInterests. cbn -[Interest.VALID_INTERESTS].
  destruct (List.filter _ input) as [|x l]; cbn; split; intros H;
    try congruence; reflexivity.
Qed.

Lemma setInterests_wellFormed input s : Interest.wellFormed (setI input s).
Proof.
  destruct (setInterests_interests input s) as [H1 H2]. unfold Interest.wellFormed.
  destruct (List.filter (fun i => includes Interest.VALID_INTERESTS i) input)
    as [|x l] eqn:E.
  - rewrite (H2 eq_refl). split; [discriminate|].
    intros i ->%list_elem_of_singleton. left.
  - rewrite H1 by discriminate. split; [discriminate|].
    intros i Hi. rewrite <- E in Hi.
    apply list_elem_of_In, filter_In in Hi as [_ Hi].
    unfold includes in Hi. now apply bool_decide_eq_true in Hi.
Qed.

Lemma step_wellFormed op s :
  Interest.wellFormed s → Interest.wellFormed (Interest.step p op s).
Proof.
  intros H. destruct op as [input|i|i|i]; cbn.
  - apply setInterests_wellFormed.
  - unfold Interest.addInterest. destruct (negb _); [apply setInterests_wellFormed | exact H].
  - apply setInterests_wellFormed.
  - unfold Interest.toggleInterest, Interest.addInterest, Interest.removeInterest.
    destruct (Interest.hasInterest i s); [apply setInterests_wellFormed|].
    destruct (negb _); [apply setInterests_wellFormed | exact H].
Qed.

(** X17. [setInterests] keeps, in their order, the entries of its input that are
    among the four known interests, and falls back to "history" when none is;
    so the list is never empty and never holds an unknown interest, and every
    later add, remove or toggle keeps it so.  In a browser the saved list is
    what the next launch starts with. *)
Theorem interests_never_empty_nor_unknown
  (input : list string) (ops : list Interest.Op) (s : Interest.state) :
  let valid := List.filter (fun i => includes Interest.VALID_INTERESTS i) input in
  let s' := setI input s in
  Interest.interests s' = (if bool_decide (valid = []) then ["history"] else valid)
  ∧ Interest.wellFormed (Interest.run p ops s')
  ∧ Interest.getPrimaryInterest s' ∈ Interest.interests s'
  ∧ (isBrowser p = true →
     Interest.interests (Interest.create p false (Interest.localStorage s'))
     = Interest.interests s').
Proof.
  intros valid s'.
  assert (Hwf : Interest.wellFormed s') by apply setInterests_wellFormed.
  split; [|split; [|split]].
  - destruct (setInterests_interests input s) as [H1 H2]. fold valid in H1, H2.
    case_bool_decide; auto.
  - generalize Hwf. generalize s'. induction ops as [|op ops IH]; intros s0 H0; [exact H0|].
    cbn. apply IH. now apply step_wellFormed.
  - destruct Hwf as [Hne Hval]. unfold Interest.getPrimaryInterest.
    destruct (Interest.interests s') as [|x l] eqn:E; [congruence|]. cbn.
    case_bool_decide as Hx; [|left].
    exfalso. subst x. specialize (Hval "" ltac:(left)).
    unfold Interest.VALID_INTERESTS in Hval.
    repeat (apply elem_of_cons in Hval as [Hval|Hval]; [discriminate Hval|]).
    now apply elem_of_nil in Hval.
  - intros Hb. destruct Hwf as [Hne _].
    assert (Hst : Interest.localStorage s' = Some (Interest.Array (Interest.interests s'))).
    { subst s'. unfold Interest.setInterests. now rewrite Hb. }
    clearbody s'. unfold Interest.create, Interest.loadInterests. rewrite Hb. cbn.
    rewrite Hst. destruct (Interest.interests s'); [congruence | reflexivity].
Qed.

(** X18. Removing an interest takes it out of the list while another interest
    remains; when it was the only one the list becomes "history" alone, so
    "history" cannot be removed when it stands alone and any other last
    interest is replaced by it. *)
Theorem removeInterest_falls_back_to_history (i : string) (s : Interest.state) :
  Interest.wellFormed s →
  ((∃ x, x ∈ Interest.interests s ∧ x ≠ i) →
     Interest.interests (removeI i s)
     = List.filter (fun x => bool_decide (x ≠ i)) (Interest.interests s)
     ∧ Interest.hasInterest i (removeI i s) = false)
  ∧ ((∀ x, x ∈ Interest.interests s → x = i) →
       Interest.interests (removeI i s) = ["history"]).
Proof.
  intros [Hne Hval].
  assert (Hkeep : ∀ x, x ∈ List.filter (fun x => bool_decide (x ≠ i)) (Interest.interests s)
                       → x ∈ Interest.VALID_INTERESTS).
  { intros x Hx. apply list_elem_of_In, filter_In in Hx as [Hx _].
    apply Hval. now apply list_elem_of_In. }
  destruct (setInterests_interests
              (List.filter (fun x => bool_decide (x ≠ i)) (Interest.interests s)) s)
    as [H1 H2].
  rewrite (filter_valid_id _ Hkeep) in H1, H2.
  split.
  - intros (x & Hx & Hxi).
    assert (Hnn : List.filter (fun x => bool_decide (x ≠ i)) (Interest.interests s) ≠ []).
    { intros E. assert (Hin : In x (List.filter (fun x => bool_decide (x ≠ i))
                                      (Interest.interests s))).
      { apply filter_In. split; [now apply list_elem_of_In|].
        now apply bool_decide_eq_true. }
      rewrite E in Hin. exact Hin. }
    unfold Interest.removeInterest. rewrite (H1 Hnn). split; [reflexivity|].
    unfold Interest.hasInterest, includes. fold (removeI i s).
    unfold Interest.removeInterest. rewrite (H1 Hnn).
    apply bool_decide_eq_false. intros Hi.
    apply list_elem_of_In, filter_In in Hi as [_ Hi].
    apply bool_decide_eq_true in Hi. now apply Hi.
  - intros Hall. unfold Interest.removeInterest. apply H2.
    destruct (List.filter _ _) as [|x l] eqn:E; [reflexivity|].
    assert (Hin : In x (List.filter (fun x => bool_decide (x ≠ i)) (Interest.interests s))).
    { rewrite E. now left. }
    apply filter_In in Hin as [Hin Hx]. apply bool_decide_eq_true in Hx.
    exfalso. apply Hx, Hall. now apply list_elem_of_In.
Qed.

Lemma filter_ne_app_absent (l : list string) (i : string) :
  i ∉ l → List.filter (fun x => bool_decide (x ≠ i)) (l ++ [i]) = l.
Proof.
  induction l as [|y l IH]; intros H; cbn.
  - now rewrite bool_decide_eq_false_2 by (intros H'; now apply H').
  - apply not_elem_of_cons in H as [Hy Hl].
    rewrite bool_decide_eq_true_2 by congruence. f_equal. now apply IH.
Qed.

(** X19. Adding a known interest that is new puts it last, so the primary interest
    stays the same, and toggling it twice gives back the list as it was.  An
    unknown interest is never added. *)
Theorem addInterest_goes_last (i : string) (s : Interest.state) :
  Interest.wellFormed s →
  i ∉ Interest.interests s →
  (i ∈ Interest.VALID_INTERESTS →
     Interest.interests (addI i s) = Interest.interests s ++ [i]
     ∧ Interest.getPrimaryInterest (addI i s) = Interest.getPrimaryInterest s
     ∧ Interest.interests (toggleI i (toggleI i s)) = Interest.interests s)
  ∧ (i ∉ Interest.VALID_INTERESTS →
       Interest.interests (addI i s) = Interest.interests s).
Proof.
  intros [Hne Hval] Hi.
  assert (Hadd : Interest.addInterest p i s = setI (Interest.interests s ++ [i]) s).
  { unfold Interest.addInterest, includes. now rewrite bool_decide_eq_false_2. }
  split.
  - intros Hv.
    assert (Hall : ∀ x, x ∈ Interest.interests s ++ [i] → x ∈ Interest.VALID_INTERESTS).
    { intros x [Hx|Hx]%elem_of_app; [now apply Hval|].
      now apply list_elem_of_singleton in Hx as ->. }
    destruct (setInterests_interests (Interest.interests s ++ [i]) s) as [H1 _].
    rewrite (filter_valid_id _ Hall) in H1.
    assert (E : Interest.interests (addI i s) = Interest.interests s ++ [i]).
    { rewrite Hadd. apply H1. destruct (Interest.interests s); discriminate. }
    split; [exact E|]. split.
    + unfold Interest.getPrimaryInterest. rewrite E.
      destruct (Interest.interests s); [congruence | reflexivity].
    + assert (Ht : toggleI i s = addI i s).
      { unfold Interest.toggleInterest, Interest.hasInterest, includes.
        now rewrite bool_decide_eq_false_2. }
      rewrite Ht. unfold Interest.toggleInterest, Interest.hasInterest, includes.
      rewrite bool_decide_eq_true_2
        by (rewrite E; apply elem_of_app; right; apply list_elem_of_singleton; reflexivity).
      unfold Interest.removeInterest. rewrite E, (filter_ne_app_absent _ _ Hi).
      destruct (setInterests_interests (Interest.interests s) (addI i s)) as [H2 _].
      rewrite (filter_valid_id _ Hval) in H2. now apply H2.
  - intros Hnv. rewrite Hadd.
    destruct (setInterests_interests (Interest.interests s ++ [i]) s) as [H1 _].
    assert (Hf : List.filter (fun x => includes Interest.VALID_INTERESTS x)
                   (Interest.interests s ++ [i]) = Interest.interests s).
    { rewrite List.filter_app, (filter_valid_id _ Hval). cbn -[Interest.VALID_INTERESTS].
      unfold includes. rewrite bool_decide_eq_false_2 by assumption.
      apply app_nil_r. }
    rewrite Hf in H1. now apply H1.
Qed.

End InterestMore.

Lemma removeInterest_falls_back_to_history_witness :
  let s := Interest.setInterests demoPlatform ["food"] (Interest.create demoPlatform false None) in
  Interest.interests (Interest.removeInterest demoPlatform "food" s) = ["history"].
Proof.
  intros s.
  apply (removeInterest_falls_back_to_history demoPlatform "food" s).
  - apply setInterests_wellFormed.
  - intros x Hx. change (x ∈ ["food"]) in Hx. now apply list_elem_of_singleton in Hx.
Defined.

Lemma addInterest_goes_last_witness :
  let s := Interest.create demoPlatform false None in
  Interest.interests (Interest.addInterest demoPlatform "food" s) = ["history"; "food"]
  ∧ Interest.interests (Interest.addInterest demoPlatform "sports" s) = ["history"].
Proof.
  intros s.
  assert (Hwf : Interest.wellFormed s).
  { split; [discriminate|]. intros i Hi. change (i ∈ ["history"]) in Hi.
    apply list_elem_of_singleton in Hi as ->. left. }
  split.
  - apply (addInterest_goes_last demoPlatform "food" s Hwf).
    + change ("food" ∉ ["history"]). intros H. apply list_elem_of_singleton in H. discriminate H.
    + right. right. left.
  - apply (addInterest_goes_last demoPlatform "sports" s Hwf).
    + change ("sports" ∉ ["history"]). intros H. apply list_elem_of_singleton in H.
      discriminate H.
    + unfold Interest.VALID_INTERESTS. intros H.
      repeat (apply elem_of_cons in H as [H|H]; [discriminate H|]).
      now apply elem_of_nil in H.
Defined.

(** ** The memory of explained landmarks *)

Lemma insertBy_Permutation {A : Type} (cmp : A → A → Q) (x : A) (l : list A) :
  insertBy cmp x l ≡ₚ x :: l.
Proof.
  induction l as [|y l IH]; cbn; [reflexivity|].
  destruct (Qle_bool (cmp x y) 0); [reflexivity|].
  rewrite IH. apply Permutation_swap.
Qed.

Lemma sort_Permutation {A : Type} (cmp : A → A → Q) (l : list A) : sort cmp l ≡ₚ l.
Proof.
  induction l as [|x l IH]; [reflexivity|].
  change (sort cmp (x :: l)) with (insertBy cmp x (sort cmp l)).
  now rewrite insertBy_Permutation, IH.
Qed.

Lemma findIndex_Some {A : Type} (f : A → bool) (l : list A) (i : nat) :
  Memory.findIndex f l = Some i →
  ∃ x, l !! i = Some x ∧ f x = true ∧ ∀ j y, (j < i)%nat → l !! j = Some y → f y = false.
Proof.
  revert i. induction l as [|y l IH]; intros i; cbn; [discriminate|].
  destruct (f y) eqn:Hy.
  - intros [= <-]. exists y. repeat split; [exact Hy|]. intros j z Hj. lia.
  - destruct (Memory.findIndex f l) as [k|]; [|discriminate]. cbn. intros [= <-].
    destruct (IH k eq_refl) as (x & Hx & Hfx & Hfirst). exists x.
    repeat split; [exact Hx | exact Hfx|].
    intros [|j] z Hj; cbn; [now intros [= <-] | apply Hfirst; lia].
Qed.

Lemma findIndex_None {A : Type} (f : A → bool) (l : list A) :
  Memory.findIndex f l = None → ∀ x, x ∈ l → f x = false.
Proof.
  induction l as [|y l IH]; cbn; [intros _ x Hx; now apply elem_of_nil in Hx|].
  destruct (f y) eqn:Hy; [discriminate|].
  destruct (Memory.findIndex f l); [discriminate|].
  intros _ x [->|Hx]%elem_of_cons; [exact Hy | now apply IH].
Qed.

Lemma find_insert_first {A : Type} (f : A → bool) (l : list A) (i : nat) (new : A) :
  Memory.findIndex f l = Some i → f new = true →
  List.find f (<[i := new]> l) = Some new.
Proof.
  revert i. induction l as [|y l IH]; intros i; cbn; [discriminate|].
  destruct (f y) eqn:Hy.
  - intros [= <-] Hn. cbn. now rewrite Hn.
  - destruct (Memory.findIndex f l) as [k|] eqn:E; [|discriminate]. cbn.
    intros [= <-] Hn. cbn. rewrite Hy. now apply IH.
Qed.

Lemma find_app_last {A : Type} (f : A → bool) (l : list A) (new : A) :
  (∀ x, x ∈ l → f x = false) → f new = true → List.find f (l ++ [new]) = Some new.
Proof.
  intros H Hn. induction l as [|y l IH]; cbn; [now rewrite Hn|].
  rewrite (H y) by left. apply IH. intros x Hx. apply H. now right.
Qed.

Lemma existsb_ext_in {A : Type} (f g : A → bool) (l : list A) :
  (∀ x, x ∈ l → f x = g x) → existsb f l = existsb g l.
Proof.
  induction l as [|y l IH]; intros H; [reflexivity|]. cbn.
  rewrite (H y) by left. f_equal. apply IH. intros x Hx. apply H. now right.
Qed.

Section MemoryMore.

Variable p : Platform.
Variable getTime : string → Z.

Local Abbreviation all := (Memory.getAllMemories p).
Local Abbreviation save := (Memory.saveMemory p getTime).
Local Abbreviation saved := (Memory.savedMemories getTime).
Local Abbreviation has := (Memory.hasMemory p).
Local Abbreviation idOf := Memory.landmarkId.

Local Abbreviation merged := Memory.merged.

Lemma saved_merged memory memories :
  saved memory memories =
    if (Memory.MAX_MEMORIES <? length (merged memory memories))%nat
    then take Memory.MAX_MEMORIES
           (sort (fun a b => inject_Z (getTime (Memory.lastViewedAt b)
                                       - getTime (Memory.lastViewedAt a)))
                 (merged memory memories))
    else merged memory memories.
Proof. reflexivity. Qed.

Lemma merged_ids memory memories :
  (List.map idOf (merged memory memories) = List.map idOf memories
   ∧ idOf memory ∈ List.map idOf memories)
  ∨ (List.map idOf (merged memory memories) = List.map idOf memories ++ [idOf memory]
     ∧ idOf memory ∉ List.map idOf memories).
Proof.
  unfold merged.
  destruct (Memory.findIndex _ memories) as [i|] eqn:E.
  - left. apply findIndex_Some in E as (x & Hx & Hfx & _).
    apply bool_decide_eq_true in Hfx. rewrite Hx. split.
    + change (List.map idOf) with (fmap (M:=list) idOf).
      rewrite list_fmap_insert. cbn. rewrite <- Hfx.
      apply list_insert_id. now rewrite list_lookup_fmap, Hx.
    + rewrite <- Hfx. apply list_elem_of_In, in_map, list_elem_of_In.
      eapply list_elem_of_lookup_2; eauto.
  - right. split; [now rewrite List.map_app|].
    intros Hin. apply list_elem_of_In, in_map_iff in Hin as (x & Hx & Hin).
    apply list_elem_of_In in Hin.
    pose proof (findIndex_None _ _ E x Hin) as Hf. cbn in Hf.
    apply bool_decide_eq_false in Hf. contradiction.
Qed.

Lemma merged_elements memory memories m :
  m ∈ merged memory memories → idOf m = idOf memory ∨ m ∈ memories.
Proof.
  unfold merged. destruct (Memory.findIndex _ memories) as [i|] eqn:E.
  - destruct (memories !! i) as [x|] eqn:Hx; [|auto].
    intros Hm. apply list_elem_of_lookup in Hm as [j Hj].
    destruct (decide (i = j)) as [->|Hne].
    + rewrite list_lookup_insert_eq in Hj by (eapply lookup_lt_Some; eauto).
      injection Hj as <-. now left.
    + rewrite list_lookup_insert_ne in Hj by assumption.
      right. eapply list_elem_of_lookup_2; eauto.
  - intros [Hm|Hm]%elem_of_app; [now right|].
    apply list_elem_of_singleton in Hm as ->. now left.
Qed.

(** X20. In a browser, after [saveMemory] the store never holds more than
    [MAX_MEMORIES] entries, holds one entry per landmark if it did before, and
    holds nothing but entries it held before and the entry of the saved
    landmark. *)
Theorem saveMemory_bounded_one_per_landmark
  (memory : Memory.AIMemory) (st : Memory.store) :
  isBrowser p = true →
  (length (all (save memory st)) <= Memory.MAX_MEMORIES)%nat
  ∧ (NoDup (List.map idOf (all st)) → NoDup (List.map idOf (all (save memory st))))
  ∧ ∀ m, m ∈ all (save memory st) → idOf m = idOf memory ∨ m ∈ all st.
Proof.
  intros Hb.
  assert (Hall : all (save memory st) = saved memory (all st)).
  { unfold Memory.saveMemory, Memory.getAllMemories. now rewrite Hb. }
  rewrite Hall, saved_merged.
  set (cmp := fun a b => inject_Z (getTime (Memory.lastViewedAt b)
                                   - getTime (Memory.lastViewedAt a))).
  split; [|split].
  - destruct (Nat.ltb_spec Memory.MAX_MEMORIES (length (merged memory (all st)))).
    + rewrite length_take. lia.
    + lia.
  - intros Hnd.
    assert (Hm : NoDup (List.map idOf (merged memory (all st)))).
    { destruct (merged_ids memory (all st)) as [[-> _]|[-> Hn]]; [exact Hnd|].
      apply NoDup_app. split; [exact Hnd|]. split.
      - intros x Hx ->%list_elem_of_singleton. contradiction.
      - apply NoDup_singleton. }
    destruct (_ <? _)%nat; [|exact Hm].
    change (List.map idOf) with (fmap (M:=list) idOf) in *.
    rewrite fmap_take.
    assert (Hs : NoDup (idOf <$> sort cmp (merged memory (all st)))).
    { eapply NoDup_Permutation_proper; [|exact Hm].
      apply fmap_Permutation, sort_Permutation. }
    rewrite <- (take_drop Memory.MAX_MEMORIES (idOf <$> sort cmp _)) in Hs.
    now apply NoDup_app in Hs as [Hs _].
  - intros m Hm. apply merged_elements.
    destruct (_ <? _)%nat; [|exact Hm].
    apply elem_of_take in Hm as (i & Hi & _).
    apply list_elem_of_lookup_2 in Hi.
    now rewrite sort_Permutation in Hi.
Qed.

(** X21. While the store has room, [saveMemory] makes the landmark remembered
    and leaves every other landmark as it was: a first visit is stored with
    count 1, a repeated visit replaces the entry with the count raised by one
    (an absent or zero count counting as 1) and marks it a follow-up. *)
Theorem saveMemory_remembers (memory : Memory.AIMemory) (st : Memory.store) :
  isBrowser p = true →
  (length (all st) < Memory.MAX_MEMORIES)%nat →
  has (idOf memory) (save memory st) = true
  ∧ (∀ other, other ≠ idOf memory → has other (save memory st) = has other st)
  ∧ Memory.getMemory p (idOf memory) (save memory st)
    = Some (match Memory.getMemory p (idOf memory) st with
            | Some existing =>
                Memory.withCount memory (Memory.viewCountOr1 existing + 1) true
            | None => Memory.withCount memory 1 false
            end).
Proof.
  intros Hb Hroom.
  assert (Hall : all (save memory st) = merged memory (all st)).
  { unfold Memory.saveMemory, Memory.getAllMemories at 1. rewrite Hb. cbn.
    rewrite saved_merged.
    destruct (Nat.ltb_spec Memory.MAX_MEMORIES (length (merged memory (all st))));
      [|reflexivity].
    exfalso.
    assert (Hlen : (length (List.map idOf (merged memory (all st)))
                    <= S (length (all st)))%nat).
    { destruct (merged_ids memory (all st)) as [[-> _]|[-> _]];
        rewrite ?length_app, length_map; cbn; lia. }
    rewrite length_map in Hlen. lia. }
  assert (Hget : Memory.getMemory p (idOf memory) (save memory st)
                 = Some (match Memory.getMemory p (idOf memory) st with
                         | Some existing =>
                             Memory.withCount memory (Memory.viewCountOr1 existing + 1) true
                         | None => Memory.withCount memory 1 false
                         end)).
  { unfold Memory.getMemory. rewrite Hall. unfold merged.
    destruct (Memory.findIndex _ (all st)) as [i|] eqn:E.
    - pose proof (findIndex_Some _ _ _ E) as (x & Hx & Hfx & Hfirst). rewrite Hx.
      assert (Hfind : List.find (fun m => bool_decide (idOf m = idOf memory)) (all st)
                      = Some x).
      { clear Hall Hroom. revert i E Hx Hfirst. generalize (all st).
        induction l as [|y l IH]; intros i E Hx Hfirst; [discriminate|].
        cbn in *. destruct (bool_decide (idOf y = idOf memory)) eqn:Hy.
        - injection E as <-. now injection Hx as <-.
        - destruct (Memory.findIndex _ l) as [k|] eqn:Ek; [|discriminate].
          injection E as <-. apply (IH k eq_refl Hx).
          intros j z Hj Hz. apply (Hfirst (S j) z); [lia | exact Hz]. }
      rewrite Hfind. apply find_insert_first; [exact E|].
      now apply bool_decide_eq_true.
    - assert (Hnone : List.find (fun m => bool_decide (idOf m = idOf memory)) (all st)
                      = None).
      { destruct (List.find _ (all st)) as [x|] eqn:Hf; [|reflexivity].
        apply find_some in Hf as [Hin Hfx]. apply list_elem_of_In in Hin.
        rewrite (findIndex_None _ _ E x Hin) in Hfx. discriminate. }
      rewrite Hnone. apply find_app_last; [exact (findIndex_None _ _ E)|].
      now apply bool_decide_eq_true. }
  split; [|split; [|exact Hget]].
  - unfold Memory.getMemory in Hget. apply find_some in Hget as [Hin Hf].
    unfold Memory.hasMemory. apply existsb_exists. eauto.
  - intros other Hne. unfold Memory.hasMemory. rewrite Hall.
    apply eq_true_iff_eq. rewrite !existsb_exists. split.
    + intros (m & Hm & Hf). apply bool_decide_eq_true in Hf.
      apply list_elem_of_In, merged_elements in Hm as [Hm|Hm]; [congruence|].
      exists m. split; [now apply list_elem_of_In | now apply bool_decide_eq_true].
    + intros (m & Hm & Hf). apply bool_decide_eq_true in Hf.
      assert (Hid : other ∈ List.map idOf (merged memory (all st))).
      { destruct (merged_ids memory (all st)) as [[-> _]|[-> _]].
        - rewrite <- Hf. now apply list_elem_of_In, in_map.
        - apply elem_of_app. left. rewrite <- Hf. now apply list_elem_of_In, in_map. }
      apply list_elem_of_In, in_map_iff in Hid as (m' & Hm' & Hin').
      exists m'. split; [exact Hin' | now apply bool_decide_eq_true].
Qed.

(** X22. [clearMemory] forgets the landmark and only it; [clearAllMemories]
    forgets every landmark.  (Outside a browser nothing is ever remembered.) *)
Theorem clearMemory_forgets_only_that (id other : string) (st : Memory.store) :
  has id (Memory.clearMemory p id st) = false
  ∧ (other ≠ id → has other (Memory.clearMemory p id st) = has other st)
  ∧ has other (Memory.clearAllMemories p st) = false
  ∧ Memory.getMemoryCount p (Memory.clearAllMemories p st) = 0%nat.
Proof.
  unfold Memory.hasMemory, Memory.clearMemory, Memory.clearAllMemories,
    Memory.getMemoryCount, Memory.getAllMemories.
  destruct (isBrowser p); cbn; [|repeat split].
  set (l := match st with Some (Memory.Parsed memories) => memories | _ => [] end).
  repeat split.
  - destruct (existsb _ _) eqn:E; [|reflexivity].
    apply existsb_exists in E as (m & Hm & Hf). apply filter_In in Hm as [_ Hm].
    apply bool_decide_eq_true in Hm, Hf. contradiction.
  - intros Hne. apply eq_true_iff_eq. rewrite !existsb_exists. split.
    + intros (m & Hm & Hf). apply filter_In in Hm as [Hm _]. eauto.
    + intros (m & Hm & Hf). exists m. split; [|exact Hf].
      apply filter_In. split; [exact Hm|]. apply bool_decide_eq_true in Hf.
      apply bool_decide_eq_true. congruence.
Qed.

End MemoryMore.

Lemma saveMemory_bounded_one_per_landmark_witness :
  let st := Memory.saveMemory demoPlatform demoGetTime demoMemory
              (Memory.saveMemory demoPlatform demoGetTime demoMemory None) in
  (Memory.getMemoryCount demoPlatform st <= Memory.MAX_MEMORIES)%nat
  ∧ Memory.getMemoryCount demoPlatform st = 1%nat.
Proof.
  intros st. split; [|reflexivity].
  apply (saveMemory_bounded_one_per_landmark demoPlatform demoGetTime demoMemory
           (Memory.saveMemory demoPlatform demoGetTime demoMemory None)).
  reflexivity.
Defined.

Lemma saveMemory_remembers_witness :
  let once := Memory.saveMemory demoPlatform demoGetTime demoMemory None in
  let twice := Memory.saveMemory demoPlatform demoGetTime demoMemory once in
  Memory.hasMemory demoPlatform "reunion-tower" once = true
  ∧ Memory.viewCount <$> Memory.getMemory demoPlatform "reunion-tower" twice = Some 2%Z.
Proof.
  intros once twice. split.
  - apply (saveMemory_remembers demoPlatform demoGetTime demoMemory None eq_refl).
    cbn. unfold Memory.MAX_MEMORIES. lia.
  - destruct (saveMemory_remembers demoPlatform demoGetTime demoMemory once eq_refl)
      as (_ & _ & H).
    + cbn. unfold Memory.MAX_MEMORIES. lia.
    + fold twice in H. change (Memory.landmarkId demoMemory) with "reunion-tower" in H.
      rewrite H. reflexivity.
Defined.

Lemma clearMemory_forgets_only_that_witness :
  let st := Memory.saveMemory demoPlatform demoGetTime demoMemory None in
  Memory.hasMemory demoPlatform "reunion-tower"
    (Memory.clearMemory demoPlatform "old-red" st) = true.
Proof.
  intros st.
  destruct (clearMemory_forgets_only_that demoPlatform "old-red" "reunion-tower" st)
    as (_ & H & _).
  rewrite H; [reflexivity | discriminate].
Defined.

(** ** Cities *)

Section CityMore.

Variable p : Platform.
Variable demoMode : bool.

Local Abbreviation setCity := (Cities.setActiveCity p demoMode).
Local Abbreviation byId := Cities.getCityById.

Lemma find_by_id_Some (l : list Cities.City) (cityId : string) (c : Cities.City) :
  List.find (fun c => bool_decide (Cities.id c = cityId)) l = Some c →
  c ∈ l ∧ Cities.id c = cityId.
Proof.
  intros H. apply find_some in H as [Hin Hid].
  split; [now apply list_elem_of_In | now apply bool_decide_eq_true in Hid].
Qed.

Lemma setActiveCity_cases (cityId : string) (s : Cities.state) :
  (fst (setCity cityId s) = false ∧ snd (setCity cityId s) = s
   ∧ ¬ ((demoMode = false ∨ cityId = "dallas")
        ∧ ∃ city, byId cityId s = Some city ∧ Cities.isAvailable city = true))
  ∨ (fst (setCity cityId s) = true
     ∧ (demoMode = false ∨ cityId = "dallas")
     ∧ (∃ city, byId cityId s = Some city ∧ Cities.isAvailable city = true)
     ∧ Cities.activeCityId (snd (setCity cityId s)) = cityId
     ∧ Cities.cities (snd (setCity cityId s)) = Cities.cities s
     ∧ Cities.isLoaded (snd (setCity cityId s)) = Cities.isLoaded s
     ∧ (demoMode = false → isBrowser p = true →
        Cities.persistedCity (snd (setCity cityId s)) = Some cityId)).
Proof.
  unfold Cities.setActiveCity.
  destruct demoMode; cbn.
  - case_bool_decide as Hd; cbn.
    + left. repeat split. intros [[H|H] _]; [discriminate | contradiction].
    + destruct (byId cityId s) as [city|] eqn:Hc.
      * destruct (Cities.isAvailable city) eqn:Ha; cbn.
        -- right. repeat split; eauto. discriminate.
        -- left. repeat split. intros (_ & c & [= <-] & Hc'). congruence.
      * left. repeat split. intros (_ & c & Hc' & _). discriminate.
  - destruct (byId cityId s) as [city|] eqn:Hc.
    + destruct (Cities.isAvailable city) eqn:Ha; cbn.
      * right. unfold Cities.persistActiveCity.
        destruct (isBrowser p); cbn; repeat split; eauto; discriminate.
      * left. repeat split. intros (_ & c & [= <-] & Hc'). congruence.
    + left. repeat split. intros (_ & c & Hc' & _). discriminate.
Qed.

(** X23. [setActiveCity] succeeds exactly for a known, available city (and, in
    demo mode, only for Dallas).  A refusal leaves the service as it was; after
    a success the city is the active one, it is available, and outside demo
    mode its id is stored. *)
Theorem setActiveCity_accepts_only_available (cityId : string) (s : Cities.state) :
  (fst (setCity cityId s) = true
   ↔ (demoMode = false ∨ cityId = "dallas")
     ∧ ∃ city, byId cityId s = Some city ∧ Cities.isAvailable city = true)
  ∧ (fst (setCity cityId s) = false → snd (setCity cityId s) = s)
  ∧ (fst (setCity cityId s) = true →
     Cities.activeCityId (snd (setCity cityId s)) = cityId
     ∧ (∃ city, Cities.activeCity (snd (setCity cityId s)) = Some city
                ∧ Cities.id city = cityId ∧ Cities.isAvailable city = true)
     ∧ (demoMode = false → isBrowser p = true →
        Cities.persistedCity (snd (setCity cityId s)) = Some cityId)).
Proof.
  destruct (setActiveCity_cases cityId s)
    as [(Hf & Hs & Hn)|(Ht & Hd & (city & Hc & Ha) & Hid & Hcs & _ & Hp)].
  - rewrite Hf. split; [split; [discriminate | intros H; contradiction]|].
    split; [auto | discriminate].
  - rewrite Ht. split; [split; eauto|]. split; [discriminate|].
    intros _. split; [exact Hid|]. split; [|exact Hp].
    exists city. unfold Cities.activeCity. rewrite Hid, Hcs.
    unfold Cities.getCityById in Hc. rewrite Hc.
    apply find_by_id_Some in Hc as [_ Hc]. auto.
Qed.

Lemma find_by_id_unique (l : list Cities.City) (d : Cities.City) :
  NoDup (List.map Cities.id l) → d ∈ l →
  List.find (fun c => bool_decide (Cities.id c = Cities.id d)) l = Some d.
Proof.
  induction l as [|c l IH]; intros Hnd Hd; [now apply elem_of_nil in Hd|].
  cbn in *. apply NoDup_cons in Hnd as [Hc Hnd].
  apply elem_of_cons in Hd as [->|Hd].
  - now rewrite bool_decide_eq_true_2.
  - rewrite bool_decide_eq_false_2; [now apply IH|].
    intros E. apply Hc. rewrite E. now apply list_elem_of_In, in_map, list_elem_of_In.
Qed.

(** X24. The first successful [loadCities] outside demo mode, on a list without
    repeated ids that has an available city, ends with an available active
    city: the one that was active if it is known and available, the first
    available one otherwise.  A failed request leaves Dallas as the only city.
    Once loaded, [loadCities] changes nothing. *)
Theorem loadCities_active_city_available
  (loaded : list Cities.City) (response : option (list Cities.City)) (s : Cities.state) :
  (demoMode = false → Cities.isLoaded s = false →
   NoDup (List.map Cities.id loaded) →
   (∃ c, c ∈ loaded ∧ Cities.isAvailable c = true) →
   let s' := Cities.loadCities p demoMode (Some loaded) s in
   Cities.isLoaded s' = true ∧ Cities.cities s' = loaded
   ∧ (∃ c, Cities.activeCity s' = Some c ∧ Cities.isAvailable c = true)
   ∧ ((∃ c, List.find (fun c => bool_decide (Cities.id c = Cities.activeCityId s)) loaded
            = Some c ∧ Cities.isAvailable c = true) →
      Cities.activeCityId s' = Cities.activeCityId s))
  ∧ (Cities.isLoaded s = false →
     Cities.cities (Cities.loadCities p demoMode None s) = [Cities.fallbackDallas]
     ∧ Cities.activeCityId (Cities.loadCities p demoMode None s) = Cities.activeCityId s)
  ∧ (Cities.isLoaded s = true → Cities.loadCities p demoMode response s = s).
Proof.
  split; [|split].
  - intros Hdemo Hl Hnd (a & Ha & Hav) s'. subst s'.
    unfold Cities.loadCities. rewrite Hl. cbv zeta.
    cbn [Cities.activeCityId Cities.cities Cities.isLoaded Cities.persistedCity].
    assert (Hfirst : ∃ d, List.find (fun c => Cities.isAvailable c) loaded = Some d
                          ∧ d ∈ loaded ∧ Cities.isAvailable d = true).
    { destruct (List.find (fun c => Cities.isAvailable c) loaded) as [d|] eqn:Hd.
      - exists d. apply find_some in Hd as [Hdin Hdav].
        apply list_elem_of_In in Hdin. auto.
      - exfalso. apply list_elem_of_In in Ha.
        pose proof (find_none _ _ Hd a Ha) as Hn. cbn in Hn. congruence. }
    destruct Hfirst as (d & Hd & Hdin & Hdav).
    assert (Hfallback :
      ∀ s0, Cities.cities s0 = loaded → Cities.isLoaded s0 = true →
        let s1 := snd (Cities.setActiveCity p demoMode (Cities.id d) s0) in
        Cities.isLoaded s1 = true ∧ Cities.cities s1 = loaded
        ∧ ∃ c, Cities.activeCity s1 = Some c ∧ Cities.isAvailable c = true).
    { intros s0 Hs0 Hl0 s1. subst s1.
      destruct (setActiveCity_cases (Cities.id d) s0)
        as [(_ & _ & Hn)|(_ & _ & _ & Hid & Hcs & Hld & _)].
      - exfalso. apply Hn. split; [now left|]. exists d.
        unfold Cities.getCityById. rewrite Hs0. split; [|exact Hdav].
        now apply find_by_id_unique.
      - rewrite Hld, Hcs. split; [exact Hl0|]. split; [exact Hs0|].
        exists d. unfold Cities.activeCity. rewrite Hid, Hcs, Hs0.
        split; [now apply find_by_id_unique | exact Hdav]. }
    destruct (List.find (fun c => bool_decide (Cities.id c = Cities.activeCityId s)) loaded)
      as [c|] eqn:Hfind.
    + destruct (Cities.isAvailable c) eqn:Hc; cbn [negb].
      * cbn. split; [reflexivity|]. split; [reflexivity|]. split; [|reflexivity].
        exists c. unfold Cities.activeCity. cbn. now rewrite Hfind.
      * rewrite Hd.
        match goal with |- context[Cities.setActiveCity p demoMode _ ?s0] =>
          destruct (Hfallback s0 eq_refl eq_refl) as (H1 & H2 & H3) end.
        split; [exact H1|]. split; [exact H2|]. split; [exact H3|].
        intros (c' & [= <-] & Hc'). congruence.
    + cbn [negb]. rewrite Hd.
      match goal with |- context[Cities.setActiveCity p demoMode _ ?s0] =>
        destruct (Hfallback s0 eq_refl eq_refl) as (H1 & H2 & H3) end.
      split; [exact H1|]. split; [exact H2|]. split; [exact H3|].
      intros (c' & Hc' & _). discriminate.
  - intros Hl. unfold Cities.loadCities. rewrite Hl. split; reflexivity.
  - intros Hl. unfold Cities.loadCities. now rewrite Hl.
Qed.

(** X25. A tap on a city card changes something only when the city is selected:
    a refusal (unknown, announced, premium for a free user, locked by demo
    mode) leaves the city service and the walk untouched, and asks for the
    paywall only for a premium city and a free user.  A selection makes the
    city active; the walk is reset by [onCityChanged] when the city differs
    from the one the walk is in, and left alone when it is the same. *)
Theorem selectCity_disturbs_walk_only_on_change
  (city : Cities.City) (isPremiumUser : bool) (s : Cities.state) (walk : WalkModeService) :
  let result := Cities.selectCity p demoMode city isPremiumUser (s, walk) in
  let sel := fst result in
  let s' := fst (snd result) in
  let walk' := snd (snd result) in
  (Cities.citySelected sel = false → s' = s ∧ walk' = walk)
  ∧ (Cities.citySelected sel = true →
     Cities.activeCityId s' = Cities.id city
     ∧ (∃ c, byId (Cities.id city) s = Some c ∧ Cities.isAvailable c = true
             ∧ (Cities.isPremium c = true → isPremiumUser = true))
     ∧ (Cities.id city = currentCityId walk → walk' = walk)
     ∧ (Cities.id city ≠ currentCityId walk →
        walk' = onCityChanged p (Cities.id city) walk))
  ∧ (Cities.showPaywall sel = true →
     Cities.citySelected sel = false ∧ isPremiumUser = false
     ∧ ∃ c, byId (Cities.id city) s = Some c ∧ Cities.isAvailable c = true
            ∧ Cities.isPremium c = true).
Proof.
  cbn zeta. unfold Cities.selectCity, Cities.canSelectCity.
  destruct (byId (Cities.id city) s) as [c|] eqn:Hc; cbn; [|repeat split; discriminate].
  destruct (Cities.isAvailable c) eqn:Ha; cbn; [|repeat split; discriminate].
  destruct (Cities.isPremium c) eqn:Hp, isPremiumUser; cbn.
  2: { repeat split; try discriminate. eauto. }
  all: destruct (setActiveCity_cases (Cities.id city) s)
         as [(Hf & Hs & _)|(Ht & _ & _ & Hid & Hcs & _ & _)];
       destruct (setCity (Cities.id city) s) as [ok s1]; cbn in *; subst ok; cbn.
  all: try (repeat split; try discriminate; auto; fail).
  all: split; [discriminate|]; split; [|discriminate]; intros _.
  all: assert (Hact : Cities.id <$> Cities.activeCity s1 = Some (Cities.id city))
         by (unfold Cities.activeCity; rewrite Hid, Hcs;
             unfold Cities.getCityById in Hc; rewrite Hc; cbn; f_equal;
             now apply find_by_id_Some in Hc).
  all: rewrite Hact; unfold cityEffect.
  all: split; [exact Hid|]; split; [exists c; repeat split; auto; congruence|].
  all: split; intros E;
       [rewrite bool_decide_eq_false_2 by (intros H'; now apply H'); reflexivity
       | now rewrite bool_decide_eq_true_2].
Qed.

End CityMore.

Lemma setActiveCity_accepts_only_available_witness :
  let s := Cities.loadCities demoPlatform false (Some demoCities)
             (Cities.create demoPlatform false None) in
  Cities.setActiveCity demoPlatform false "austin" s = (false, s).
Proof.
  intros s.
  destruct (setActiveCity_accepts_only_available demoPlatform false "austin" s)
    as (_ & H & _).
  rewrite <- (H eq_refl) at 2. reflexivity.
Defined.

Lemma loadCities_active_city_available_witness :
  let s := Cities.create demoPlatform false (Some "austin") in
  Cities.activeCityId s = "austin"
  ∧ Cities.activeCityId (Cities.loadCities demoPlatform false (Some demoCities) s) = "dallas"
  ∧ ∃ c, Cities.activeCity (Cities.loadCities demoPlatform false (Some demoCities) s)
         = Some c ∧ Cities.isAvailable c = true.
Proof.
  intros s. split; [reflexivity|]. split; [reflexivity|].
  destruct (loadCities_active_city_available demoPlatform false demoCities None s)
    as (H & _).
  apply H; try reflexivity.
  - repeat constructor; cbn.
    + intros Hin. apply list_elem_of_singleton in Hin. discriminate Hin.
    + apply not_elem_of_nil.
  - exists Cities.fallbackDallas. split; [left | reflexivity].
Defined.

Lemma selectCity_disturbs_walk_only_on_change_witness :
  let s := Cities.loadCities demoPlatform false (Some demoCities)
             (Cities.create demoPlatform false None) in
  let austin := {| Cities.id := "austin"; Cities.name := "Austin"; Cities.country := "USA";
                   Cities.centerLat := 302672 # 10000;
                   Cities.centerLng := - (977431 # 10000);
                   Cities.isAvailable := false; Cities.isPremium := true |} in
  snd (snd (Cities.selectCity demoPlatform false austin false (s, walking))) = walking.
Proof.
  intros s austin.
  pose proof (selectCity_disturbs_walk_only_on_change
                demoPlatform false austin false s walking) as H.
  cbv zeta in H. destruct H as (H & _). apply H. reflexivity.
Defined.

(** ** The paywall trigger *)

Section PaywallMore.

Variable p : Platform.
Variable getTime : string → option Z.
Variable toISOString : Z → string.

Local Abbreviation pwStep := (Paywall.step p).
Local Abbreviation pwRun := (Paywall.run p).
Local Abbreviation showPaywallNow := (Paywall.shouldShowPaywall getTime).

Lemma saveEngagement_engagement (s : Paywall.state) :
  Paywall.engagement (Paywall.saveEngagement p s) = Paywall.engagement s.
Proof.
  unfold Paywall.saveEngagement. destruct (isBrowser p); reflexivity.
Qed.

Lemma saveEngagement_stored (s : Paywall.state) :
  isBrowser p = true →
  Paywall.localStorage (Paywall.saveEngagement p s)
  = Some (Paywall.Parsed (Paywall.engagement s)).
Proof.
  intros Hb. unfold Paywall.saveEngagement. rewrite Hb. reflexivity.
Qed.

Lemma step_lastPaywallShown (s : Paywall.state) (o : Paywall.Op) :
  Paywall.lastPaywallShown (Paywall.engagement (pwStep s o))
  = Paywall.lastPaywallShown (Paywall.engagement s).
Proof.
  destruct o; cbn;
    unfold Paywall.trackExplanationView, Paywall.trackTourPreviewComplete,
      Paywall.trackARSessionTime, Paywall.resetSessionEngagement;
    rewrite saveEngagement_engagement; reflexivity.
Qed.

Lemma step_stored (s : Paywall.state) (o : Paywall.Op) :
  isBrowser p = true →
  Paywall.localStorage (pwStep s o) = Some (Paywall.Parsed (Paywall.engagement (pwStep s o))).
Proof.
  intros Hb.
  destruct o; cbn;
    unfold Paywall.trackExplanationView, Paywall.trackTourPreviewComplete,
      Paywall.trackARSessionTime, Paywall.resetSessionEngagement;
    rewrite saveEngagement_engagement, saveEngagement_stored by exact Hb; reflexivity.
Qed.

Lemma run_lastPaywallShown (ops : list Paywall.Op) (s : Paywall.state) :
  Paywall.lastPaywallShown (Paywall.engagement (pwRun ops s))
  = Paywall.lastPaywallShown (Paywall.engagement s).
Proof.
  revert s. induction ops as [|o ops IH]; intros s; [reflexivity|].
  cbn. unfold Paywall.run in IH. rewrite IH. apply step_lastPaywallShown.
Qed.

Lemma run_stored (ops : list Paywall.Op) (s : Paywall.state) :
  isBrowser p = true →
  Paywall.localStorage s = Some (Paywall.Parsed (Paywall.engagement s)) →
  Paywall.localStorage (pwRun ops s)
  = Some (Paywall.Parsed (Paywall.engagement (pwRun ops s))).
Proof.
  intros Hb. revert s. induction ops as [|o ops IH]; intros s Hs; [exact Hs|].
  cbn. apply IH. now apply step_stored.
Qed.

Lemma cooldown_blocks (hitDailyLimit : bool) (now t : Z) (s : Paywall.state) :
  Paywall.lastPaywallShown (Paywall.engagement s) = Some (toISOString t) →
  getTime (toISOString t) = Some t →
  toISOString t ≠ "" →
  (now - t < Paywall.PAYWALL_COOLDOWN_MS)%Z →
  showPaywallNow hitDailyLimit now s = None.
Proof.
  intros Hl Hg Hne Hlt.
  unfold Paywall.shouldShowPaywall, Paywall.isOnCooldown.
  rewrite Hl, Hg, (bool_decide_eq_false_2 _ Hne), (bool_decide_eq_true_2 _ Hlt).
  reflexivity.
Qed.

(** X26. Once a paywall has been shown at time [t], none is due before five minutes
    have passed, whatever engagement is recorded and however often the session
    engagement is reset in between; in a browser this also holds for the
    service created anew from the stored state. *)
Theorem paywall_cooldown_survives_engagement
  (reason : Paywall.PaywallTriggerReason) (t now : Z) (hitDailyLimit : bool)
  (ops : list Paywall.Op) (s : Paywall.state) :
  getTime (toISOString t) = Some t →
  toISOString t ≠ "" →
  (now - t < Paywall.PAYWALL_COOLDOWN_MS)%Z →
  let s' := pwRun ops (Paywall.recordPaywallShown p toISOString reason t s) in
  showPaywallNow hitDailyLimit now s' = None
  ∧ (isBrowser p = true →
     showPaywallNow hitDailyLimit now (Paywall.create p (Paywall.localStorage s')) = None).
Proof.
  intros Hg Hne Hlt s'.
  assert (Hshown : Paywall.lastPaywallShown (Paywall.engagement s') = Some (toISOString t)).
  { subst s'. rewrite run_lastPaywallShown. unfold Paywall.recordPaywallShown.
    rewrite saveEngagement_engagement. reflexivity. }
  split; [now apply cooldown_blocks with t|].
  intros Hb. apply cooldown_blocks with t; auto.
  assert (Hst : Paywall.localStorage s' = Some (Paywall.Parsed (Paywall.engagement s'))).
  { subst s'. apply run_stored; [exact Hb|].
    unfold Paywall.recordPaywallShown.
    rewrite saveEngagement_engagement, saveEngagement_stored by exact Hb. reflexivity. }
  rewrite Hst. unfold Paywall.create, Paywall.loadEngagement. rewrite Hb. cbn.
  exact Hshown.
Qed.

(** X27. A paywall is due only outside the cooldown and after some engagement: a
    completed tour preview, a viewed explanation or three minutes of AR.  The
    reason is never [manual]; it is [daily_limit] only when the limit was hit
    with exactly one explanation viewed and no other engagement; and it is an
    optimal trigger exactly when a tour preview was completed or two
    explanations were viewed. *)
Theorem shouldShowPaywall_needs_engagement
  (hitDailyLimit : bool) (now : Z) (s : Paywall.state) (reason : Paywall.PaywallTriggerReason) :
  showPaywallNow hitDailyLimit now s = Some reason →
  let e := Paywall.engagement s in
  Paywall.isOnCooldown getTime now s = false
  ∧ reason ≠ Paywall.manual
  ∧ ((1 <= Paywall.tourPreviewsCompleted e)%Z ∨ (1 <= Paywall.explanationsViewed e)%Z
     ∨ 3 <= Paywall.arSessionMinutes e)
  ∧ (reason = Paywall.daily_limit →
     hitDailyLimit = true ∧ Paywall.explanationsViewed e = 1%Z
     ∧ (Paywall.tourPreviewsCompleted e < 1)%Z ∧ Paywall.arSessionMinutes e < 3)
  ∧ (Paywall.isOptimalTrigger reason = true
     ↔ (1 <= Paywall.tourPreviewsCompleted e)%Z ∨ (2 <= Paywall.explanationsViewed e)%Z).
Proof.
  unfold Paywall.shouldShowPaywall. cbv zeta.
  destruct (Paywall.isOnCooldown getTime now s); [discriminate|].
  destruct (bool_decide (Paywall.tourPreviewsCompleted _ >= 1)%Z) eqn:Ht.
  { apply bool_decide_eq_true in Ht. intros [= <-].
    repeat split; try discriminate; try (left; lia). }
  apply bool_decide_eq_false in Ht.
  destruct (bool_decide (Paywall.explanationsViewed _ >= 2)%Z) eqn:He.
  { apply bool_decide_eq_true in He. intros [= <-].
    repeat split; try discriminate; try (right; left; lia); try (right; lia). }
  apply bool_decide_eq_false in He.
  destruct (Qle_bool 3 (Paywall.arSessionMinutes _)) eqn:Ha.
  { apply Qle_bool_iff in Ha. intros [= <-].
    repeat split; try discriminate; try (right; right; exact Ha).
    cbn. intros [H|H]; lia. }
  destruct hitDailyLimit; cbn; [|discriminate].
  destruct (bool_decide (Paywall.explanationsViewed _ >= 1)%Z) eqn:He1; [|discriminate].
  apply bool_decide_eq_true in He1. intros [= <-].
  assert (Hlt : Paywall.arSessionMinutes (Paywall.engagement s) < 3).
  { apply Qnot_le_lt. intros H. apply Qle_bool_iff in H. congruence. }
  repeat split; try discriminate; try lia; try exact Hlt; try (right; left; lia).
Qed.

(** Right after [resetSessionEngagement] no paywall is due, not even at the
    daily limit; after the first explanation of the new session one is due
    exactly when the daily limit was hit and the cooldown is over. *)
Theorem new_session_shows_no_paywall_before_engagement
  (hitDailyLimit : bool) (now : Z) (s : Paywall.state) :
  showPaywallNow hitDailyLimit now (Paywall.resetSessionEngagement p s) = None
  ∧ showPaywallNow hitDailyLimit now
      (Paywall.trackExplanationView p (Paywall.resetSessionEngagement p s))
    = if hitDailyLimit && negb (Paywall.isOnCooldown getTime now s)
      then Some Paywall.daily_limit else None.
Proof.
  unfold Paywall.shouldShowPaywall, Paywall.isOnCooldown,
    Paywall.trackExplanationView, Paywall.resetSessionEngagement.
  rewrite !saveEngagement_engagement. cbn.
  destruct (Paywall.lastPaywallShown (Paywall.engagement s)) as [l|]; cbn.
  - destruct (bool_decide (l = "")); cbn.
    + destruct hitDailyLimit; split; reflexivity.
    + destruct (getTime l) as [t|]; cbn.
      * destruct (bool_decide (now - t < Paywall.PAYWALL_COOLDOWN_MS)%Z); cbn;
          destruct hitDailyLimit; split; reflexivity.
      * destruct hitDailyLimit; split; reflexivity.
  - destruct hitDailyLimit; split; reflexivity.
Qed.

End PaywallMore.

Lemma paywall_cooldown_survives_engagement_witness :
  let s := Paywall.create demoPlatform None in
  let shown := Paywall.recordPaywallShown demoPlatform demoToISOString
                 Paywall.high_engagement demoInstant s in
  let later := Paywall.run demoPlatform
                 [Paywall.ResetSessionEngagement; Paywall.TrackTourPreviewComplete] shown in
  Paywall.shouldShowPaywall demoParseTime true (demoInstant + 299999) later = None
  ∧ Paywall.shouldShowPaywall demoParseTime true (demoInstant + 300000) later
    = Some Paywall.tour_preview_complete.
Proof.
  intros s shown later. split; [|reflexivity].
  assert (Hparse : demoParseTime (demoToISOString demoInstant) = Some demoInstant)
    by reflexivity.
  assert (Htext : demoToISOString demoInstant ≠ "") by discriminate.
  assert (Hsoon : (demoInstant + 299999 - demoInstant < Paywall.PAYWALL_COOLDOWN_MS)%Z)
    by reflexivity.
  pose proof (paywall_cooldown_survives_engagement demoPlatform demoParseTime
                demoToISOString Paywall.high_engagement demoInstant
                (demoInstant + 299999) true
                [Paywall.ResetSessionEngagement; Paywall.TrackTourPreviewComplete] s
                Hparse Htext Hsoon) as H.
  cbv zeta in H. destruct H as (H & _). exact H.
Defined.

Lemma shouldShowPaywall_needs_engagement_witness :
  let s := Paywall.trackExplanationView demoPlatform (Paywall.create demoPlatform None) in
  Paywall.shouldShowPaywall demoParseTime true demoInstant s = Some Paywall.daily_limit
  ∧ Paywall.explanationsViewed (Paywall.engagement s) = 1%Z.
Proof.
  intros s. split; [reflexivity|].
  pose proof (shouldShowPaywall_needs_engagement demoParseTime true demoInstant s
                Paywall.daily_limit eq_refl) as H.
  cbv zeta in H. destruct H as (_ & _ & _ & H & _).
  destruct (H eq_refl) as (_ & H1 & _). exact H1.
Defined.

(** ** Sorted output and stability of [sort] *)

Section SortMore.

Context {A : Type} (cmp : A → A → Q).

Lemma elem_of_insertBy (x y : A) (l : list A) :
  y ∈ insertBy cmp x l ↔ y = x ∨ y ∈ l.
Proof.
  rewrite insertBy_Permutation. apply elem_of_cons.
Qed.

Lemma elem_of_sort (y : A) (l : list A) : y ∈ sort cmp l ↔ y ∈ l.
Proof.
  now rewrite sort_Permutation.
Qed.

Lemma insertBy_elem_of (x y : A) (l : list A) :
  y ∈ insertBy cmp x l → y = x ∨ y ∈ l.
Proof.
  apply elem_of_insertBy.
Qed.

Lemma sort_elem_of (y : A) (l : list A) : y ∈ sort cmp l → y ∈ l.
Proof.
  apply elem_of_sort.
Qed.

Lemma insertBy_StronglySorted (R : A → A → Prop) (x : A) (l : list A) :
  (∀ y, y ∈ l → Qle_bool (cmp x y) 0 = true → R x y) →
  (∀ y, y ∈ l → Qle_bool (cmp x y) 0 = false → R y x) →
  (∀ y z, y ∈ l → z ∈ l → R x y → R y z → R x z) →
  StronglySorted R l → StronglySorted R (insertBy cmp x l).
Proof.
  intros Hle Hgt Htr Hs. induction Hs as [|y l Hs IH Hy].
  - cbn. constructor; constructor.
  - cbn. destruct (Qle_bool (cmp x y) 0) eqn:E.
    + constructor; [now constructor|].
      assert (Hxy : R x y) by (apply Hle; [left | exact E]).
      constructor; [exact Hxy|].
      apply Forall_forall. intros z Hz.
      apply Htr with y; [left | now right | exact Hxy |].
      rewrite Forall_forall in Hy. now apply Hy.
    + constructor.
      * apply IH.
        -- intros z Hz. apply Hle. now right.
        -- intros z Hz. apply Hgt. now right.
        -- intros z w Hz Hw. apply Htr; now right.
      * apply Forall_forall. intros z [->|Hz]%insertBy_elem_of.
        -- apply Hgt; [left | exact E].
        -- rewrite Forall_forall in Hy. now apply Hy.
Qed.

Lemma sort_StronglySorted (R : A → A → Prop) (l : list A) :
  (∀ a b, a ∈ l → b ∈ l → Qle_bool (cmp a b) 0 = true → R a b) →
  (∀ a b, a ∈ l → b ∈ l → Qle_bool (cmp a b) 0 = false → R b a) →
  (∀ a b c, a ∈ l → b ∈ l → c ∈ l → R a b → R b c → R a c) →
  StronglySorted R (sort cmp l).
Proof.
  induction l as [|x l IH]; intros Hle Hgt Htr; [constructor|].
  change (sort cmp (x :: l)) with (insertBy cmp x (sort cmp l)).
  apply insertBy_StronglySorted.
  - intros y Hy%sort_elem_of. apply Hle; [left | now right].
  - intros y Hy%sort_elem_of. apply Hgt; [left | now right].
  - intros y z Hy%sort_elem_of Hz%sort_elem_of. apply Htr; [left | now right | now right].
  - apply IH.
    + intros a b Ha Hb. apply Hle; now right.
    + intros a b Ha Hb. apply Hgt; now right.
    + intros a b c Ha Hb Hc. apply Htr; now right.
Qed.

Lemma filter_insertBy (f : A → bool) (x : A) (l : list A) :
  (∀ y, y ∈ l → f x = true → f y = true → Qle_bool (cmp x y) 0 = true) →
  List.filter f (insertBy cmp x l) = List.filter f (x :: l).
Proof.
  induction l as [|y l IH]; intros H; [reflexivity|].
  cbn. destruct (Qle_bool (cmp x y) 0) eqn:E; [reflexivity|].
  cbn. rewrite IH by (intros z Hz; apply H; now right). cbn.
  destruct (f x) eqn:Hx, (f y) eqn:Hy; try reflexivity.
  rewrite H in E; [discriminate | left | reflexivity | exact Hy].
Qed.

Lemma filter_sort_stable (f : A → bool) (l : list A) :
  (∀ a b, a ∈ l → b ∈ l → f a = true → f b = true → Qle_bool (cmp a b) 0 = true) →
  List.filter f (sort cmp l) = List.filter f l.
Proof.
  induction l as [|x l IH]; intros H; [reflexivity|].
  change (sort cmp (x :: l)) with (insertBy cmp x (sort cmp l)).
  rewrite filter_insertBy.
  - cbn. rewrite IH; [reflexivity|]. intros a b Ha Hb. apply H; now right.
  - intros y Hy%sort_elem_of. apply H; [left | now right].
Qed.

End SortMore.

Lemma StronglySorted_filter {A : Type} (R : A → A → Prop) (f : A → bool) (l : list A) :
  StronglySorted R l → StronglySorted R (List.filter f l).
Proof.
  induction 1 as [|x l Hs IH Hx]; [constructor|].
  cbn. destruct (f x); [|exact IH].
  constructor; [exact IH|].
  apply Forall_forall. intros y Hy%list_elem_of_In%filter_In.
  rewrite Forall_forall in Hx. apply Hx. apply list_elem_of_In. tauto.
Qed.

(** ** The landmark list *)

Section LandmarkListMore.

Variable calculateDistance : Q → Q → Q → Q → Q.
Variable formatDistance : Q → string.
Variable p : Platform.

Local Abbreviation nearby := (LandmarkList.getNearbyLandmarks calculateDistance formatDistance).
Local Abbreviation score := (LandmarkList.interestScore p).
Local Abbreviation measured := (LandmarkList.measured calculateDistance formatDistance).
Local Abbreviation unmeasured := LandmarkList.unmeasured.
Local Abbreviation byInterest := (LandmarkList.compareByInterest p).
Local Abbreviation byDistance :=
  (fun a b => LandmarkList.distanceOr0 a - LandmarkList.distanceOr0 b).

Lemma landmark_measured (userLat userLng : Q) (landmarks : list Landmark) :
  LandmarkList.landmark <$> (measured userLat userLng <$> landmarks) = landmarks.
Proof.
  induction landmarks as [|l landmarks IH]; [reflexivity|].
  cbn. now rewrite IH.
Qed.

Lemma distanceOr0_Some (x : LandmarkList.LandmarkWithDistance) (d : Q) :
  LandmarkList.distance x = Some d → LandmarkList.distanceOr0 x == d.
Proof.
  intros H. unfold LandmarkList.distanceOr0. rewrite H.
  destruct (Qeq_bool d 0) eqn:E; [|reflexivity].
  apply Qeq_bool_iff in E. now symmetry.
Qed.

Lemma byDistance_le (a b : LandmarkList.LandmarkWithDistance) (da db : Q) :
  LandmarkList.distance a = Some da → LandmarkList.distance b = Some db →
  (Qle_bool (byDistance a b) 0 = true ↔ da <= db).
Proof.
  intros Ha%distanceOr0_Some Hb%distanceOr0_Some.
  rewrite Qle_bool_iff, Ha, Hb. split; intros H; lra.
Qed.

Lemma sort_byDistance_sorted (l : list LandmarkList.LandmarkWithDistance) :
  (∀ x, x ∈ l → is_Some (LandmarkList.distance x)) →
  StronglySorted LandmarkList.nearerFirst (sort byDistance l).
Proof.
  intros Hsome. apply sort_StronglySorted.
  - intros a b [da Ha]%Hsome [db Hb]%Hsome H.
    exists da, db. repeat split; auto. now apply (byDistance_le a b).
  - intros a b [da Ha]%Hsome [db Hb]%Hsome H.
    exists db, da. repeat split; auto.
    destruct (Qlt_le_dec da db) as [Hlt|Hle]; [|exact Hle].
    assert (Hab : Qle_bool (byDistance a b) 0 = true)
      by (apply (byDistance_le a b da db); auto; lra).
    congruence.
  - intros a b c _ _ _ (da & db & Ha & Hb & Hab) (db' & dc & Hb' & Hc & Hbc).
    exists da, dc. repeat split; auto. rewrite Hb in Hb'. injection Hb' as <-. lra.
Qed.

Lemma getNearbyLandmarks_nearest_first_parts
  (userLat userLng : Q) (landmarks : list Landmark) :
  LandmarkList.landmark <$> nearby userLat userLng None landmarks ≡ₚ landmarks
  ∧ (∀ x, x ∈ nearby userLat userLng None landmarks →
       x = measured userLat userLng (LandmarkList.landmark x)).
Proof.
  unfold LandmarkList.getNearbyLandmarks.
  change (List.map _ landmarks) with (measured userLat userLng <$> landmarks).
  split.
  - now rewrite sort_Permutation, landmark_measured.
  - intros x (l & -> & _)%sort_elem_of%list_elem_of_fmap. reflexivity.
Qed.

(** X28. [getNearbyLandmarks] returns the landmarks with their distances, nearest
    first.  With a maximum other than 0 exactly the landmarks within it are
    returned; without one, and with the maximum 0, all of them are. *)
Theorem getNearbyLandmarks_nearest_first
  (userLat userLng : Q) (maxDistanceMeters : option Q) (landmarks : list Landmark) :
  let result := nearby userLat userLng maxDistanceMeters landmarks in
  StronglySorted LandmarkList.nearerFirst result
  ∧ (∀ x, x ∈ result →
       LandmarkList.landmark x ∈ landmarks
       ∧ x = measured userLat userLng (LandmarkList.landmark x))
  ∧ (∀ maxDistance l,
       maxDistanceMeters = Some maxDistance → ¬ maxDistance == 0 → l ∈ landmarks →
       (measured userLat userLng l ∈ result
        ↔ calculateDistance userLat userLng (l_lat l) (l_lng l) <= maxDistance))
  ∧ (maxDistanceMeters = None ∨ (∃ m, maxDistanceMeters = Some m ∧ m == 0) →
     LandmarkList.landmark <$> result ≡ₚ landmarks).
Proof.
  cbv zeta. unfold LandmarkList.getNearbyLandmarks.
  change (List.map _ landmarks) with (List.map (measured userLat userLng) landmarks).
  set (all := List.map (measured userLat userLng) landmarks).
  assert (Hall : ∀ x, x ∈ all ↔ ∃ l, l ∈ landmarks ∧ x = measured userLat userLng l).
  { intros x. unfold all. rewrite list_elem_of_In, in_map_iff. split.
    - intros (l & <- & Hl). exists l. split; [now apply list_elem_of_In | reflexivity].
    - intros (l & Hl & ->). exists l. split; [reflexivity | now apply list_elem_of_In]. }
  assert (Hsorted : StronglySorted LandmarkList.nearerFirst (sort byDistance all)).
  { apply sort_byDistance_sorted. intros x (l & _ & ->)%Hall. cbn. eauto. }
  assert (Hfrom : ∀ x, x ∈ sort byDistance all →
            LandmarkList.landmark x ∈ landmarks
            ∧ x = measured userLat userLng (LandmarkList.landmark x)).
  { intros x (l & Hl & ->)%sort_elem_of%Hall. cbn. auto. }
  assert (Hperm : LandmarkList.landmark <$> sort byDistance all ≡ₚ landmarks).
  { rewrite sort_Permutation. unfold all.
    change (List.map (measured userLat userLng) landmarks)
      with (measured userLat userLng <$> landmarks).
    now rewrite landmark_measured. }
  destruct maxDistanceMeters as [m|].
  - destruct (Qeq_bool m 0) eqn:Hm; cbn [negb].
    + apply Qeq_bool_iff in Hm.
      split; [exact Hsorted|]. split; [exact Hfrom|].
      split; [|intros _; exact Hperm].
      intros m' l [= <-] Hne. contradiction.
    + split; [now apply StronglySorted_filter|].
      split.
      { intros x [Hx _]%list_elem_of_In%filter_In. apply Hfrom. now apply list_elem_of_In. }
      split.
      * intros m' l [= <-] _ Hl.
        rewrite list_elem_of_In, filter_In, <- list_elem_of_In, elem_of_sort, Hall.
        cbn. rewrite Qle_bool_iff. split; [tauto|]. intros H. split; [eauto | exact H].
      * intros [H|(m' & [= <-] & H)]; [discriminate|].
        apply Qeq_bool_iff in H. congruence.
  - split; [exact Hsorted|]. split; [exact Hfrom|].
    split; [discriminate|]. intros _. exact Hperm.
Qed.

Lemma byInterest_le (a b : LandmarkList.LandmarkWithDistance) :
  Qle_bool (byInterest a b) 0 = true → LandmarkList.higherPriority p a b.
Proof.
  unfold LandmarkList.compareByInterest, LandmarkList.higherPriority. cbv zeta.
  case_bool_decide as Hs.
  - rewrite Qle_bool_inject_Z. intros H%Z.leb_le. left. lia.
  - intros H. right. split; [lia|]. intros da db Ha Hb. rewrite Ha, Hb in H.
    apply Qle_bool_iff in H. lra.
Qed.

Lemma byInterest_gt (a b : LandmarkList.LandmarkWithDistance) :
  Qle_bool (byInterest a b) 0 = false → LandmarkList.higherPriority p b a.
Proof.
  unfold LandmarkList.compareByInterest, LandmarkList.higherPriority. cbv zeta.
  case_bool_decide as Hs.
  - rewrite Qle_bool_inject_Z. intros H%Z.leb_gt. left. lia.
  - intros H. right. split; [lia|]. intros db da Hb Ha. rewrite Ha, Hb in H.
    destruct (Qlt_le_dec da db) as [Hlt|Hle]; [|exact Hle].
    assert (H' : Qle_bool (da - db) 0 = true) by (apply Qle_bool_iff; lra).
    congruence.
Qed.

Lemma higherPriority_trans (a b c : LandmarkList.LandmarkWithDistance) :
  (LandmarkList.distance a = None ∨ is_Some (LandmarkList.distance b)) →
  LandmarkList.higherPriority p a b → LandmarkList.higherPriority p b c →
  LandmarkList.higherPriority p a c.
Proof.
  unfold LandmarkList.higherPriority.
  intros Hb [Hab|[Eab Dab]] [Hbc|[Ebc Dbc]]; try (left; lia).
  right. split; [lia|]. intros da dc Ha Hc.
  destruct Hb as [Hb|[db Hb]]; [congruence|].
  specialize (Dab da db Ha Hb). specialize (Dbc db dc Hb Hc). lra.
Qed.

(** X29. With a position, the landmark list holds every landmark once more, each
    with its distance; a landmark with more tags among the user's interests
    stands before one with fewer, and of two with equally many the nearer one
    stands first. *)
Theorem loadWithLocation_interest_then_distance
  (latitude longitude : Q) (all : list Landmark) :
  let shown := LandmarkList.loadWithLocation calculateDistance formatDistance p
                 latitude longitude all in
  LandmarkList.landmark <$> shown ≡ₚ all
  ∧ (∀ x, x ∈ shown → x = measured latitude longitude (LandmarkList.landmark x))
  ∧ StronglySorted
      (fun a b =>
         (score b < score a)%Z
         ∨ (score a = score b
            ∧ calculateDistance latitude longitude
                (l_lat (LandmarkList.landmark a)) (l_lng (LandmarkList.landmark a))
              <= calculateDistance latitude longitude
                   (l_lat (LandmarkList.landmark b)) (l_lng (LandmarkList.landmark b))))
      shown.
Proof.
  cbv zeta. unfold LandmarkList.loadWithLocation, LandmarkList.prioritizeByInterests.
  destruct (getNearbyLandmarks_nearest_first_parts latitude longitude all)
    as (Hperm & Hfrom).
  set (sorted := nearby latitude longitude None all) in *.
  split; [now rewrite sort_Permutation|].
  split; [intros x Hx%sort_elem_of; now apply Hfrom|].
  assert (Hs : StronglySorted (LandmarkList.higherPriority p) (sort byInterest sorted)).
  { apply sort_StronglySorted.
    - intros a b _ _. apply byInterest_le.
    - intros a b _ _. apply byInterest_gt.
    - intros a b c _ Hb _. apply higherPriority_trans. right.
      rewrite (Hfrom b Hb). cbn. eauto. }
  assert (Hm : ∀ x, x ∈ sort byInterest sorted →
            LandmarkList.distance x
            = Some (calculateDistance latitude longitude
                      (l_lat (LandmarkList.landmark x)) (l_lng (LandmarkList.landmark x)))).
  { intros x Hx%sort_elem_of. rewrite (Hfrom x Hx) at 1. reflexivity. }
  revert Hs Hm. generalize (sort byInterest sorted). intros l Hs.
  induction Hs as [|x l Hs IH Hx]; intros Hm; [constructor|].
  constructor.
  - apply IH. intros y Hy. apply Hm. now right.
  - apply Forall_forall. intros y Hy. rewrite Forall_forall in Hx.
    destruct (Hx y Hy) as [H|[H1 H2]]; [now left|]. right. split; [exact H1|].
    apply H2; apply Hm; [left | now right].
Qed.

(** X30. Without a position, the landmark list holds the landmarks without
    distances, those with more tags among the user's interests first, and
    landmarks with equally many in the order of the landmark file. *)
Theorem loadWithoutLocation_keeps_file_order (all : list Landmark) (k : Z) :
  let shown := LandmarkList.loadWithoutLocation p all in
  shown ≡ₚ unmeasured <$> all
  ∧ StronglySorted (fun a b => (score b <= score a)%Z) shown
  ∧ List.filter (fun x => bool_decide (score x = k)) shown
    = List.filter (fun x => bool_decide (score x = k)) (unmeasured <$> all).
Proof.
  cbv zeta. unfold LandmarkList.loadWithoutLocation, LandmarkList.prioritizeByInterests.
  change (List.map _ all) with (unmeasured <$> all).
  assert (Hnone : ∀ x, x ∈ unmeasured <$> all → LandmarkList.distance x = None).
  { intros x (l & -> & _)%list_elem_of_fmap. reflexivity. }
  split; [apply sort_Permutation|]. split.
  - apply sort_StronglySorted.
    + intros a b _ _ H%byInterest_le. destruct H as [H|[H _]]; lia.
    + intros a b _ _ H%byInterest_gt. destruct H as [H|[H _]]; lia.
    + intros a b c _ _ _ Hab Hbc. lia.
  - apply filter_sort_stable.
    intros a b Ha%Hnone Hb%Hnone Ea%bool_decide_eq_true Eb%bool_decide_eq_true.
    unfold LandmarkList.compareByInterest. cbv zeta.
    rewrite bool_decide_eq_false_2 by (intros H; apply H; congruence).
    rewrite Ha. reflexivity.
Qed.

End LandmarkListMore.
